(** * Incident resolution pipeline: a shallow embedding of app/main.py and
      app/tools.py, with the validators of app/models.py and [embed_text] of
      app/index_runbooks.py, and the properties of the pipeline proved on it.

    Python values are an inductive type, Python floats are the kernel's
    binary64 floats, exceptions are values of an error monad threaded through
    an explicit world (the calls made to the reasoning service, the waits
    slept, the audit items written).  The services outside the code (the
    crew of agents, the embedding model, the search index, the cross-encoder,
    the audit table, the clock, the SSM and STS clients) are functions of an
    environment record that may return or raise.

    What the embedding leaves out: log lines; exceptions that do not derive
    from [Exception] (an interrupt, an exit); the limits of the interpreter
    (nesting depth, digits of an [int]); in [float(s)], digits and white
    space outside ASCII; and, in [sorted], scores that are NaN (one list
    with a NaN is used, on which Python's sort was traced by hand). *)

From Stdlib Require Import ZArith List String Ascii Bool Lia Floats.
From Stdlib Require Import Sorted Permutation.
Import ListNotations.

Set Warnings "-register-all,-inexact-float".

Local Open Scope string_scope.
Local Open Scope Z_scope.
Local Open Scope list_scope.

(* ================================================================== *)
(** ** Python values *)
(* ================================================================== *)

(** A Python [str] is held as its UTF-8 bytes.  A [dict] is an association
    list in insertion order; its keys are Python values, as
    [dict.update] can insert any hashable key. [PDecimal f] stands for
    [Decimal(str(f))]. *)
Inductive pyval : Type :=
| PNone
| PBool (b : bool)
| PInt (z : Z)
| PFloat (f : float)
| PStr (s : string)
| PList (l : list pyval)
| PDict (d : list (pyval * pyval))
| PDecimal (f : float).

Definition dict : Type := list (pyval * pyval).

(** The exception classes the code meets.  The three litellm classes are
    unrelated by subclassing; the others are the builtin ones.  All of them
    derive from [Exception]. *)
Inductive exn_class : Type :=
| RateLimitError | APIError | AuthenticationError
| ValueError | TypeError | KeyError | AttributeError | OverflowError
| RuntimeError | JSONDecodeError | ClientError | OtherError.

Definition exn_class_eqb (a b : exn_class) : bool :=
  match a, b with
  | RateLimitError, RateLimitError | APIError, APIError
  | AuthenticationError, AuthenticationError | ValueError, ValueError
  | TypeError, TypeError | KeyError, KeyError
  | AttributeError, AttributeError | OverflowError, OverflowError
  | RuntimeError, RuntimeError | JSONDecodeError, JSONDecodeError
  | ClientError, ClientError | OtherError, OtherError => true
  | _, _ => false
  end.

Record exn : Type := mkExn { exn_cls : exn_class; exn_msg : string }.

Inductive result (A : Type) : Type :=
| Ok (a : A)
| Raise (e : exn).
Arguments Ok {A} a.
Arguments Raise {A} e.

Definition rbind {A B} (r : result A) (k : A -> result B) : result B :=
  match r with Ok a => k a | Raise e => Raise e end.

Declare Scope res_scope.
Delimit Scope res_scope with res.
Notation "x <- c ;; k" := (rbind c (fun x => k))
  (at level 61, c at next level, right associativity) : res_scope.

(* ================================================================== *)
(** ** Floats *)
(* ================================================================== *)

(** [max(a, b)] and [min(a, b)] of Python on two floats: the first argument
    is kept unless the second is strictly greater (smaller). *)
Definition py_max (a b : float) : float := if (a <? b)%float then b else a.
Definition py_min (a b : float) : float := if (b <? a)%float then b else a.

(** The binary64 nearest to [n / d] for [0 < n] and [0 < d], ties to even, as
    a mantissa below [2^53 + 1] and an exponent not below [-1074]. *)
Definition round_ratio (n d : Z) : Z * Z :=
  let l := Z.log2 n - Z.log2 d in
  let e1 := l - 52 in
  let big := if 0 <=? l then d * 2 ^ l <=? n else d <=? n * 2 ^ (- l) in
  let e := Z.max (if big then e1 else e1 - 1) (-1074) in
  let n' := n * 2 ^ (Z.max (- e) 0) in
  let d' := d * 2 ^ (Z.max e 0) in
  let q := n' / d' in
  let r := n' mod d' in
  let up := (d' <? 2 * r) || ((d' =? 2 * r) && Z.odd q) in
  ((if up then q + 1 else q), e).

Definition float_of_mant_exp (q e : Z) : float :=
  FloatOps.Z.ldexp (of_uint63 (Uint63.of_Z q)) e.

(** [None] when the nearest binary64 would be beyond the largest finite one. *)
Definition nearest_float (n d : Z) : option float :=
  if n =? 0 then Some 0%float
  else
    let '(q, e) := round_ratio n d in
    if 1024 <=? Z.log2 q + e then None
    else Some (float_of_mant_exp q e).

(** [float(z)] for a Python [int]. *)
Definition float_of_int (z : Z) : result float :=
  match nearest_float (Z.abs z) 1 with
  | Some f => Ok (if z <? 0 then (- f)%float else f)
  | None => Raise (mkExn OverflowError "int too large to convert to float")
  end.

(* ================================================================== *)
(** ** The world and its monad *)
(* ================================================================== *)

(** What a run of the service leaves behind: how many times the wrapped
    reasoning call was made, the waits passed to [time.sleep] in order, and
    the items handed to the audit table's [put_item] in order.  Log lines are
    not kept. *)
Record world : Type := mkWorld {
  calls : nat;
  slept : list float;
  audit_items : list pyval
}.

Definition M (A : Type) : Type := world -> result A * world.

Definition ret {A} (a : A) : M A := fun w => (Ok a, w).
Definition raise {A} (e : exn) : M A := fun w => (Raise e, w).
Definition bind {A B} (m : M A) (k : A -> M B) : M B :=
  fun w => match m w with
           | (Ok a, w') => k a w'
           | (Raise e, w') => (Raise e, w')
           end.
Definition lift {A} (r : result A) : M A := fun w => (r, w).

Declare Scope m_scope.
Delimit Scope m_scope with M.
Notation "x <- c ;; k" := (bind c (fun x => k))
  (at level 61, c at next level, right associativity) : m_scope.

(** A callable whose successive calls give the outcomes [o 0], [o 1], ...:
    the call numbered by the world's counter, which it advances. *)
Definition call {A} (o : nat -> result A) : M A :=
  fun w => (o (calls w), mkWorld (S (calls w)) (slept w) (audit_items w)).

(** [time.sleep(secs)]: refuses NaN, what is out of the clock's range and
    negative lengths; otherwise the wait is recorded. *)
Definition time_sleep (secs : float) : M unit := fun w =>
  if is_nan secs then
    (Raise (mkExn ValueError "Invalid value NaN (not a number)"), w)
  else if negb ((-9223372036854775808 <=? secs * 1e9)%float
                && (secs * 1e9 <? 9223372036854775808)%float) then
    (Raise (mkExn OverflowError "timestamp too large to convert to C _PyTime_t"), w)
  else if (secs <? 0)%float then
    (Raise (mkExn ValueError "sleep length must be non-negative"), w)
  else (Ok tt, mkWorld (calls w) (slept w ++ [secs]) (audit_items w)).

(* ================================================================== *)
(** ** Retry wrapper: [exponential_backoff_retry] *)
(* ================================================================== *)

Definition isinstance (e : exn) (classes : list exn_class) : bool :=
  existsb (exn_class_eqb (exn_cls e)) classes.

Definition default_allowed_exceptions : list exn_class :=
  [RateLimitError; APIError].

(** [min(max_interval, base_interval * (2 ** (attempt - 1)))]; the power is
    an [int], converted to a float by the product. *)
Definition backoff_wait (base_interval max_interval : float) (attempt : Z)
  : result float :=
  (p <- float_of_int (2 ^ (attempt - 1)) ;;
   Ok (py_min max_interval (base_interval * p)%float))%res.

(** The body of [for attempt in range(1, retries + 1)], with [n] iterations
    left, and the [raise last_exc] after the loop. *)
Fixpoint retry_loop {A} (fn : M A) (allowed_exceptions : list exn_class)
    (base_interval max_interval : float)
    (n : nat) (attempt : Z) (last_exc : option exn) : M A :=
  match n with
  | O => match last_exc with
         | Some e => raise e
         | None => raise (mkExn TypeError "exceptions must derive from BaseException")
         end
  | S n' => fun w =>
      match fn w with
      | (Ok a, w1) => (Ok a, w1)
      | (Raise e, w1) =>
          if isinstance e allowed_exceptions then
            match backoff_wait base_interval max_interval attempt with
            | Raise e' => (Raise e', w1)
            | Ok wait =>
                match time_sleep wait w1 with
                | (Raise e', w2) => (Raise e', w2)
                | (Ok _, w2) =>
                    retry_loop fn allowed_exceptions base_interval max_interval
                               n' (attempt + 1) (Some e) w2
                end
            end
          else if isinstance e [AuthenticationError] then
            (Raise e, w1)      (* logged, then re-raised *)
          else (Raise e, w1)   (* no handler: propagates *)
      end
  end.

Definition exponential_backoff_retry {A} (fn : M A) (retries : Z)
    (base_interval max_interval : float)
    (allowed_exceptions : list exn_class) : M A :=
  retry_loop fn allowed_exceptions base_interval max_interval
             (Z.to_nat retries) 1 None.

(** The call as [process_alert] makes it: every parameter at its default. *)
Definition retry_default {A} (fn : M A) : M A :=
  exponential_backoff_retry fn 3 1.0%float 10.0%float default_allowed_exceptions.

(* ================================================================== *)
(** ** [json.loads] *)
(* ================================================================== *)

(** The decoder of Python's [json] module with its default settings, on the
    UTF-8 bytes of the text: the grammar of the C scanner, [NaN], [Infinity]
    and [-Infinity] included, numbers to [int] or to the nearest float,
    duplicate keys resolved as [dict(pairs)] does.  The interpreter's own
    limits (nesting depth, digits of an [int]) are not part of the model. *)

Local Open Scope char_scope.
Local Open Scope Z_scope.

Definition code (c : ascii) : Z := Z.of_N (N_of_ascii c).
Definition chr (z : Z) : ascii := ascii_of_N (Z.to_N z).

Definition is_ws (c : ascii) : bool :=
  match c with
  | " " | "009" | "010" | "013" => true
  | _ => false
  end.

Definition is_digit (c : ascii) : bool :=
  (48 <=? code c) && (code c <=? 57).

Fixpoint skip_ws (s : list ascii) : list ascii :=
  match s with
  | c :: r => if is_ws c then skip_ws r else s
  | [] => []
  end.

Fixpoint span_digits (s : list ascii) : list ascii * list ascii :=
  match s with
  | c :: r => if is_digit c then let '(d, t) := span_digits r in (c :: d, t)
              else ([], s)
  | [] => ([], [])
  end.

Definition digits_value (d : list ascii) : Z :=
  fold_left (fun acc c => 10 * acc + (code c - 48)) d 0.

Definition hex_value (c : ascii) : option Z :=
  let n := code c in
  if (48 <=? n) && (n <=? 57) then Some (n - 48)
  else if (65 <=? n) && (n <=? 70) then Some (n - 55)
  else if (97 <=? n) && (n <=? 102) then Some (n - 87)
  else None.

Definition hex4 (a b c d : ascii) : option Z :=
  match hex_value a, hex_value b, hex_value c, hex_value d with
  | Some x, Some y, Some z, Some t => Some (((x * 16 + y) * 16 + z) * 16 + t)
  | _, _, _, _ => None
  end.

(** The UTF-8 bytes of a code point (a lone surrogate is written as any
    other three-byte code point). *)
Definition utf8_encode (cp : Z) : list ascii :=
  if cp <? 128 then [chr cp]
  else if cp <? 2048 then [chr (192 + cp / 64); chr (128 + cp mod 64)]
  else if cp <? 65536 then
    [chr (224 + cp / 4096); chr (128 + (cp / 64) mod 64); chr (128 + cp mod 64)]
  else
    [chr (240 + cp / 262144); chr (128 + (cp / 4096) mod 64);
     chr (128 + (cp / 64) mod 64); chr (128 + cp mod 64)].

(** Outcome of a scanner: a value and the text left, or a decoding error.
    [SFuel] is the recursion of this embedding running out, which
    [scan_fuel_enough] shows never happens from [json_loads]. *)
Inductive scan (A : Type) : Type :=
| SOk (a : A) (rest : list ascii)
| SErr (msg : string)
| SFuel.
Arguments SOk {A} a rest.
Arguments SErr {A} msg%_string.
Arguments SFuel {A}.

Definition unescape (c : ascii) : option ascii :=
  match c with
  | "034" => Some "034"
  | "\" => Some "\"
  | "/" => Some "/"
  | "b" => Some "008"
  | "f" => Some "012"
  | "n" => Some "010"
  | "r" => Some "013"
  | "t" => Some "009"
  | _ => None
  end.

(** [scanstring], from just after the opening quote; [acc] holds the bytes
    decoded so far, last first.  A high surrogate followed by the escape of
    a low one is read as the pair. *)
Fixpoint scanstring (s : list ascii) (acc : list ascii) : scan string :=
  match s with
  | [] => SErr "Unterminated string starting at"
  | c :: r =>
      if Ascii.eqb c "034" then SOk (string_of_list_ascii (rev acc)) r
      else if Ascii.eqb c "\" then
        match r with
        | [] => SErr "Unterminated string starting at"
        | e :: r1 =>
            if Ascii.eqb e "u" then
              match r1 with
              | a :: b :: c' :: d :: r2 =>
                  match hex4 a b c' d with
                  | None => SErr "Invalid \uXXXX escape"
                  | Some hi =>
                      let lone := scanstring r2 (rev (utf8_encode hi) ++ acc) in
                      if (55296 <=? hi) && (hi <=? 56319) then
                        match r2 with
                        | b1 :: u1 :: r3 =>
                            if Ascii.eqb b1 "\" && Ascii.eqb u1 "u" then
                              match r3 with
                              | a' :: b' :: c'' :: d' :: r4 =>
                                  match hex4 a' b' c'' d' with
                                  | None => SErr "Invalid \uXXXX escape"
                                  | Some lo =>
                                      if (56320 <=? lo) && (lo <=? 57343) then
                                        scanstring r4
                                          (rev (utf8_encode
                                                  (65536 + (hi - 55296) * 1024
                                                   + (lo - 56320)))
                                           ++ acc)
                                      else lone
                                  end
                              | _ => SErr "Invalid \uXXXX escape"
                              end
                            else lone
                        | _ => lone
                        end
                      else lone
                  end
              | _ => SErr "Invalid \uXXXX escape"
              end
            else
              match unescape e with
              | Some x => scanstring r1 (x :: acc)
              | None => SErr "Invalid \escape"
              end
        end
      else if code c <? 32 then SErr "Invalid control character at"
      else scanstring r (c :: acc)
  end.

(** The float of a JSON number with integer digits [i], fraction digits [f]
    and decimal exponent [e]: the binary64 nearest to its value, an infinity
    beyond the range.  Exponents far outside the range are settled without
    computing the power. *)
Definition float_of_decimal (neg : bool) (i f : list ascii) (e : Z) : float :=
  let m := digits_value (i ++ f) in
  let e' := e - Z.of_nat (List.length f) in
  let n := Z.of_nat (List.length (i ++ f)) in
  let mag :=
    if m =? 0 then 0%float
    else if 400 <? e' then infinity
    else if e' + n <? -400 then 0%float
    else
      match (if 0 <=? e' then nearest_float (m * 10 ^ e') 1
             else nearest_float m (10 ^ (- e'))) with
      | Some x => x
      | None => infinity
      end in
  if neg then (- mag)%float else mag.

(** An optional minus at the head of [s], and an optional sign. *)
Definition take_minus (s : list ascii) : bool * list ascii :=
  match s with
  | c :: r => if Ascii.eqb c "-" then (true, r) else (false, s)
  | [] => (false, s)
  end.

Definition take_sign (s : list ascii) : bool * list ascii :=
  match s with
  | c :: r =>
      if Ascii.eqb c "-" then (true, r)
      else if Ascii.eqb c "+" then (false, r)
      else (false, s)
  | [] => (false, s)
  end.

(** The exponent part if there is one (e or E, an optional sign, one digit
    or more): its value and the text after it. *)
Definition match_exp (s : list ascii) : option (Z * list ascii) :=
  match s with
  | c :: r =>
      if (Ascii.eqb c "e" || Ascii.eqb c "E")%bool then
        let '(neg, r1) := take_sign r in
        match span_digits r1 with
        | ([], _) => None
        | (d, t) => Some ((if neg then - digits_value d else digits_value d), t)
        end
      else None
  | [] => None
  end.

(** The integer part: a single zero, or a digit from one to nine followed by
    digits. *)
Definition match_int (s : list ascii) : option (list ascii * list ascii) :=
  match s with
  | c :: r =>
      if Ascii.eqb c "0" then Some ([c], r)
      else if is_digit c then Some (span_digits s)
      else None
  | [] => None
  end.

(** The fraction if there is one: a dot and one digit or more. *)
Definition match_frac (s : list ascii) : option (list ascii) * list ascii :=
  match s with
  | c :: r =>
      if Ascii.eqb c "." then
        match span_digits r with
        | ([], _) => (None, s)
        | (f, t) => (Some f, t)
        end
      else (None, s)
  | [] => (None, s)
  end.

(** The number at the head of [s]: an optional minus, the integer part, an
    optional fraction, an optional exponent.  It is an [int] when it has
    neither fraction nor exponent. *)
Definition match_number (s : list ascii) : option (pyval * list ascii) :=
  let '(neg, s1) := take_minus s in
  match match_int s1 with
  | None => None
  | Some (i, s2) =>
      let '(frac, s3) := match_frac s2 in
      match frac, match_exp s3 with
      | None, None =>
          Some (PInt (if neg then - digits_value i else digits_value i), s3)
      | Some f, None => Some (PFloat (float_of_decimal neg i f 0), s3)
      | None, Some (e, s4) => Some (PFloat (float_of_decimal neg i [] e), s4)
      | Some f, Some (e, s4) => Some (PFloat (float_of_decimal neg i f e), s4)
      end
  end.

(* ------------------------------------------------------------------ *)
(** *** Dictionaries *)

(** The integer a float is equal to, if it is integral. *)
Definition float_to_int_exact (f : float) : option Z :=
  match Prim2SF f with
  | S754_zero _ => Some 0
  | S754_finite s m e =>
      let v := if 0 <=? e then Some (Zpos m * 2 ^ e)
               else if (Zpos m) mod 2 ^ (- e) =? 0 then Some (Zpos m / 2 ^ (- e))
               else None in
      match v with
      | Some z => Some (if s then - z else z)
      | None => None
      end
  | _ => None
  end.

Definition int_eq_float (z : Z) (f : float) : bool :=
  match float_to_int_exact f with
  | Some z' => z =? z'
  | None => false
  end.

Definition int_of_bool (b : bool) : Z := if b then 1 else 0.

(** Whether two keys are the same key of a dict: [==] on hashable values,
    numbers compared by value across [bool], [int] and [float]; the decoder's
    NaN is one object, equal to itself as a key. *)
Definition key_eqb (a b : pyval) : bool :=
  match a, b with
  | PNone, PNone => true
  | PBool x, PBool y => Bool.eqb x y
  | PBool x, PInt z | PInt z, PBool x => int_of_bool x =? z
  | PBool x, PFloat f | PFloat f, PBool x => int_eq_float (int_of_bool x) f
  | PInt x, PInt y => x =? y
  | PInt z, PFloat f | PFloat f, PInt z => int_eq_float z f
  | PFloat x, PFloat y => (x =? y)%float || (is_nan x && is_nan y)
  | PStr x, PStr y => String.eqb x y
  | _, _ => false
  end.

Fixpoint dict_get (d : dict) (k : pyval) : option pyval :=
  match d with
  | [] => None
  | (k', v) :: d' => if key_eqb k' k then Some v else dict_get d' k
  end.

(** [d[k] = v]: the value of an existing key is replaced in place, a new key
    goes last. *)
Fixpoint dict_put (d : dict) (k v : pyval) : dict :=
  match d with
  | [] => [(k, v)]
  | (k', v') :: d' =>
      if key_eqb k' k then (k', v) :: d' else (k', v') :: dict_put d' k v
  end.

Definition hashable (k : pyval) : bool :=
  match k with
  | PList _ | PDict _ => false
  | _ => true
  end.

Definition dict_setitem (d : dict) (k v : pyval) : result dict :=
  if hashable k then Ok (dict_put d k v)
  else Raise (mkExn TypeError "unhashable type").

(* ------------------------------------------------------------------ *)
(** *** The scanner *)

Fixpoint strip_prefix (p s : list ascii) : option (list ascii) :=
  match p, s with
  | [], _ => Some s
  | a :: p', b :: s' => if Ascii.eqb a b then strip_prefix p' s' else None
  | _ :: _, [] => None
  end.

Definition chars (s : string) : list ascii := list_ascii_of_string s.

(** A constant or a number at the head of [s]. *)
Definition scan_atom (s : list ascii) : scan pyval :=
  match strip_prefix (chars "null") s with
  | Some r => SOk PNone r
  | None =>
  match strip_prefix (chars "true") s with
  | Some r => SOk (PBool true) r
  | None =>
  match strip_prefix (chars "false") s with
  | Some r => SOk (PBool false) r
  | None =>
  match match_number s with
  | Some (v, r) => SOk v r
  | None =>
  match strip_prefix (chars "NaN") s with
  | Some r => SOk (PFloat nan) r
  | None =>
  match strip_prefix (chars "Infinity") s with
  | Some r => SOk (PFloat infinity) r
  | None =>
  match strip_prefix (chars "-Infinity") s with
  | Some r => SOk (PFloat neg_infinity) r
  | None => SErr "Expecting value"
  end end end end end end end.

(** [scan_once] with the loops of [JSONObject] and [JSONArray].
    [object_loop] starts just after the opening quote of a key,
    [array_loop] at an element. *)
Fixpoint scan_once (fuel : nat) (s : list ascii) {struct fuel} : scan pyval :=
  match fuel with
  | O => SFuel
  | S f =>
      match s with
      | [] => SErr "Expecting value"
      | c :: r =>
          if Ascii.eqb c "034" then
            match scanstring r [] with
            | SOk k rest => SOk (PStr k) rest
            | SErr m => SErr m
            | SFuel => SFuel
            end
          else if Ascii.eqb c "{" then
            match skip_ws r with
            | c1 :: r1 =>
                if Ascii.eqb c1 "}" then SOk (PDict []) r1
                else if Ascii.eqb c1 "034" then object_loop f r1 []
                else SErr "Expecting property name enclosed in double quotes"
            | [] => SErr "Expecting property name enclosed in double quotes"
            end
          else if Ascii.eqb c "[" then
            match skip_ws r with
            | c1 :: r1 =>
                if Ascii.eqb c1 "]" then SOk (PList []) r1
                else array_loop f (c1 :: r1) []
            | [] => SErr "Expecting value"
            end
          else scan_atom s
      end
  end

with object_loop (fuel : nat) (s : list ascii) (pairs : dict) {struct fuel}
  : scan pyval :=
  match fuel with
  | O => SFuel
  | S f =>
      match scanstring s [] with
      | SOk key r =>
          match skip_ws r with
          | c :: r1 =>
              if Ascii.eqb c ":" then
                match scan_once f (skip_ws r1) with
                | SOk value r2 =>
                    let pairs' := dict_put pairs (PStr key) value in
                    match skip_ws r2 with
                    | c2 :: r3 =>
                        if Ascii.eqb c2 "}" then SOk (PDict pairs') r3
                        else if Ascii.eqb c2 "," then
                          match skip_ws r3 with
                          | c3 :: r4 =>
                              if Ascii.eqb c3 "034" then object_loop f r4 pairs'
                              else SErr "Expecting property name enclosed in double quotes"
                          | [] => SErr "Expecting property name enclosed in double quotes"
                          end
                        else SErr "Expecting ',' delimiter"
                    | [] => SErr "Expecting ',' delimiter"
                    end
                | SErr m => SErr m
                | SFuel => SFuel
                end
              else SErr "Expecting ':' delimiter"
          | [] => SErr "Expecting ':' delimiter"
          end
      | SErr m => SErr m
      | SFuel => SFuel
      end
  end

with array_loop (fuel : nat) (s : list ascii) (values : list pyval) {struct fuel}
  : scan pyval :=
  match fuel with
  | O => SFuel
  | S f =>
      match scan_once f s with
      | SOk value r =>
          let values' := (values ++ [value])%list in
          match skip_ws r with
          | c :: r1 =>
              if Ascii.eqb c "]" then SOk (PList values') r1
              else if Ascii.eqb c "," then array_loop f (skip_ws r1) values'
              else SErr "Expecting ',' delimiter"
          | [] => SErr "Expecting ',' delimiter"
          end
      | SErr m => SErr m
      | SFuel => SFuel
      end
  end.

Definition JSONDecodeError_ (msg : string) : exn := mkExn JSONDecodeError msg.

Definition scan_fuel (s : list ascii) : nat := 2 * List.length s + 2.

(** [json.loads(s)] for a [str]. *)
Definition json_loads (s : string) : result pyval :=
  let cs := chars s in
  match strip_prefix ["239"; "187"; "191"] cs with
  | Some _ => Raise (JSONDecodeError_ "Unexpected UTF-8 BOM (decode using utf-8-sig)")
  | None =>
      match scan_once (scan_fuel (skip_ws cs)) (skip_ws cs) with
      | SOk v rest =>
          match skip_ws rest with
          | [] => Ok v
          | _ :: _ => Raise (JSONDecodeError_ "Extra data")
          end
      | SErr m => Raise (JSONDecodeError_ m)
      | SFuel => Raise (mkExn RuntimeError "scanner fuel")
      end
  end.

(* ================================================================== *)
(** ** Python operations used by the endpoint *)
(* ================================================================== *)

(** Truth value of an object, as [if x], [not x] and [x or y] test it. *)
Definition py_truthy (v : pyval) : bool :=
  match v with
  | PNone => false
  | PBool b => b
  | PInt z => negb (z =? 0)
  | PFloat f => negb (f =? 0)%float
  | PStr s => negb (String.eqb s EmptyString)
  | PList l => match l with [] => false | _ :: _ => true end
  | PDict d => match d with [] => false | _ :: _ => true end
  | PDecimal f => negb (f =? 0)%float
  end.

Definition py_or (a b : pyval) : pyval := if py_truthy a then a else b.

Fixpoint str_contains (needle hay : string) : bool :=
  if String.prefix needle hay then true
  else match hay with
       | EmptyString => false
       | String _ hay' => str_contains needle hay'
       end.

(** [needle in container] for a [str] needle. *)
Definition py_contains (needle : string) (container : pyval) : result bool :=
  match container with
  | PStr s => Ok (str_contains needle s)
  | PList l => Ok (existsb (key_eqb (PStr needle)) l)
  | PDict d => Ok (match dict_get d (PStr needle) with Some _ => true | None => false end)
  | _ => Raise (mkExn TypeError "argument is not iterable")
  end.

(** The code points of a UTF-8 text, each as its bytes. *)
Definition is_continuation (c : ascii) : bool :=
  (128 <=? code c) && (code c <? 192).

Fixpoint utf8_split (s : list ascii) : list (list ascii) :=
  match s with
  | [] => []
  | c :: r =>
      match utf8_split r with
      | [] => [[c]]
      | g :: gs =>
          match r with
          | c' :: _ => if is_continuation c' then (c :: g) :: gs else [c] :: g :: gs
          | [] => [[c]]
          end
      end
  end.

(** The elements an object yields when it is iterated, as
    [dict.update] reads a pair. *)
Definition py_iter (v : pyval) : result (list pyval) :=
  match v with
  | PList l => Ok l
  | PStr s => Ok (map (fun g => PStr (string_of_list_ascii g)) (utf8_split (chars s)))
  | PDict d => Ok (map fst d)
  | _ => Raise (mkExn TypeError "object is not iterable")
  end.

(** [d.update(seq)] for a sequence of pairs. *)
Fixpoint dict_update_pairs (d : dict) (items : list pyval) : result dict :=
  match items with
  | [] => Ok d
  | item :: items' =>
      match py_iter item with
      | Raise _ =>
          Raise (mkExn TypeError
                   "cannot convert dictionary update sequence element to a sequence")
      | Ok [k; v] =>
          match dict_setitem d k v with
          | Ok d' => dict_update_pairs d' items'
          | Raise e => Raise e
          end
      | Ok _ =>
          Raise (mkExn ValueError
                   "dictionary update sequence element has a length other than 2")
      end
  end.

(** [d.update(other)]: a mapping is overlaid key by key; anything else is
    read as a sequence of pairs. *)
Definition overlay (d o : dict) : dict :=
  fold_left (fun acc kv => dict_put acc (fst kv) (snd kv)) o d.

Definition dict_update (d : dict) (other : pyval) : result dict :=
  match other with
  | PDict o => Ok (overlay d o)
  | _ =>
      match py_iter other with
      | Ok items => dict_update_pairs d items
      | Raise e => Raise e
      end
  end.

(** [sep.join(items)]. *)
Fixpoint str_join (sep : string) (items : list pyval) : result string :=
  match items with
  | [] => Ok EmptyString
  | [PStr s] => Ok s
  | PStr s :: items' =>
      match str_join sep items' with
      | Ok t => Ok (s ++ sep ++ t)%string
      | Raise e => Raise e
      end
  | _ :: _ => Raise (mkExn TypeError "sequence item: expected str instance")
  end.

(* ------------------------------------------------------------------ *)
(** *** [float(x)] *)

Definition is_space (c : ascii) : bool :=
  let n := code c in
  (n =? 32) || ((9 <=? n) && (n <=? 13)).

Fixpoint lstrip (s : list ascii) : list ascii :=
  match s with
  | c :: r => if is_space c then lstrip r else s
  | [] => []
  end.

Definition strip (s : list ascii) : list ascii :=
  rev (lstrip (rev (lstrip s))).

Definition lower (c : ascii) : ascii :=
  if (65 <=? code c) && (code c <=? 90) then chr (code c + 32) else c.

(** Underscores may stand between two digits only; they are dropped. [prev]
    tells whether the character before is a digit. *)
Fixpoint drop_underscores (prev : bool) (s : list ascii) : option (list ascii) :=
  match s with
  | [] => Some []
  | c :: r =>
      if Ascii.eqb c "_" then
        match r with
        | c' :: _ => if prev && is_digit c' then drop_underscores false r else None
        | [] => None
        end
      else
        match drop_underscores (is_digit c) r with
        | Some t => Some (c :: t)
        | None => None
        end
  end.

(** [float(s)] for a [str] of ASCII characters: surrounding white space, a
    sign, then [inf], [infinity], [nan] in any case or a decimal literal.
    Text with digits or spaces outside ASCII is refused here. *)
Definition float_of_str (s : string) : result float :=
  let bad := Raise (mkExn ValueError "could not convert string to float") in
  let t := strip (chars s) in
  let '(neg, body) := take_sign t in
  let sign (x : float) := if neg then (- x)%float else x in
  let word := string_of_list_ascii (map lower body) in
  if (String.eqb word "inf" || String.eqb word "infinity")%bool then Ok (sign infinity)
  else if String.eqb word "nan" then Ok nan
  else
    match drop_underscores false body with
    | None => bad
    | Some b =>
        let '(i, r1) := span_digits b in
        let '(f, r2) :=
          match r1 with
          | c :: r => if Ascii.eqb c "." then span_digits r else ([], r1)
          | [] => ([], r1)
          end in
        match i, f with
        | [], [] => bad
        | _, _ =>
            match r2 with
            | [] => Ok (float_of_decimal neg i f 0)
            | _ :: _ =>
                match match_exp r2 with
                | Some (e, []) => Ok (float_of_decimal neg i f e)
                | _ => bad
                end
            end
        end
    end.

(** [float(x)]. *)
Definition py_float (x : pyval) : result float :=
  match x with
  | PFloat f => Ok f
  | PInt z => float_of_int z
  | PBool b => Ok (if b then 1 else 0)%float
  | PStr s => float_of_str s
  | PDecimal f => Ok f
  | PNone | PList _ | PDict _ =>
      Raise (mkExn TypeError "float() argument must be a string or a real number")
  end.

Local Close Scope char_scope.

(* ================================================================== *)
(** ** Structured-output recovery: [_parse_possible_json] *)
(* ================================================================== *)

(** The text from the first opening brace on. *)
Fixpoint from_first_open (s : list ascii) : option (list ascii) :=
  match s with
  | [] => None
  | c :: r => if Ascii.eqb c "{"%char then Some s else from_first_open r
  end.

(** The longest prefix that ends with a closing brace. *)
Fixpoint upto_last_close (s : list ascii) : option (list ascii) :=
  match s with
  | [] => None
  | c :: r =>
      match upto_last_close r with
      | Some p => Some (c :: p)
      | None => if Ascii.eqb c "}"%char then Some [c] else None
      end
  end.

(** [re.search(r"\{.*\}", val, re.DOTALL)] and [match.group()]: from the
    first opening brace to the last closing brace after it. *)
Definition re_search_braces (val : string) : option string :=
  match from_first_open (chars val) with
  | Some (c :: r) =>
      match upto_last_close r with
      | Some p => Some (string_of_list_ascii (c :: p))
      | None => None
      end
  | _ => None
  end.

Definition empty_dict : pyval := PDict [].

Definition _parse_possible_json (val : pyval) : result pyval :=
  if negb (py_truthy val) then Ok empty_dict
  else
    match val with
    | PDict _ => Ok val
    | PStr s =>
        match json_loads s with
        | Ok v => Ok v
        | Raise _ =>                       (* except Exception: pass *)
            match re_search_braces s with
            | Some m =>
                match json_loads m with
                | Ok v => Ok v
                | Raise _ => Ok empty_dict (* except Exception: return {} *)
                end
            | None => Ok empty_dict
            end
        end
    | _ => Ok empty_dict
    end.

(* ================================================================== *)
(** ** The endpoint: [process_alert] *)
(* ================================================================== *)

Inductive SeverityEnum : Type := low | medium | high.

(** An alert as the endpoint receives it, after validation. *)
Record Alert : Type := mkAlert {
  incident_id : option string;
  description : string;
  severity : SeverityEnum;
  metrics : dict
}.

(** What the code reads of one entry of [tasks_output]: the attributes
    [agent], [raw] and [output] ([PNone] for one that is absent) and
    [str(t)]. *)
Record task_output : Type := mkTask {
  agent : pyval;
  raw : pyval;
  output : pyval;
  task_str : string
}.

(** What the code reads of the object [crew.kickoff] returned:
    [tasks_output] (empty when the attribute is absent) and [str(result)]. *)
Record crew_output : Type := mkCrew {
  tasks_output : list task_output;
  crew_str : string
}.

(** The collaborators outside the code: the outcome of each successive
    [crew.kickoff] for an alert, [uuid.uuid4()], the clock, and whether the
    audit table accepts an item. *)
Record env : Type := mkEnv {
  kickoff : Alert -> nat -> result crew_output;
  uuid4 : string;
  now_isoformat : string;
  table_put : pyval -> result unit
}.

Fixpoint convert_floats (obj : pyval) : pyval :=
  match obj with
  | PFloat f => PDecimal f
  | PDict d => PDict (map (fun kv => (fst kv, convert_floats (snd kv))) d)
  | PList l => PList (map convert_floats l)
  | _ => obj
  end.

(** [get_audit_table().put_item(Item=item)]: the item is recorded when
    the table accepts it. *)
Definition put_item (E : env) (item : pyval) : M unit := fun w =>
  match table_put E item with
  | Ok _ => (Ok tt, mkWorld (calls w) (slept w) (audit_items w ++ [item]))
  | Raise e => (Raise e, w)
  end.

Definition key (s : string) : pyval := PStr s.

(** The response when the retries are exhausted on a rate limit or a service
    error. *)
Definition llm_unavailable (incident : string) : pyval :=
  PDict [(key "status", PStr "pending_human");
         (key "incident_id", PStr incident);
         (key "resolution",
          PDict [(key "issue", PStr "LLM unavailable");
                 (key "root_cause", PStr "Rate limited or service error");
                 (key "impact", PStr "Unknown");
                 (key "resolution", PStr "Manual investigation required");
                 (key "confidence", PFloat 0);
                 (key "executed", PBool false)])].

(** One turn of the loop over [tasks_output]: the two parsed mappings after
    it, and the exception that ended it if one did. *)
Definition extract_step (t : task_output) (st : pyval * pyval)
  : (pyval * pyval) * option exn :=
  let agent_name := py_or (agent t) (PStr EmptyString) in
  let raw_output := py_or (raw t) (output t) in
  let raw_output := if py_truthy raw_output then raw_output else PStr (task_str t) in
  match _parse_possible_json raw_output with
  | Raise e => (st, Some e)
  | Ok parsed_json =>
      match py_contains "Resolution Generator" agent_name with
      | Raise e => (st, Some e)
      | Ok is_analyzer =>
          let st1 := ((if is_analyzer then parsed_json else fst st), snd st) in
          match py_contains "Fix Executor" agent_name with
          | Raise e => (st1, Some e)
          | Ok is_executor =>
              ((fst st1, (if is_executor then parsed_json else snd st1)), None)
          end
      end
  end.

(** The loop inside its [try]: an exception ends it, and what was parsed so
    far is kept. *)
Fixpoint extract_loop (ts : list task_output) (st : pyval * pyval)
  : pyval * pyval :=
  match ts with
  | [] => st
  | t :: ts' =>
      match extract_step t st with
      | (st', None) => extract_loop ts' st'
      | (st', Some _) => st'
      end
  end.

(** "Extract outputs": [(parsed_analyzer, parsed_executor)]. *)
Definition extract_outputs (result : crew_output) : pyval * pyval :=
  extract_loop (tasks_output result) (empty_dict, empty_dict).

Definition default_resolution : dict :=
  [(key "issue", PStr "Unknown");
   (key "root_cause", PStr "Unknown");
   (key "impact", PStr "Unknown");
   (key "resolution", PStr "Manual investigation required");
   (key "confidence", PFloat 0.7);
   (key "executed", PBool false)].

Definition update_if_truthy (d : dict) (parsed : pyval) : result dict :=
  if py_truthy parsed then dict_update d parsed else Ok d.

Definition flatten_command_id (resolution : dict) : result dict :=
  match dict_get resolution (key "command_id") with
  | Some (PList l) =>
      match str_join "," l with
      | Ok s => Ok (dict_put resolution (key "command_id") (PStr s))
      | Raise e => Raise e
      end
  | _ => Ok resolution
  end.

(** "Merge resolution". *)
Definition merge_resolution (parsed_analyzer parsed_executor : pyval)
  : result dict :=
  (r1 <- update_if_truthy default_resolution parsed_analyzer ;;
   r2 <- update_if_truthy r1 parsed_executor ;;
   flatten_command_id r2)%res.

Definition is_True (v : option pyval) : bool :=
  match v with
  | Some (PBool true) => true
  | _ => false
  end.

(** "Final decision": the status and the resolution after it. *)
Definition final_decision (resolution : dict) : result (string * dict) :=
  (confidence <- py_float (match dict_get resolution (key "confidence") with
                           | Some v => v
                           | None => PFloat 0.7
                           end) ;;
   if is_True (dict_get resolution (key "executed")) then
     Ok ("resolved",
         dict_put resolution (key "confidence") (PFloat (py_max confidence 0.95)))
   else if (confidence <? 0.8)%float then Ok ("pending_human", resolution)
   else Ok ("resolved", resolution))%res.

Definition audit_item (incident now : string) (resolution : dict)
    (result : crew_output) (status : string) : pyval :=
  convert_floats
    (PDict [(key "incident_id", PStr incident);
            (key "timestamp", PStr now);
            (key "resolution", PDict resolution);
            (key "actions", PStr (crew_str result));
            (key "human_intervention", PBool (String.eqb status "pending_human"))]).

Definition response (status incident : string) (resolution : dict) : pyval :=
  PDict [(key "status", PStr status);
         (key "incident_id", PStr incident);
         (key "resolution", PDict resolution)].

(** [alert.incident_id or str(uuid.uuid4())]. *)
Definition incident_of (E : env) (alert : Alert) : string :=
  match incident_id alert with
  | Some s => if String.eqb s EmptyString then uuid4 E else s
  | None => uuid4 E
  end.

Definition process_alert (E : env) (alert : Alert) : M pyval := fun w =>
  let incident := incident_of E alert in
  match retry_default (call (kickoff E alert)) w with
  | (Raise e, w1) =>
      if isinstance e [RateLimitError; APIError] then
        (Ok (llm_unavailable incident), w1)
      else (Raise e, w1)
  | (Ok result, w1) =>
      let '(parsed_analyzer, parsed_executor) := extract_outputs result in
      match merge_resolution parsed_analyzer parsed_executor with
      | Raise e => (Raise e, w1)
      | Ok merged =>
          match final_decision merged with
          | Raise e => (Raise e, w1)
          | Ok (status, resolution) =>
              match put_item E (audit_item incident (now_isoformat E)
                                           resolution result status) w1 with
              | (Raise e, w2) => (Raise e, w2)
              | (Ok _, w2) => (Ok (response status incident resolution), w2)
              end
          end
      end
  end.

(* ================================================================== *)
(** ** Retrieval: [RAGTool._run] *)
(* ================================================================== *)

(** The collaborators of the retrieval tool: building the OpenSearch client
    (it raises when OPENSEARCH_URL is unset), the embedding model (the
    decoded body of its response to the query), the index search, and the
    cross-encoder (loading it and scoring the pairs). *)
Record rag_env : Type := mkRag {
  get_opensearch_client : result unit;
  invoke_model : string -> result string;
  client_search : string -> pyval -> result pyval;
  predict : list (string * pyval) -> result (list float)
}.

(** [obj[k]] for a [str] key. *)
Definition py_getitem (obj : pyval) (k : string) : result pyval :=
  match obj with
  | PDict d =>
      match dict_get d (key k) with
      | Some v => Ok v
      | None => Raise (mkExn KeyError k)
      end
  | _ => Raise (mkExn TypeError "indices must be integers or the object is not subscriptable")
  end.

(** [obj.get(k, default)]: only a dict has the method. *)
Definition py_get (obj : pyval) (k : string) (default : pyval) : result pyval :=
  match obj with
  | PDict d =>
      Ok (match dict_get d (key k) with Some v => v | None => default end)
  | _ => Raise (mkExn AttributeError "object has no attribute 'get'")
  end.

Definition query_body (query_embedding : pyval) : pyval :=
  PDict [(key "size", PInt 10);
         (key "query",
          PDict [(key "knn",
                  PDict [(key "vector_field",
                          PDict [(key "vector", query_embedding);
                                 (key "k", PInt 10)])])])].

(** [[hit["_source"]["content"] for hit in hits]]. *)
Fixpoint hit_contents (hits : list pyval) : result (list pyval) :=
  match hits with
  | [] => Ok []
  | hit :: hits' =>
      (src <- py_getitem hit "_source" ;;
       content <- py_getitem src "content" ;;
       rest <- hit_contents hits' ;;
       Ok (content :: rest))%res
  end.

(** One step of a stable sort in descending order of the score: [x], which
    stood before every element of [l], passes only the elements that score
    strictly more. *)
Fixpoint insert_desc (x : pyval * float) (l : list (pyval * float))
  : list (pyval * float) :=
  match l with
  | [] => [x]
  | y :: l' =>
      if (snd x <? snd y)%float then y :: insert_desc x l' else x :: y :: l'
  end.

(** [sorted(pairs, key=lambda x: x[1], reverse=True)] for scores that are
    numbers (no NaN among them), where every stable sort gives the same
    list. *)
Definition sorted_desc (pairs : list (pyval * float)) : list (pyval * float) :=
  fold_right insert_desc [] pairs.

(** The body of the [try]. *)
Definition _run_body (R : rag_env) (query : string) : result (list pyval) :=
  (_ <- get_opensearch_client R ;;
   body <- invoke_model R query ;;
   resp_body <- json_loads body ;;
   query_embedding <- py_get resp_body "embedding" (PList []) ;;
   if negb (py_truthy query_embedding) then Ok []
   else
     search_response <- client_search R "runbooks" (query_body query_embedding) ;;
     hits1 <- py_getitem search_response "hits" ;;
     hits2 <- py_getitem hits1 "hits" ;;
     hits <- py_iter hits2 ;;
     docs <- hit_contents hits ;;
     match docs with
     | [] => Ok []
     | _ :: _ =>
         scores <- predict R (map (fun doc => (query, doc)) docs) ;;
         let reranked := firstn 3 (sorted_desc (combine docs scores)) in
         Ok (map fst reranked)
     end)%res.

Definition _run (R : rag_env) (query : string) : result (list pyval) :=
  match _run_body R query with
  | Ok docs => Ok docs
  | Raise _ => Ok []        (* except Exception: logged, return [] *)
  end.

(* ================================================================== *)
(** ** Command execution: [SSMExecuteTool._run] *)
(* ================================================================== *)

(** [s.lower()], of the letters of ASCII.  It is compared with ["true"]
    only, and no character outside ASCII lowers to one of its letters. *)
Definition str_lower (s : string) : string :=
  string_of_list_ascii (map lower (chars s)).

Module SSMExecuteTool.

(** The collaborators of the execution tool: the variable TEST_MODE of the
    environment, building the SSM client, and the response of
    [send_command] to a command. *)
Record ssm_env : Type := mkSsm {
  TEST_MODE : option string;
  boto3_client : result unit;
  send_command : string -> result pyval
}.

(** [os.getenv("TEST_MODE", "false").lower() == "true"]. *)
Definition test_mode (T : ssm_env) : bool :=
  String.eqb (str_lower (match TEST_MODE T with Some v => v | None => "false" end))
             "true".

(** The body of the [try]. *)
Definition _run_body (T : ssm_env) (command : string) : result pyval :=
  (_ <- boto3_client T ;;
   response <- send_command T command ;;
   cmd <- py_getitem response "Command" ;;
   py_getitem cmd "CommandId")%res.

(** [raise Exception(...)] is written with the class [OtherError]. *)
Definition _run (T : ssm_env) (command : string) : result pyval :=
  if test_mode T then
    if String.eqb command "fail" then
      Raise (mkExn OtherError "Simulated failure in TEST_MODE")
    else Ok (PStr "cmd-123")
  else
    match _run_body T command with
    | Ok v => Ok v
    | Raise e =>
        if isinstance e [ClientError] then
          Raise (mkExn OtherError ("SSM execution failed: " ++ exn_msg e)%string)
        else Raise e
    end.

End SSMExecuteTool.

(* ================================================================== *)
(** ** The check of the credentials at start *)
(* ================================================================== *)

(** The collaborators of the check: building the STS client and the
    response of [get_caller_identity]. *)
Record sts_env : Type := mkSts {
  sts_client : result unit;
  get_caller_identity : result pyval
}.

(** The body of the [try]: the identity is asked for and its [Arn] read for
    the log. *)
Definition caller_identity (T : sts_env) : result unit :=
  (_ <- sts_client T ;;
   identity <- get_caller_identity T ;;
   _ <- py_get identity "Arn" PNone ;;
   Ok tt)%res.

Definition assert_aws_credentials (T : sts_env) : result unit :=
  match caller_identity T with
  | Ok u => Ok u
  | Raise e =>
      if isinstance e [ClientError] then
        Raise (mkExn RuntimeError "Fix AWS creds or use AWS_PROFILE.")
      else Raise e
  end.

(** The [try] around the check when the module is loaded: a RuntimeError is
    logged as a warning and the loading goes on. *)
Definition startup_check (T : sts_env) : result unit :=
  match assert_aws_credentials T with
  | Ok u => Ok u
  | Raise e => if isinstance e [RuntimeError] then Ok tt else Raise e
  end.

(* ================================================================== *)
(** ** The validators of an alert *)
(* ================================================================== *)

(** The code points that [str.strip] and [str.isspace] take for white
    space. *)
Definition unicode_spaces : list Z :=
  [9; 10; 11; 12; 13; 28; 29; 30; 31; 32; 133; 160; 5760;
   8192; 8193; 8194; 8195; 8196; 8197; 8198; 8199; 8200; 8201; 8202;
   8232; 8233; 8239; 8287; 12288].

(** Whether a code point, given as its UTF-8 bytes, is white space. *)
Definition isspace (g : list ascii) : bool :=
  existsb (fun cp => String.eqb (string_of_list_ascii g)
                                (string_of_list_ascii (utf8_encode cp)))
          unicode_spaces.

Fixpoint lstrip_spaces (s : list (list ascii)) : list (list ascii) :=
  match s with
  | g :: r => if isspace g then lstrip_spaces r else s
  | [] => []
  end.

(** [s.strip()]. *)
Definition str_strip (s : string) : string :=
  string_of_list_ascii
    (List.concat (rev (lstrip_spaces (rev (lstrip_spaces (utf8_split (chars s))))))).

(** The validator of [description] of the alert of the endpoint. *)
Definition description_not_blank (v : string) : result string :=
  if negb (py_truthy (PStr (str_strip v))) then
    Raise (mkExn ValueError "Description must not be blank")
  else Ok v.

(** [SeverityEnum]: the value of each member. *)
Definition SeverityEnum_value (s : SeverityEnum) : string :=
  match s with
  | low => "low"
  | medium => "medium"
  | high => "high"
  end.

(** The validators of the alert of [models.py]. *)
Module models.

Definition desc_not_empty (v : string) : result string :=
  if negb (py_truthy (PStr (str_strip v))) then
    Raise (mkExn ValueError "Description cannot be empty")
  else Ok v.

Definition severity_valid (v : string) : result string :=
  if negb (existsb (key_eqb (PStr v)) [PStr "low"; PStr "medium"; PStr "high"]) then
    Raise (mkExn ValueError "Severity must be low, medium, or high")
  else Ok v.

End models.

(* ================================================================== *)
(** ** The embedding of a runbook: [embed_text] *)
(* ================================================================== *)

(** [obj[0]].  An IndexError is written with the class [OtherError]. *)
Definition py_first (obj : pyval) : result pyval :=
  match obj with
  | PList (x :: _) => Ok x
  | PList [] => Raise (mkExn OtherError "list index out of range")
  | PStr s =>
      match utf8_split (chars s) with
      | g :: _ => Ok (PStr (string_of_list_ascii g))
      | [] => Raise (mkExn OtherError "string index out of range")
      end
  | PDict d =>
      match dict_get d (PInt 0) with
      | Some v => Ok v
      | None => Raise (mkExn KeyError "0")
      end
  | _ => Raise (mkExn TypeError "object is not subscriptable")
  end.

(** [embed_text] of [index_runbooks.py], with the embedding model as the
    retrieval has it: the decoded body of its response to a text. *)
Definition embed_text (invoke_model : string -> result string) (text : string)
  : result pyval :=
  (body <- invoke_model text ;;
   resp_body <- json_loads body ;;
   first <- py_get resp_body "embedding" PNone ;;
   if py_truthy first then Ok first
   else
     second <- py_get resp_body "embeddings" (PList []) ;;
     py_first second)%res.

(** [get_opensearch_client] of [tools.py]: the variable OPENSEARCH_URL of
    the environment, and the making of the session and of the client. *)
Definition get_opensearch_client_of (OPENSEARCH_URL : option string)
    (connect : result unit) : result unit :=
  let host := match OPENSEARCH_URL with Some h => PStr h | None => PNone end in
  if negb (py_truthy host) then
    Raise (mkExn RuntimeError "OPENSEARCH_URL not set in .env")
  else connect.

(* ================================================================== *)
(** ** Vocabulary of the statements, and the runs used as examples *)
(* ================================================================== *)

(** A scanner outcome that is not the fuel running out and that, when it is
    a value, leaves fewer than [n] characters. *)
Definition shorter {A} (n : nat) (res : scan A) : Prop :=
  match res with
  | SOk _ r => (List.length r < n)%nat
  | SErr _ => True
  | SFuel => False
  end.

Definition transient (e : exn) : Prop :=
  exn_cls e = RateLimitError \/ exn_cls e = APIError.

Definition rate_limited : exn := mkExn RateLimitError "rate limit exceeded".
Definition always_rate_limited (A : Type) : nat -> result A :=
  fun _ => Raise rate_limited.
Definition world0 : world := mkWorld 0 [] [].

Definition auth_failed : exn := mkExn AuthenticationError "invalid credentials".

(** The calls fail with a rate limit up to call [k], which fails on the
    credentials. *)
Definition auth_fails_at (A : Type) (k : nat) : nat -> result A :=
  fun i => if Nat.eqb i k then Raise auth_failed else Raise rate_limited.

(** The texts of the examples are written with an apostrophe where the text
    has a double quote. *)
Definition quoted (s : string) : string :=
  string_of_list_ascii
    (map (fun c => if Ascii.eqb c "'"%char then "034"%char else c) (chars s)).

Definition example_text : string :=
  quoted "Sure! Here is the result: {'confidence': 0.9}".

(** [number f]: the float is not NaN. *)
Definition number (f : float) : Prop := is_nan f = false.

Definition confidence_of (resolution : dict) : pyval :=
  match dict_get resolution (key "confidence") with
  | Some v => v
  | None => PFloat 0.7
  end.

Definition executed_of (resolution : dict) : option pyval :=
  dict_get resolution (key "executed").

(** The threshold rule alone. *)
Definition threshold_status (confidence : float) : string :=
  if (confidence <? 0.8)%float then "pending_human" else "resolved".

(** What recovery and merge make of the raw texts of the Analyze and
    Execute-decision stages. *)
Definition merged_of_texts (analyzer executor : string) : result dict :=
  (pa <- _parse_possible_json (PStr analyzer) ;;
   pe <- _parse_possible_json (PStr executor) ;;
   merge_resolution pa pe)%res.

Definition resolution_executed_low : dict :=
  [(key "confidence", PFloat 0.3); (key "executed", PBool true)].

Definition resolution_executed_text : dict :=
  [(key "confidence", PFloat 0.9); (key "executed", PStr "true")].
Definition resolution_executed_one : dict :=
  [(key "confidence", PFloat 0.5); (key "executed", PInt 1)].


(** A task output of the agent with role [name] whose raw text is [text]. *)
Definition stage (name text : string) : task_output :=
  mkTask (PStr name) (PStr text) PNone text.

(** The output of a run of the four stages, with the texts of the Analyze
    and Execute-decision stages. *)
Definition crew_of (analysis execution : string) : crew_output :=
  mkCrew [stage "Incident Classifier" "database";
          stage "Runbook Selector" "{}";
          stage "Resolution Generator" analysis;
          stage "Fix Executor" execution]
         execution.

(** Collaborators that work: the first [crew.kickoff] returns, the audit
    table accepts every item. *)
Definition env_of (analysis execution : string) : env :=
  mkEnv (fun _ _ => Ok (crew_of analysis execution))
        "generated-uuid" "2024-01-01T00:00:00" (fun _ => Ok tt).

(** Collaborators with a reasoning service that is rate limited at every
    call. *)
Definition env_rate_limited : env :=
  mkEnv (fun _ => always_rate_limited crew_output)
        "generated-uuid" "2024-01-01T00:00:00" (fun _ => Ok tt).

Definition alert0 : Alert := mkAlert None "DB timeout" high [].

(** A confidence that is a number of the closed interval from 0 to 1. *)
Definition unit_confidence (v : pyval) : Prop :=
  match v with
  | PFloat f => (0 <=? f)%float = true /\ (f <=? 1)%float = true
  | PInt z => 0 <= z <= 1
  | _ => False
  end.

Definition is_boolean (v : pyval) : Prop := exists b, v = PBool b.

(** A recovered mapping whose [confidence], if it has one, is a number from
    0 to 1, whose [executed], if it has one, is a boolean, and whose
    [command_id], if it is a list, is a list of strings. *)
Definition well_typed_fields (d : dict) : Prop :=
  NoDup (map fst d)
  /\ (forall v, dict_get d (key "confidence") = Some v -> unit_confidence v)
  /\ (forall v, dict_get d (key "executed") = Some v -> is_boolean v)
  /\ (forall l, dict_get d (key "command_id") = Some (PList l) ->
                exists ids, l = map PStr ids).

(** [process_alert] returns, and the resolution of its response has a
    confidence that is a number from 0 to 1 and a boolean [executed]. *)
Definition returns_in_range (E : env) (alert : Alert) (w : world) : Prop :=
  exists (resp : pyval) (w' : world) (resolution : dict) (v : pyval) (b : bool),
    process_alert E alert w = (Ok resp, w')
    /\ py_getitem resp "resolution" = Ok (PDict resolution)
    /\ dict_get resolution (key "confidence") = Some v
    /\ unit_confidence v
    /\ dict_get resolution (key "executed") = Some (PBool b).

(** The first half of [_run]: the embedding of the query. *)
Definition embedding (R : rag_env) (query : string) : result pyval :=
  (_ <- get_opensearch_client R ;;
   body <- invoke_model R query ;;
   resp_body <- json_loads body ;;
   py_get resp_body "embedding" (PList []))%res.

(** The contents of the hits of the search for an embedding. *)
Definition candidates (R : rag_env) (query_embedding : pyval)
  : result (list pyval) :=
  (search_response <- client_search R "runbooks" (query_body query_embedding) ;;
   hits1 <- py_getitem search_response "hits" ;;
   hits2 <- py_getitem hits1 "hits" ;;
   hits <- py_iter hits2 ;;
   hit_contents hits)%res.

(** Descending order of the scores. *)
Definition score_ge (a b : pyval * float) : Prop :=
  (snd b <=? snd a)%float = true.

(** The collaborators of the retrieval tests: an embedding of three
    numbers, two hits, the scores 0.9 and 0.1. *)
Definition hit (content : string) : pyval :=
  PDict [(key "_source", PDict [(key "content", PStr content)])].

Definition rag_fixture : rag_env :=
  mkRag (Ok tt)
        (fun _ => Ok (quoted "{'embedding': [0.1, 0.2, 0.3]}"))
        (fun _ _ =>
           Ok (PDict [(key "hits",
                       PDict [(key "hits",
                               PList [hit "runbook-other";
                                      hit "runbook-db-timeout"])])]))
        (fun _ => Ok [0.1; 0.9]%float).

(** Collaborators whose reranker gives a score that is no number: four
    hits, the scores 0.2, NaN, 0.9 and 0.5. *)
Definition rag_nan_scores : rag_env :=
  mkRag (Ok tt)
        (fun _ => Ok (quoted "{'embedding': [0.1, 0.2, 0.3]}"))
        (fun _ _ =>
           Ok (PDict [(key "hits",
                       PDict [(key "hits",
                               PList [hit "a"; hit "b"; hit "c"; hit "d"])])]))
        (fun _ => Ok [0.2; nan; 0.9; 0.5]%float).

(* ================================================================== *)
(** ** Further vocabulary *)
(* ================================================================== *)

(** The waits of the three attempts the defaults allow. *)
Definition default_waits : list float := [1; 2; 4]%float.

(** A wait the wrapper may sleep: not negative, not above the cap. *)
Definition within (max_interval : float) (secs : float) : Prop :=
  (0 <=? secs)%float = true /\ (secs <=? max_interval)%float = true.

(** The collaborators [E] with a reasoning call that returns [result] at
    the first attempt. *)
Definition with_result (E : env) (result : crew_output) : env :=
  mkEnv (fun _ _ => Ok result) (uuid4 E) (now_isoformat E) (table_put E).

(** What the loop over [tasks_output] hands to the recovery for a task
    output: [raw], else [output], else [str(t)]. *)
Definition raw_output_of (t : task_output) : pyval :=
  let raw_output := py_or (raw t) (output t) in
  if py_truthy raw_output then raw_output else PStr (task_str t).

(** The agent name of a task output is a text, or is absent or empty and
    read as the empty text. *)
Definition agent_name_is_text (t : task_output) : Prop :=
  exists s, py_or (agent t) (PStr EmptyString) = PStr s.

(** [role in agent_name] holds for the task output. *)
Definition names (role : string) (t : task_output) : bool :=
  match py_contains role (py_or (agent t) (PStr EmptyString)) with
  | Ok b => b
  | Raise _ => false
  end.

(** The last task output whose agent name has the role in it. *)
Fixpoint last_of (role : string) (ts : list task_output) : option task_output :=
  match ts with
  | [] => None
  | t :: ts' =>
      match last_of role ts' with
      | Some u => Some u
      | None => if names role t then Some t else None
      end
  end.

(** What the recovery makes of the output of the last task of a role: the
    empty mapping when no task has the role. *)
Definition recovered_of (role : string) (ts : list task_output) : result pyval :=
  match last_of role ts with
  | Some t => _parse_possible_json (raw_output_of t)
  | None => Ok empty_dict
  end.

(** No [float] among the values of an object, at any depth: the elements of
    a list and the values of a dict are looked into, the keys of a dict are
    not. *)
Fixpoint no_float (obj : pyval) : bool :=
  match obj with
  | PFloat _ => false
  | PList l => forallb no_float l
  | PDict d => forallb (fun kv => no_float (snd kv)) d
  | _ => true
  end.

(** Scores in descending order: none is below the one after it. *)
Fixpoint descending (scores : list float) : bool :=
  match scores with
  | a :: (b :: _) as rest => (b <=? a)%float && descending rest
  | _ => true
  end.

(** A text that is white space from end to end, the empty text being
    one. *)
Definition blank (v : string) : bool :=
  forallb isspace (utf8_split (chars v)).

(* ================================================================== *)
(** * Properties *)
(* ================================================================== *)

(** ** The retry wrapper *)

Lemma transient_allowed (e : exn) :
  transient e -> isinstance e default_allowed_exceptions = true.
Proof.
  unfold isinstance; intros [H | H]; rewrite H; reflexivity.
Qed.

Lemma auth_not_allowed (e : exn) :
  exn_cls e = AuthenticationError ->
  isinstance e default_allowed_exceptions = false.
Proof.
  unfold isinstance; intros H; rewrite H; reflexivity.
Qed.

Lemma time_sleep_calls (secs : float) (w : world) :
  calls (snd (time_sleep secs w)) = calls w
  /\ audit_items (snd (time_sleep secs w)) = audit_items w.
Proof.
  unfold time_sleep.
  destruct (is_nan secs); [now split|].
  destruct (negb _); [now split|].
  destruct (secs <? 0)%float; now split.
Qed.

(** A loop with [n] turns left calls the wrapped function [n] times at most
    and writes nothing to the audit table. *)
Lemma retry_loop_calls_le {A} (o : nat -> result A) allowed b m :
  forall n attempt last w,
    (calls (snd (retry_loop (call o) allowed b m n attempt last w))
       <= calls w + n)%nat
    /\ audit_items (snd (retry_loop (call o) allowed b m n attempt last w))
       = audit_items w.
Proof.
  induction n as [|n IH]; intros attempt last w.
  - simpl. destruct last; simpl; split; auto; lia.
  - cbn [retry_loop call].
    destruct (o (calls w)) as [a|e]; [simpl; split; auto; lia|].
    destruct (isinstance e allowed).
    + destruct (backoff_wait b m attempt) as [wait|e']; [|simpl; split; auto; lia].
      set (w1 := mkWorld (S (calls w)) (slept w) (audit_items w)).
      pose proof (time_sleep_calls wait w1) as [Hc Ha].
      destruct (time_sleep wait w1) as [[u|e'] w2]; simpl in Hc, Ha.
      * destruct (IH (attempt + 1) (Some e) w2) as [IH1 IH2].
        rewrite IH2, Ha. split; [lia | reflexivity].
      * simpl. rewrite Hc, Ha. simpl. split; [lia | reflexivity].
    + destruct (isinstance e [AuthenticationError]); simpl; split; auto; lia.
Qed.

(** One turn of the loop that meets an allowed error and gets through its
    wait. *)
Lemma retry_loop_turn {A} (o : nat -> result A) allowed b m n attempt last
    (w w2 : world) e wait :
  o (calls w) = Raise e ->
  isinstance e allowed = true ->
  backoff_wait b m attempt = Ok wait ->
  time_sleep wait (mkWorld (S (calls w)) (slept w) (audit_items w)) = (Ok tt, w2) ->
  retry_loop (call o) allowed b m (S n) attempt last w
  = retry_loop (call o) allowed b m n (attempt + 1) (Some e) w2.
Proof.
  intros Ho Ha Hb Hs. cbn [retry_loop call]. rewrite Ho, Ha, Hb, Hs. reflexivity.
Qed.

(** With the defaults, three transient failures in a row: three calls, the
    waits 1, 2 and 4 seconds, and the third error raised. *)
Lemma retry_default_exhausted {A} (o : nat -> result A) (w : world) e1 e2 e3 :
  o (calls w) = Raise e1 -> o (S (calls w)) = Raise e2 ->
  o (S (S (calls w))) = Raise e3 ->
  transient e1 -> transient e2 -> transient e3 ->
  retry_default (call o) w
  = (Raise e3, mkWorld (calls w + 3) (slept w ++ [1; 2; 4]%float) (audit_items w)).
Proof.
  intros H1 H2 H3 T1 T2 T3.
  apply transient_allowed in T1, T2, T3.
  unfold retry_default, exponential_backoff_retry.
  change (Z.to_nat 3) with 3%nat.
  rewrite (retry_loop_turn o default_allowed_exceptions 1 10 2 1 None w
             (mkWorld (S (calls w)) (slept w ++ [1%float]) (audit_items w))
             e1 1%float H1 T1 eq_refl eq_refl).
  rewrite (retry_loop_turn o default_allowed_exceptions 1 10 1 (1 + 1) (Some e1)
             (mkWorld (S (calls w)) (slept w ++ [1%float]) (audit_items w))
             (mkWorld (S (S (calls w))) ((slept w ++ [1%float]) ++ [2%float])
                      (audit_items w))
             e2 2%float H2 T2 eq_refl eq_refl).
  rewrite (retry_loop_turn o default_allowed_exceptions 1 10 0 (1 + 1 + 1) (Some e2)
             (mkWorld (S (S (calls w))) ((slept w ++ [1%float]) ++ [2%float])
                      (audit_items w))
             (mkWorld (S (S (S (calls w))))
                      (((slept w ++ [1%float]) ++ [2%float]) ++ [4%float])
                      (audit_items w))
             e3 4%float H3 T3 eq_refl eq_refl).
  cbn [retry_loop raise].
  rewrite <- !app_assoc. simpl.
  replace (calls w + 3)%nat with (S (S (S (calls w)))) by lia.
  reflexivity.
Qed.

(** The waits of the three attempts the defaults allow, against the exact
    value [min(10, 1 * 2^(n-1))]. *)
Lemma backoff_wait_default (n : Z) :
  1 <= n <= 3 ->
  backoff_wait 1 10 n = float_of_int (Z.min 10 (1 * 2 ^ (n - 1))).
Proof.
  intros H.
  assert (n = 1 \/ n = 2 \/ n = 3) as [-> | [-> | ->]] by lia; reflexivity.
Qed.

(** C5: with the default parameters (3 attempts, base interval 1.0, maximal
    interval 10.0), the wait computed after a transient failure at attempt
    [n] is [min(10, 1 * 2^(n-1))], the wrapped function is called 3 times at
    most, and when the three attempts fail with a rate limit or a service
    error the waits slept are 1, 2 and 4 seconds and the error of the last
    attempt is raised to the caller. *)
Theorem retry_defaults_backoff_and_exhaustion :
  forall (A : Type) (o : nat -> result A) (w : world) (e1 e2 e3 : exn),
    o (calls w) = Raise e1 ->
    o (S (calls w)) = Raise e2 ->
    o (S (S (calls w))) = Raise e3 ->
    transient e1 -> transient e2 -> transient e3 ->
    (forall n, 1 <= n <= 3 ->
               backoff_wait 1 10 n = float_of_int (Z.min 10 (1 * 2 ^ (n - 1))))
    /\ map (backoff_wait 1 10) [1; 2; 3] = [Ok 1; Ok 2; Ok 4]%float
    /\ (forall (o' : nat -> result A) (w' : world),
           (calls (snd (retry_default (call o') w')) <= calls w' + 3)%nat)
    /\ retry_default (call o) w
       = (Raise e3,
          mkWorld (calls w + 3) (slept w ++ [1; 2; 4]%float) (audit_items w)).
Proof.
  intros A o w e1 e2 e3 H1 H2 H3 T1 T2 T3.
  split; [exact backoff_wait_default|].
  split; [reflexivity|].
  split.
  - intros o' w'. unfold retry_default, exponential_backoff_retry.
    change (Z.to_nat 3) with 3%nat.
    apply (retry_loop_calls_le o').
  - apply (retry_default_exhausted o w e1 e2 e3); assumption.
Qed.

Lemma retry_defaults_backoff_and_exhaustion_witness :
  transient rate_limited
  /\ retry_default (call (always_rate_limited nat)) world0
     = (Raise rate_limited, mkWorld 3 [1; 2; 4]%float []).
Proof.
  split; [left; reflexivity|].
  apply (retry_defaults_backoff_and_exhaustion nat (always_rate_limited nat) world0
           rate_limited rate_limited rate_limited
           eq_refl eq_refl eq_refl
           (or_introl eq_refl) (or_introl eq_refl) (or_introl eq_refl)).
Defined.

(** C6: an authentication error of the wrapped call ends the wrapper at
    once, at whatever attempt it comes: the error is raised to the caller,
    the call that failed is the last one made and no wait follows it.  With
    the defaults this holds after any number of transient failures. *)
Theorem auth_error_not_retried :
  forall (A : Type) (o : nat -> result A) (e : exn),
    exn_cls e = AuthenticationError ->
    (forall retries_left attempt last_exc base_interval max_interval (w : world),
        o (calls w) = Raise e ->
        retry_loop (call o) default_allowed_exceptions base_interval max_interval
                   (S retries_left) attempt last_exc w
        = (Raise e, mkWorld (S (calls w)) (slept w) (audit_items w)))
    /\ (forall (k : nat) (w : world),
           (k < 3)%nat ->
           (forall i, (i < k)%nat ->
                      exists e', o (calls w + i)%nat = Raise e' /\ transient e') ->
           o (calls w + k)%nat = Raise e ->
           exists w',
             retry_default (call o) w = (Raise e, w')
             /\ calls w' = (calls w + k + 1)%nat
             /\ List.length (slept w') = (List.length (slept w) + k)%nat
             /\ audit_items w' = audit_items w).
Proof.
  intros A o e He.
  assert (Hstep : forall n attempt last b m (w : world),
             o (calls w) = Raise e ->
             retry_loop (call o) default_allowed_exceptions b m (S n) attempt last w
             = (Raise e, mkWorld (S (calls w)) (slept w) (audit_items w))).
  { intros n attempt last b m w Ho. cbn [retry_loop call].
    rewrite Ho, (auth_not_allowed e He).
    destruct (isinstance e [AuthenticationError]); reflexivity. }
  split; [exact Hstep|].
  intros k w Hk Hprev Hat.
  unfold retry_default, exponential_backoff_retry. change (Z.to_nat 3) with 3%nat.
  destruct k as [|[|[|k]]]; [| | |lia].
  - rewrite Nat.add_0_r in Hat. rewrite (Hstep _ _ _ _ _ w Hat).
    eexists; split; [reflexivity|]. simpl. repeat split; lia.
  - destruct (Hprev 0%nat ltac:(lia)) as [e1 [H1 T1]]. rewrite Nat.add_0_r in H1.
    rewrite (retry_loop_turn o default_allowed_exceptions 1 10 2 1 None w
               (mkWorld (S (calls w)) (slept w ++ [1%float]) (audit_items w))
               e1 1%float H1 (transient_allowed e1 T1) eq_refl eq_refl).
    rewrite Hstep by (simpl; now rewrite <- Nat.add_1_r).
    eexists; split; [reflexivity|]. simpl. rewrite length_app. simpl.
    repeat split; lia.
  - destruct (Hprev 0%nat ltac:(lia)) as [e1 [H1 T1]]. rewrite Nat.add_0_r in H1.
    destruct (Hprev 1%nat ltac:(lia)) as [e2 [H2 T2]]. rewrite Nat.add_1_r in H2.
    rewrite (retry_loop_turn o default_allowed_exceptions 1 10 2 1 None w
               (mkWorld (S (calls w)) (slept w ++ [1%float]) (audit_items w))
               e1 1%float H1 (transient_allowed e1 T1) eq_refl eq_refl).
    rewrite (retry_loop_turn o default_allowed_exceptions 1 10 1 (1 + 1) (Some e1)
               (mkWorld (S (calls w)) (slept w ++ [1%float]) (audit_items w))
               (mkWorld (S (S (calls w))) ((slept w ++ [1%float]) ++ [2%float])
                        (audit_items w))
               e2 2%float H2 (transient_allowed e2 T2) eq_refl eq_refl).
    rewrite Hstep
      by (simpl; now replace (S (S (calls w))) with (calls w + 2)%nat by lia).
    eexists; split; [reflexivity|]. simpl. rewrite !length_app. simpl.
    repeat split; lia.
Qed.

Lemma auth_error_not_retried_witness :
  exn_cls auth_failed = AuthenticationError
  /\ exists w',
       retry_default (call (auth_fails_at nat 1)) world0 = (Raise auth_failed, w')
       /\ calls w' = 2%nat
       /\ List.length (slept w') = 1%nat
       /\ audit_items w' = [].
Proof.
  split; [reflexivity|].
  apply (proj2 (auth_error_not_retried nat (auth_fails_at nat 1) auth_failed eq_refl)
           1%nat world0).
  - lia.
  - intros i Hi. exists rate_limited. split; [|left; reflexivity].
    destruct i; [reflexivity|lia].
  - reflexivity.
Defined.

(** ** Structured-output recovery *)

Lemma from_first_open_app (a t : list ascii) :
  (forall x, In x a -> x <> "{"%char) ->
  from_first_open (a ++ "{"%char :: t) = Some ("{"%char :: t).
Proof.
  induction a as [|x a IH]; intros Ha; [reflexivity|].
  simpl. destruct (Ascii.eqb_spec x "{"%char) as [->|_].
  - exfalso. apply (Ha "{"%char); [now left | reflexivity].
  - apply IH. intros y Hy. apply Ha. now right.
Qed.

Lemma upto_last_close_none (c : list ascii) :
  (forall x, In x c -> x <> "}"%char) -> upto_last_close c = None.
Proof.
  induction c as [|x c IH]; intros Hc; [reflexivity|].
  simpl. rewrite IH by (intros y Hy; apply Hc; now right).
  destruct (Ascii.eqb_spec x "}"%char) as [->|_]; [|reflexivity].
  exfalso. apply (Hc "}"%char); [now left | reflexivity].
Qed.

Lemma upto_last_close_app (b c : list ascii) :
  (forall x, In x c -> x <> "}"%char) ->
  upto_last_close (b ++ "}"%char :: c) = Some (b ++ ["}"%char]).
Proof.
  intros Hc. induction b as [|x b IH].
  - simpl. now rewrite (upto_last_close_none c Hc).
  - simpl. now rewrite IH.
Qed.

(** The search finds the span from the first opening brace to the last
    closing brace, whatever stands between them, line ends included. *)
Lemma re_search_braces_span (a b c : list ascii) :
  (forall x, In x a -> x <> "{"%char) ->
  (forall x, In x c -> x <> "}"%char) ->
  re_search_braces (string_of_list_ascii (a ++ "{"%char :: b ++ "}"%char :: c))
  = Some (string_of_list_ascii ("{"%char :: b ++ ["}"%char])).
Proof.
  intros Ha Hc. unfold re_search_braces, chars.
  rewrite list_ascii_of_string_of_list_ascii.
  rewrite (from_first_open_app a _ Ha).
  now rewrite (upto_last_close_app b c Hc).
Qed.

Lemma json_loads_empty : json_loads EmptyString
                         = Raise (JSONDecodeError_ "Expecting value").
Proof. reflexivity. Qed.

(** C4: recovery never raises and follows one order.  A mapping comes back
    unchanged; a text that parses as JSON gives its value; a text that does
    not gives the value of the span from its first opening brace to the last
    closing brace when that span parses; and the empty mapping comes back
    when both attempts fail, when there is no such span, and for an empty or
    absent input.  On the text
    [Sure! Here is the result: {"confidence": 0.9}] the result is the
    mapping of [confidence] to 0.9. *)
Theorem parse_possible_json_total_and_ordered :
  (forall val, exists v, _parse_possible_json val = Ok v)
  /\ (forall d, _parse_possible_json (PDict d) = Ok (PDict d))
  /\ (forall s v, json_loads s = Ok v -> _parse_possible_json (PStr s) = Ok v)
  /\ (forall s e m v,
         json_loads s = Raise e -> re_search_braces s = Some m ->
         json_loads m = Ok v -> _parse_possible_json (PStr s) = Ok v)
  /\ (forall s e m e',
         json_loads s = Raise e -> re_search_braces s = Some m ->
         json_loads m = Raise e' -> _parse_possible_json (PStr s) = Ok empty_dict)
  /\ (forall s e,
         json_loads s = Raise e -> re_search_braces s = None ->
         _parse_possible_json (PStr s) = Ok empty_dict)
  /\ (forall a b c,
         (forall x, In x a -> x <> "{"%char) ->
         (forall x, In x c -> x <> "}"%char) ->
         re_search_braces (string_of_list_ascii (a ++ "{"%char :: b ++ "}"%char :: c))
         = Some (string_of_list_ascii ("{"%char :: b ++ ["}"%char])))
  /\ _parse_possible_json PNone = Ok empty_dict
  /\ _parse_possible_json (PStr EmptyString) = Ok empty_dict
  /\ _parse_possible_json (PStr example_text)
     = Ok (PDict [(key "confidence", PFloat 0.9)]).
Proof.
  split.
  { intros val. unfold _parse_possible_json.
    destruct (negb (py_truthy val)); [eexists; reflexivity|].
    destruct val; try (eexists; reflexivity).
    destruct (json_loads s); [eexists; reflexivity|].
    destruct (re_search_braces s) as [m|]; [|eexists; reflexivity].
    destruct (json_loads m); eexists; reflexivity. }
  split.
  { intros [|p d]; reflexivity. }
  split.
  { intros s v Hs. unfold _parse_possible_json.
    destruct s as [|c s].
    - rewrite json_loads_empty in Hs. discriminate.
    - cbn [py_truthy String.eqb negb]. now rewrite Hs. }
  assert (Hfalsy : forall s, py_truthy (PStr s) = false ->
                             _parse_possible_json (PStr s) = Ok empty_dict).
  { intros s H. unfold _parse_possible_json. now rewrite H. }
  split.
  { intros s e m v Hs Hm Hv.
    destruct (py_truthy (PStr s)) eqn:Ht.
    - unfold _parse_possible_json. now rewrite Ht, Hs, Hm, Hv.
    - destruct s; [discriminate Hm | discriminate Ht]. }
  split.
  { intros s e m e' Hs Hm Hv.
    destruct (py_truthy (PStr s)) eqn:Ht; [|now apply Hfalsy].
    unfold _parse_possible_json. now rewrite Ht, Hs, Hm, Hv. }
  split.
  { intros s e Hs Hm.
    destruct (py_truthy (PStr s)) eqn:Ht; [|now apply Hfalsy].
    unfold _parse_possible_json. now rewrite Ht, Hs, Hm. }
  split; [exact re_search_braces_span|].
  repeat split; vm_compute; reflexivity.
Qed.

Lemma parse_possible_json_total_and_ordered_witness :
  json_loads example_text = Raise (JSONDecodeError_ "Expecting value")
  /\ re_search_braces example_text = Some (quoted "{'confidence': 0.9}")
  /\ json_loads (quoted "{'confidence': 0.9}")
     = Ok (PDict [(key "confidence", PFloat 0.9)])
  /\ _parse_possible_json (PStr example_text)
     = Ok (PDict [(key "confidence", PFloat 0.9)]).
Proof.
  assert (H1 : json_loads example_text = Raise (JSONDecodeError_ "Expecting value"))
    by (vm_compute; reflexivity).
  assert (H2 : re_search_braces example_text = Some (quoted "{'confidence': 0.9}"))
    by (vm_compute; reflexivity).
  assert (H3 : json_loads (quoted "{'confidence': 0.9}")
               = Ok (PDict [(key "confidence", PFloat 0.9)]))
    by (vm_compute; reflexivity).
  split; [exact H1|]. split; [exact H2|]. split; [exact H3|].
  exact (proj1 (proj2 (proj2 (proj2 parse_possible_json_total_and_ordered)))
           example_text _ _ _ H1 H2 H3).
Defined.

(** ** The order of floats *)

Lemma SFcompare_antisym (x y : spec_float) :
  SFcompare y x = option_map CompOpp (SFcompare x y).
Proof.
  destruct x as [sx|sx| |sx mx ex], y as [sy|sy| |sy my ey]; simpl;
    try reflexivity; try (destruct sx; reflexivity); try (destruct sy; reflexivity);
    try (destruct sx, sy; reflexivity).
  change (Pos.compare_cont Eq my mx) with (Pos.compare my mx).
  change (Pos.compare_cont Eq mx my) with (Pos.compare mx my).
  rewrite (Z.compare_antisym ex ey), (Pos.compare_antisym mx my).
  destruct sx, sy, (ex ?= ey), (mx ?= my)%positive; reflexivity.
Qed.

Lemma SFcompare_refl (x : spec_float) :
  x <> S754_nan -> SFcompare x x = Some Eq.
Proof.
  destruct x as [s|s| |s m e]; intros H; simpl; try reflexivity;
    try (destruct s; reflexivity); try congruence.
  destruct s; rewrite Z.compare_refl;
    change (Pos.compare_cont Eq m m) with (Pos.compare m m);
    now rewrite Pos.compare_refl.
Qed.

Lemma SFcompare_some (x y : spec_float) :
  x <> S754_nan -> y <> S754_nan -> SFcompare x y <> None.
Proof.
  destruct x, y; simpl; congruence.
Qed.

Lemma SFleb_trans (x y z : spec_float) :
  SFleb x y = true -> SFleb y z = true -> SFleb x z = true.
Proof.
  unfold SFleb.
  destruct x as [sx|sx| |sx mx ex], y as [sy|sy| |sy my ey], z as [sz|sz| |sz mz ez];
    simpl; try discriminate; try reflexivity;
    try (destruct sx; simpl; try discriminate; try reflexivity);
    try (destruct sy; simpl; try discriminate; try reflexivity);
    try (destruct sz; simpl; try discriminate; try reflexivity).
  all: change (Pos.compare_cont Eq ?a ?b) with (Pos.compare a b).
  all: repeat match goal with
       | |- context [Z.compare ?a ?b] => destruct (Z.compare_spec a b); simpl
       | |- context [Pos.compare ?a ?b] => destruct (Pos.compare_spec a b); simpl
       end; try discriminate; try reflexivity; intros; subst; try lia.
Qed.

Lemma number_spec (f : float) : number f -> Prim2SF f <> S754_nan.
Proof.
  unfold number, is_nan. rewrite eqb_spec. unfold SFeqb. intros H E.
  rewrite E in H. discriminate.
Qed.

Lemma leb_refl (a : float) : number a -> (a <=? a)%float = true.
Proof.
  intros H. rewrite leb_spec. unfold SFleb.
  now rewrite SFcompare_refl by now apply number_spec.
Qed.

Lemma ltb_leb (a b : float) : (a <? b)%float = true -> (a <=? b)%float = true.
Proof.
  rewrite ltb_spec, leb_spec. unfold SFltb, SFleb.
  destruct (SFcompare (Prim2SF a) (Prim2SF b)) as [[| |]|]; congruence.
Qed.

Lemma not_ltb_leb (a b : float) :
  number a -> number b -> (a <? b)%float = false -> (b <=? a)%float = true.
Proof.
  intros Ha Hb. rewrite ltb_spec, leb_spec. unfold SFltb, SFleb.
  rewrite (SFcompare_antisym (Prim2SF a) (Prim2SF b)).
  pose proof (SFcompare_some _ _ (number_spec a Ha) (number_spec b Hb)) as Hs.
  destruct (SFcompare (Prim2SF a) (Prim2SF b)) as [[| |]|]; simpl; congruence.
Qed.

Lemma leb_trans (a b c : float) :
  (a <=? b)%float = true -> (b <=? c)%float = true -> (a <=? c)%float = true.
Proof.
  rewrite !leb_spec. apply SFleb_trans.
Qed.

(** [max(c, m)] is at least [m] when both are numbers. *)
Lemma py_max_ge (c m : float) :
  number c -> number m -> (m <=? py_max c m)%float = true.
Proof.
  intros Hc Hm. unfold py_max.
  destruct (c <? m)%float eqn:E.
  - now apply leb_refl.
  - now apply not_ltb_leb.
Qed.

(** ** Dictionaries with text keys *)

Lemma key_eqb_str (k : pyval) (s : string) :
  key_eqb k (PStr s) = true -> k = PStr s.
Proof.
  destruct k; simpl; try discriminate.
  intros H. apply String.eqb_eq in H. now subst.
Qed.

Lemma key_eqb_str_refl (s : string) : key_eqb (PStr s) (PStr s) = true.
Proof. simpl. apply String.eqb_refl. Qed.

Lemma key_eqb_str_l (k : pyval) (s : string) :
  key_eqb (PStr s) k = true -> k = PStr s.
Proof.
  destruct k; simpl; try discriminate.
  intros H. apply String.eqb_eq in H. now subst.
Qed.

(** Reading a text key after a write: the value written if the key written
    is that key, the former value otherwise. *)
Lemma dict_get_put (d : dict) (k v : pyval) (s : string) :
  dict_get (dict_put d k v) (PStr s)
  = if key_eqb k (PStr s) then Some v else dict_get d (PStr s).
Proof.
  induction d as [|[k0 v0] d IH]; [reflexivity|].
  simpl. destruct (key_eqb k0 k) eqn:E0; simpl.
  - destruct (key_eqb k0 (PStr s)) eqn:E1.
    + apply key_eqb_str in E1. subst k0. apply key_eqb_str_l in E0. subst k.
      now rewrite key_eqb_str_refl.
    + destruct (key_eqb k (PStr s)) eqn:E2; [|reflexivity].
      apply key_eqb_str in E2. subst k. congruence.
  - rewrite IH. destruct (key_eqb k0 (PStr s)) eqn:E1; [|reflexivity].
    apply key_eqb_str in E1. subst k0.
    destruct (key_eqb k (PStr s)) eqn:E2; [|reflexivity].
    apply key_eqb_str in E2. subst k. now rewrite key_eqb_str_refl in E0.
Qed.

Lemma dict_get_put_same (d : dict) (v : pyval) (s : string) :
  dict_get (dict_put d (key s) v) (key s) = Some v.
Proof.
  unfold key. now rewrite dict_get_put, key_eqb_str_refl.
Qed.

Lemma dict_get_put_other (d : dict) (v : pyval) (s t : string) :
  s <> t -> dict_get (dict_put d (key s) v) (key t) = dict_get d (key t).
Proof.
  intros H. unfold key. rewrite dict_get_put. simpl.
  destruct (String.eqb_spec s t); [contradiction | reflexivity].
Qed.

(** ** The decoder *)

Lemma shorter_le {A} (n m : nat) (res : scan A) :
  shorter n res -> (n <= m)%nat -> shorter m res.
Proof. destruct res; simpl; intros; try assumption; lia. Qed.

Lemma skip_ws_length (s : list ascii) :
  (List.length (skip_ws s) <= List.length s)%nat.
Proof.
  induction s as [|c s IH]; simpl; [lia|].
  destruct (is_ws c); simpl; lia.
Qed.

Ltac scan_case :=
  match goal with
  | |- shorter _ (if ?b then _ else _) => destruct b eqn:?
  | |- shorter _ (match ?x with _ => _ end) => destruct x eqn:?
  | |- shorter _ (let _ := _ in _) => cbv zeta
  end.

Lemma scanstring_shorter (n : nat) :
  forall s acc, (List.length s <= n)%nat ->
                shorter (List.length s) (scanstring s acc).
Proof.
  induction n as [|n IH]; intros s acc Hn.
  - destruct s; [exact I | simpl in Hn; lia].
  - destruct s as [|c s]; [exact I|]. simpl in Hn.
    cbn [scanstring].
    repeat scan_case; subst; try exact I;
      try (simpl; lia);
      try (eapply shorter_le; [apply IH; simpl in *; lia | simpl; lia]).
Qed.

Lemma span_digits_length (s : list ascii) :
  (List.length (snd (span_digits s)) <= List.length s)%nat.
Proof.
  induction s as [|c s IH]; simpl; [lia|].
  destruct (is_digit c); [|simpl; lia].
  destruct (span_digits s) as [d t]. simpl in *. lia.
Qed.

Lemma span_digits_nonempty (s d t : list ascii) :
  span_digits s = (d, t) -> d <> [] -> (List.length t < List.length s)%nat.
Proof.
  destruct s as [|c s]; simpl.
  - intros H. injection H as <- <-. congruence.
  - destruct (is_digit c).
    + pose proof (span_digits_length s) as Hl.
      destruct (span_digits s) as [d' t']. intros H _. injection H as <- <-.
      simpl in *. lia.
    + intros H. injection H as <- <-. congruence.
Qed.

Lemma take_minus_length (s : list ascii) :
  (List.length (snd (take_minus s)) <= List.length s)%nat.
Proof.
  destruct s as [|c r]; simpl; [lia|]. destruct (Ascii.eqb c "-"); simpl; lia.
Qed.

Lemma take_sign_length (s : list ascii) :
  (List.length (snd (take_sign s)) <= List.length s)%nat.
Proof.
  destruct s as [|c r]; simpl; [lia|].
  destruct (Ascii.eqb c "-"); [simpl; lia|].
  destruct (Ascii.eqb c "+"); simpl; lia.
Qed.

Lemma match_exp_length (s : list ascii) (e : Z) (t : list ascii) :
  match_exp s = Some (e, t) -> (List.length t < List.length s)%nat.
Proof.
  unfold match_exp. destruct s as [|c r]; [discriminate|].
  destruct (Ascii.eqb c "e" || Ascii.eqb c "E")%bool; [|discriminate].
  pose proof (take_sign_length r) as Hs.
  destruct (take_sign r) as [neg r1]. simpl in Hs.
  pose proof (span_digits_length r1) as Hd.
  destruct (span_digits r1) as [[|x d] t0]; [discriminate|].
  intros H. injection H as _ <-. simpl in *. lia.
Qed.

Lemma match_int_length (s i t : list ascii) :
  match_int s = Some (i, t) -> (List.length t < List.length s)%nat.
Proof.
  unfold match_int. destruct s as [|c r]; [discriminate|].
  destruct (Ascii.eqb c "0").
  - intros H. injection H as _ <-. simpl. lia.
  - destruct (is_digit c) eqn:Ed; [|discriminate].
    intros H. assert (H' : span_digits (c :: r) = (i, t)) by congruence.
    apply (span_digits_nonempty _ _ _ H').
    simpl in H'. rewrite Ed in H'. destruct (span_digits r).
    injection H' as <- _. discriminate.
Qed.

Lemma match_frac_length (s : list ascii) :
  (List.length (snd (match_frac s)) <= List.length s)%nat.
Proof.
  unfold match_frac. destruct s as [|c r]; [simpl; lia|].
  destruct (Ascii.eqb c "."); [|simpl; lia].
  pose proof (span_digits_length r) as Hd.
  destruct (span_digits r) as [[|x f] t0]; simpl in *; lia.
Qed.

Lemma match_number_length (s : list ascii) (v : pyval) (t : list ascii) :
  match_number s = Some (v, t) -> (List.length t < List.length s)%nat.
Proof.
  unfold match_number.
  pose proof (take_minus_length s) as H1.
  destruct (take_minus s) as [neg s1]. simpl in H1.
  pose proof (match_int_length s1) as H2.
  destruct (match_int s1) as [[i s2]|]; [|discriminate].
  specialize (H2 i s2 eq_refl).
  pose proof (match_frac_length s2) as H3.
  destruct (match_frac s2) as [frac s3]. simpl in H3.
  pose proof (match_exp_length s3) as H4.
  destruct frac as [f|], (match_exp s3) as [[e s4]|]; intros H; injection H as _ <-;
    try specialize (H4 e _ eq_refl); lia.
Qed.

Lemma strip_prefix_length (p s r : list ascii) :
  strip_prefix p s = Some r -> (List.length r + List.length p = List.length s)%nat.
Proof.
  revert s. induction p as [|a p IH]; intros s; simpl.
  - intros H. injection H as <-. lia.
  - destruct s as [|b s]; [discriminate|].
    destruct (Ascii.eqb a b); [|discriminate].
    intros H. apply IH in H. simpl. lia.
Qed.

Lemma scan_atom_shorter (s : list ascii) : shorter (List.length s) (scan_atom s).
Proof.
  unfold scan_atom.
  repeat match goal with
  | |- shorter _ (match strip_prefix ?p s with _ => _ end) =>
      let H := fresh in
      destruct (strip_prefix p s) eqn:H;
      [apply strip_prefix_length in H; simpl in *; lia|]
  | |- shorter _ (match match_number s with _ => _ end) =>
      let H := fresh in
      destruct (match_number s) as [[? ?]|] eqn:H;
      [apply match_number_length in H; simpl in *; lia|]
  end.
  exact I.
Qed.

(** With fuel above twice the length of the text, the scanner does not run
    out of it, and a value it finds leaves a shorter text. *)
Lemma scanner_shorter (f : nat) :
  (forall s, (2 * List.length s + 1 <= f)%nat ->
             shorter (List.length s) (scan_once f s))
  /\ (forall s pairs, (2 * List.length s + 2 <= f)%nat ->
                      shorter (List.length s) (object_loop f s pairs))
  /\ (forall s values, (2 * List.length s + 2 <= f)%nat ->
                       shorter (List.length s) (array_loop f s values)).
Proof.
  induction f as [|f (IHs & IHo & IHa)].
  - repeat split; intros; lia.
  - split; [|split].
    + intros s Hf. cbn [scan_once].
      destruct s as [|c r]; [exact I|].
      destruct (Ascii.eqb c "034").
      { pose proof (scanstring_shorter _ r [] (le_n _)) as Hs.
        destruct (scanstring r []); simpl in *; try assumption; lia. }
      destruct (Ascii.eqb c "{").
      { pose proof (skip_ws_length r) as Hw.
        destruct (skip_ws r) as [|c1 r1]; [exact I|]. simpl in Hw, Hf.
        destruct (Ascii.eqb c1 "}"); [simpl; lia|].
        destruct (Ascii.eqb c1 "034"); [|exact I].
        eapply shorter_le; [apply IHo; simpl; lia | simpl; lia]. }
      destruct (Ascii.eqb c "[").
      { pose proof (skip_ws_length r) as Hw.
        destruct (skip_ws r) as [|c1 r1]; [exact I|]. simpl in Hw, Hf.
        destruct (Ascii.eqb c1 "]"); [simpl; lia|].
        eapply shorter_le; [apply IHa; simpl; lia | simpl; lia]. }
      apply scan_atom_shorter.
    + intros s pairs Hf. cbn [object_loop].
      pose proof (scanstring_shorter _ s [] (le_n _)) as Hk.
      destruct (scanstring s []) as [k r| |]; simpl in Hk; [|exact I|contradiction].
      pose proof (skip_ws_length r) as Hw.
      destruct (skip_ws r) as [|c r1]; [exact I|]. simpl in Hw.
      destruct (Ascii.eqb c ":"); [|exact I].
      pose proof (skip_ws_length r1) as Hw1.
      pose proof (IHs (skip_ws r1) ltac:(lia)) as Hv.
      destruct (scan_once f (skip_ws r1)) as [v r2| |]; simpl in Hv;
        [|exact I|contradiction].
      pose proof (skip_ws_length r2) as Hw2.
      destruct (skip_ws r2) as [|c2 r3]; [exact I|]. simpl in Hw2.
      destruct (Ascii.eqb c2 "}"); [simpl; lia|].
      destruct (Ascii.eqb c2 ","); [|exact I].
      pose proof (skip_ws_length r3) as Hw3.
      destruct (skip_ws r3) as [|c3 r4]; [exact I|]. simpl in Hw3.
      destruct (Ascii.eqb c3 "034"); [|exact I].
      eapply shorter_le; [apply IHo; lia | lia].
    + intros s values Hf. cbn [array_loop].
      pose proof (IHs s ltac:(lia)) as Hv.
      destruct (scan_once f s) as [v r| |]; simpl in Hv; [|exact I|contradiction].
      pose proof (skip_ws_length r) as Hw.
      destruct (skip_ws r) as [|c r1]; [exact I|]. simpl in Hw.
      destruct (Ascii.eqb c "]"); [simpl; lia|].
      destruct (Ascii.eqb c ","); [|exact I].
      pose proof (skip_ws_length r1) as Hw1.
      eapply shorter_le; [apply IHa; lia | lia].
Qed.

(** [json_loads] never ends on the fuel of its scanner. *)
Lemma scan_fuel_enough (s : list ascii) : scan_once (scan_fuel s) s <> SFuel.
Proof.
  pose proof (proj1 (scanner_shorter (scan_fuel s)) s) as H.
  unfold scan_fuel in *. specialize (H ltac:(lia)).
  intros E. rewrite E in H. exact H.
Qed.

(** What [json_loads] raises is a decoding error. *)
Lemma json_loads_raises_decode_error (s : string) (e : exn) :
  json_loads s = Raise e -> exn_cls e = JSONDecodeError.
Proof.
  unfold json_loads.
  destruct (strip_prefix _ (chars s)).
  - intros H. injection H as <-. reflexivity.
  - pose proof (scan_fuel_enough (skip_ws (chars s))) as Hf.
    destruct (scan_once _ _) as [v rest| |].
    + destruct (skip_ws rest); [discriminate|].
      intros H. injection H as <-. reflexivity.
    + intros H. injection H as <-. reflexivity.
    + contradiction.
Qed.

(** ** The keys of a decoded object *)

Lemma dict_put_keys (d : dict) (k k' v : pyval) :
  In k (map fst (dict_put d k' v)) -> In k (map fst d) \/ k = k'.
Proof.
  induction d as [|[k0 v0] d IH]; simpl.
  - intros [<- | []]. now right.
  - destruct (key_eqb k0 k'); simpl.
    + intros H. now left.
    + intros [<- | H]; [left; now left|].
      destruct (IH H) as [H' | H']; [left; now right | now right].
Qed.

Lemma dict_put_nodup (d : dict) (s : string) (v : pyval) :
  NoDup (map fst d) -> NoDup (map fst (dict_put d (PStr s) v)).
Proof.
  induction d as [|[k0 v0] d IH]; simpl; intros Hnd.
  - constructor; [intros [] | constructor].
  - inversion Hnd as [|? ? Hnotin Hnd']; subst.
    destruct (key_eqb k0 (PStr s)) eqn:E; simpl.
    + now constructor.
    + constructor; [|now apply IH].
      intros Hin. apply dict_put_keys in Hin as [Hin | ->]; [contradiction|].
      now rewrite key_eqb_str_refl in E.
Qed.

Lemma object_loop_nodup (f : nat) :
  forall s pairs v r,
    NoDup (map fst pairs) -> object_loop f s pairs = SOk v r ->
    exists d, v = PDict d /\ NoDup (map fst d).
Proof.
  induction f as [|f IH]; intros s pairs v r Hnd; [discriminate|].
  cbn [object_loop].
  destruct (scanstring s []) as [k r0| |]; try discriminate.
  destruct (skip_ws r0) as [|c r1]; [discriminate|].
  destruct (Ascii.eqb c ":"); [|discriminate].
  destruct (scan_once f (skip_ws r1)) as [value r2| |]; try discriminate.
  cbv zeta.
  pose proof (dict_put_nodup pairs k value Hnd) as Hnd'.
  destruct (skip_ws r2) as [|c2 r3]; [discriminate|].
  destruct (Ascii.eqb c2 "}").
  { intros H. injection H as <- _. eauto. }
  destruct (Ascii.eqb c2 ","); [|discriminate].
  destruct (skip_ws r3) as [|c3 r4]; [discriminate|].
  destruct (Ascii.eqb c3 "034"); [|discriminate].
  now apply IH.
Qed.

Lemma array_loop_list (f : nat) :
  forall s values v r, array_loop f s values = SOk v r -> exists l, v = PList l.
Proof.
  induction f as [|f IH]; intros s values v r; [discriminate|].
  cbn [array_loop].
  destruct (scan_once f s) as [value r0| |]; try discriminate.
  cbv zeta.
  destruct (skip_ws r0) as [|c r1]; [discriminate|].
  destruct (Ascii.eqb c "]").
  { intros H. injection H as <- _. eauto. }
  destruct (Ascii.eqb c ","); [|discriminate].
  apply IH.
Qed.

Lemma match_number_not_dict (s : list ascii) (d : dict) (r : list ascii) :
  match_number s <> Some (PDict d, r).
Proof.
  unfold match_number.
  destruct (take_minus s) as [neg s1].
  destruct (match_int s1) as [[i s2]|]; [|discriminate].
  destruct (match_frac s2) as [frac s3].
  destruct frac, (match_exp s3) as [[e s4]|]; discriminate.
Qed.

Lemma scan_atom_not_dict (s : list ascii) (d : dict) (r : list ascii) :
  scan_atom s <> SOk (PDict d) r.
Proof.
  unfold scan_atom.
  repeat match goal with
  | |- context [match strip_prefix ?p s with _ => _ end] =>
      destruct (strip_prefix p s); [discriminate|]
  | |- context [match match_number s with _ => _ end] =>
      let H := fresh in
      destruct (match_number s) as [[? ?]|] eqn:H;
      [intros E; injection E as -> ->; now apply match_number_not_dict in H|]
  end.
  discriminate.
Qed.

Lemma scan_once_nodup (f : nat) (s : list ascii) (d : dict) (r : list ascii) :
  scan_once f s = SOk (PDict d) r -> NoDup (map fst d).
Proof.
  destruct f as [|f]; [discriminate|]. cbn [scan_once].
  destruct s as [|c r0]; [discriminate|].
  destruct (Ascii.eqb c "034").
  { destruct (scanstring r0 []); discriminate. }
  destruct (Ascii.eqb c "{").
  { destruct (skip_ws r0) as [|c1 r1]; [discriminate|].
    destruct (Ascii.eqb c1 "}").
    { intros H. injection H as <- _. constructor. }
    destruct (Ascii.eqb c1 "034"); [|discriminate].
    intros H. apply object_loop_nodup in H as (d' & E & Hnd); [|constructor].
    injection E as ->. exact Hnd. }
  destruct (Ascii.eqb c "[").
  { destruct (skip_ws r0) as [|c1 r1]; [discriminate|].
    destruct (Ascii.eqb c1 "]"); [discriminate|].
    intros H. apply array_loop_list in H as (l & E). discriminate E. }
  intros H. now apply scan_atom_not_dict in H.
Qed.

Lemma json_loads_nodup (s : string) (d : dict) :
  json_loads s = Ok (PDict d) -> NoDup (map fst d).
Proof.
  unfold json_loads.
  destruct (strip_prefix _ (chars s)); [discriminate|].
  destruct (scan_once _ _) as [v rest| |] eqn:E; try discriminate.
  destruct (skip_ws rest); [|discriminate].
  intros H. injection H as ->. now apply scan_once_nodup in E.
Qed.

(** The mapping recovered from a text has no key twice. *)
Lemma recovered_nodup (val : pyval) (d : dict) :
  (forall d', val <> PDict d') ->
  _parse_possible_json val = Ok (PDict d) -> NoDup (map fst d).
Proof.
  intros Hval. unfold _parse_possible_json.
  assert (He : @Ok pyval empty_dict = Ok (PDict d) -> NoDup (map fst d)).
  { intros H. injection H as <-. constructor. }
  destruct (negb (py_truthy val)); [exact He|].
  destruct val; try exact He.
  - destruct (json_loads s) eqn:E1; [intros H; injection H as ->; now apply json_loads_nodup in E1|].
    destruct (re_search_braces s) as [m|]; [|exact He].
    destruct (json_loads m) eqn:E2; [|exact He].
    intros H; injection H as ->. now apply json_loads_nodup in E2.
  - now destruct (Hval d0).
Qed.

(** ** The final decision *)

Lemma final_decision_executed (resolution : dict) (c : float) :
  py_float (confidence_of resolution) = Ok c ->
  is_True (executed_of resolution) = true ->
  final_decision resolution
  = Ok ("resolved",
        dict_put resolution (key "confidence") (PFloat (py_max c 0.95))).
Proof.
  unfold final_decision, confidence_of, executed_of. intros Hc He.
  rewrite Hc. simpl. now rewrite He.
Qed.

Lemma final_decision_not_executed (resolution : dict) :
  is_True (executed_of resolution) = false ->
  final_decision resolution
  = (c <- py_float (confidence_of resolution) ;;
     Ok (threshold_status c, resolution))%res.
Proof.
  unfold final_decision, confidence_of, executed_of, threshold_status. intros He.
  destruct (py_float _) as [c|e]; simpl; [|reflexivity].
  rewrite He. destruct (c <? 0.8)%float; reflexivity.
Qed.

(** The endpoint on a run whose reasoning call, merge, decision and audit
    write all succeed: one audit item, and the decided status and resolution
    in the response. *)
Lemma process_alert_decided (E : env) (alert : Alert) (w w1 : world)
    (result : crew_output) (merged resolution : dict) (status : string) :
  retry_default (call (kickoff E alert)) w = (Ok result, w1) ->
  merge_resolution (fst (extract_outputs result)) (snd (extract_outputs result))
  = Ok merged ->
  final_decision merged = Ok (status, resolution) ->
  table_put E (audit_item (incident_of E alert) (now_isoformat E)
                          resolution result status) = Ok tt ->
  process_alert E alert w
  = (Ok (response status (incident_of E alert) resolution),
     mkWorld (calls w1) (slept w1)
             (audit_items w1
              ++ [audit_item (incident_of E alert) (now_isoformat E)
                             resolution result status])).
Proof.
  intros Hr Hm Hd Hp. unfold process_alert. rewrite Hr.
  destruct (extract_outputs result) as [pa pe]. simpl in Hm.
  rewrite Hm, Hd. unfold put_item. now rewrite Hp.
Qed.

(** C2, as amended: for every merged resolution whose confidence converts to
    a float, the decision after the merge is: when [executed] is the boolean
    true, status resolved and the confidence field set to
    [max(confidence, 0.95)], which is at least 0.95 for every confidence
    that is a number; otherwise status pending_human when the confidence is
    below 0.8 and resolved when it is not, the resolution left as it is. *)
Theorem final_status_rule :
  forall (resolution : dict) (c : float),
    py_float (confidence_of resolution) = Ok c ->
    (is_True (executed_of resolution) = true ->
     exists resolution',
       final_decision resolution = Ok ("resolved", resolution')
       /\ resolution'
          = dict_put resolution (key "confidence") (PFloat (py_max c 0.95))
       /\ dict_get resolution' (key "confidence") = Some (PFloat (py_max c 0.95))
       /\ (number c -> (0.95 <=? py_max c 0.95)%float = true))
    /\ (is_True (executed_of resolution) = false ->
        (c <? 0.8)%float = true ->
        final_decision resolution = Ok ("pending_human", resolution))
    /\ (is_True (executed_of resolution) = false ->
        (c <? 0.8)%float = false ->
        final_decision resolution = Ok ("resolved", resolution)).
Proof.
  intros resolution c Hc. repeat split.
  - intros He.
    exists (dict_put resolution (key "confidence") (PFloat (py_max c 0.95))).
    split; [exact (final_decision_executed resolution c Hc He)|].
    split; [reflexivity|]. split; [apply dict_get_put_same|].
    intros Hn. apply py_max_ge; [assumption | reflexivity].
  - intros He Hlt. rewrite final_decision_not_executed by assumption.
    rewrite Hc. simpl. unfold threshold_status. now rewrite Hlt.
  - intros He Hlt. rewrite final_decision_not_executed by assumption.
    rewrite Hc. simpl. unfold threshold_status. now rewrite Hlt.
Qed.

Lemma final_status_rule_witness :
  py_float (confidence_of resolution_executed_low) = Ok 0.3%float
  /\ is_True (executed_of resolution_executed_low) = true
  /\ number 0.3
  /\ exists resolution',
       final_decision resolution_executed_low = Ok ("resolved", resolution')
       /\ resolution'
          = dict_put resolution_executed_low (key "confidence")
                     (PFloat (py_max 0.3 0.95))
       /\ dict_get resolution' (key "confidence") = Some (PFloat (py_max 0.3 0.95))
       /\ (number 0.3 -> (0.95 <=? py_max 0.3 0.95)%float = true).
Proof.
  split; [reflexivity|]. split; [reflexivity|]. split; [reflexivity|].
  exact (proj1 (final_status_rule resolution_executed_low 0.3%float eq_refl)
           eq_refl).
Defined.

(** C2 as stated fails on merged resolutions the endpoint can meet.  With
    the Execute-decision text [{"executed": true, "confidence": "high"}] the
    merged resolution has [executed] true and no status is computed: the
    conversion of the confidence raises.  With
    [{"executed": true, "confidence": NaN}] the status is resolved and the
    confidence field stays NaN, which is not at least 0.95. *)
Lemma final_status_rule_counterexample :
  (exists merged,
      merged_of_texts "{}" (quoted "{'executed': true, 'confidence': 'high'}")
      = Ok merged
      /\ executed_of merged = Some (PBool true)
      /\ final_decision merged
         = Raise (mkExn ValueError "could not convert string to float"))
  /\ (exists merged resolution' f,
         merged_of_texts "{}" (quoted "{'executed': true, 'confidence': NaN}")
         = Ok merged
         /\ executed_of merged = Some (PBool true)
         /\ final_decision merged = Ok ("resolved", resolution')
         /\ dict_get resolution' (key "confidence") = Some (PFloat f)
         /\ (0.95 <=? f)%float = false)
  /\ ~ (forall analysis execution merged,
           merged_of_texts analysis execution = Ok merged ->
           executed_of merged = Some (PBool true) ->
           exists resolution' f,
             final_decision merged = Ok ("resolved", resolution')
             /\ dict_get resolution' (key "confidence") = Some (PFloat f)
             /\ (0.95 <=? f)%float = true).
Proof.
  split; [|split].
  - eexists. split; [vm_compute; reflexivity|]. split; reflexivity.
  - do 3 eexists. split; [vm_compute; reflexivity|].
    split; [reflexivity|]. split; [vm_compute; reflexivity|].
    split; reflexivity.
  - intros H.
    destruct (H "{}" (quoted "{'executed': true, 'confidence': 'high'}") _
                ltac:(vm_compute; reflexivity) eq_refl)
      as (r & f & Hd & _).
    discriminate Hd.
Qed.

(** C10: the executed branch is taken for the boolean true only.  When the
    [executed] field of the merged resolution is anything else, the text
    "true" and the integer 1 included, the decision is that of the threshold
    rule alone and the resolution, its confidence with it, is left as it
    is. *)
Theorem executed_branch_only_on_true :
  forall (resolution : dict) (v : pyval),
    executed_of resolution = Some v ->
    v <> PBool true ->
    final_decision resolution
    = (c <- py_float (confidence_of resolution) ;;
       Ok (threshold_status c, resolution))%res
    /\ (forall c, py_float (confidence_of resolution) = Ok c ->
                  final_decision resolution
                  = Ok ((if (c <? 0.8)%float then "pending_human" else "resolved"),
                        resolution)).
Proof.
  intros resolution v Hv Hne.
  assert (He : is_True (executed_of resolution) = false).
  { rewrite Hv. destruct v as [|[|]| | | | | |]; try reflexivity. congruence. }
  split.
  - now apply final_decision_not_executed.
  - intros c Hc. rewrite final_decision_not_executed by assumption.
    now rewrite Hc.
Qed.

Lemma executed_branch_only_on_true_witness :
  (executed_of resolution_executed_text = Some (PStr "true")
   /\ PStr "true" <> PBool true
   /\ final_decision resolution_executed_text
      = Ok ("resolved", resolution_executed_text))
  /\ (executed_of resolution_executed_one = Some (PInt 1)
      /\ PInt 1 <> PBool true
      /\ final_decision resolution_executed_one
         = Ok ("pending_human", resolution_executed_one)).
Proof.
  split.
  - split; [reflexivity|]. split; [discriminate|].
    exact (proj2 (executed_branch_only_on_true resolution_executed_text
                    (PStr "true") eq_refl ltac:(discriminate))
             0.9%float eq_refl).
  - split; [reflexivity|]. split; [discriminate|].
    exact (proj2 (executed_branch_only_on_true resolution_executed_one
                    (PInt 1) eq_refl ltac:(discriminate))
             0.5%float eq_refl).
Defined.

(** ** The merge *)

Lemma dict_get_absent (d : dict) (s : string) :
  ~ In (PStr s) (map fst d) -> dict_get d (PStr s) = None.
Proof.
  induction d as [|[k v] d IH]; intros H; [reflexivity|].
  simpl. destruct (key_eqb k (PStr s)) eqn:E.
  - apply key_eqb_str in E. subst k. exfalso. apply H. now left.
  - apply IH. intros Hin. apply H. now right.
Qed.

(** Reading a text key of an overlay: the overlaid mapping first, the
    mapping under it otherwise. *)
Lemma overlay_get (o d : dict) (s : string) :
  NoDup (map fst o) ->
  dict_get (overlay d o) (PStr s)
  = match dict_get o (PStr s) with
    | Some v => Some v
    | None => dict_get d (PStr s)
    end.
Proof.
  revert d. induction o as [|[k v] o IH]; intros d Hnd; [reflexivity|].
  simpl in Hnd. inversion Hnd as [|x l Hnotin Hnd']; subst.
  unfold overlay in *. simpl. rewrite (IH _ Hnd'), dict_get_put.
  destruct (key_eqb k (PStr s)) eqn:E; [|reflexivity].
  apply key_eqb_str in E. subst k.
  now rewrite (dict_get_absent o s Hnotin).
Qed.

Lemma update_if_truthy_dict (d o : dict) :
  update_if_truthy d (PDict o) = Ok (overlay d o).
Proof.
  destruct o; reflexivity.
Qed.

Lemma str_join_strings (sep : string) (ids : list string) :
  str_join sep (map PStr ids) = Ok (String.concat sep ids).
Proof.
  induction ids as [|s ids IH]; [reflexivity|].
  destruct ids as [|t ids]; [reflexivity|].
  change (str_join sep (map PStr (s :: t :: ids)))
    with (match str_join sep (map PStr (t :: ids)) with
          | Ok u => Ok (s ++ sep ++ u)%string
          | Raise e => Raise e
          end).
  now rewrite IH.
Qed.

(** The merge of two recovered mappings: how a field reads, and what becomes
    of [command_id]. *)
Lemma merge_of_mappings (a e : dict) :
  NoDup (map fst a) -> NoDup (map fst e) ->
  let merged := overlay (overlay default_resolution a) e in
  (forall field,
      dict_get merged (key field)
      = match dict_get e (key field) with
        | Some v => Some v
        | None =>
            match dict_get a (key field) with
            | Some v => Some v
            | None => dict_get default_resolution (key field)
            end
        end)
  /\ (forall ids,
         dict_get merged (key "command_id") = Some (PList (map PStr ids)) ->
         merge_resolution (PDict a) (PDict e)
         = Ok (dict_put merged (key "command_id") (PStr (String.concat "," ids))))
  /\ ((forall l, dict_get merged (key "command_id") <> Some (PList l)) ->
      merge_resolution (PDict a) (PDict e) = Ok merged).
Proof.
  intros Ha He merged.
  split.
  { intros field. unfold merged, key. now rewrite !overlay_get. }
  assert (Hm : merge_resolution (PDict a) (PDict e) = flatten_command_id merged).
  { unfold merge_resolution. rewrite update_if_truthy_dict. cbn [rbind].
    rewrite update_if_truthy_dict. reflexivity. }
  split.
  - intros ids Hids. rewrite Hm. unfold flatten_command_id.
    now rewrite Hids, str_join_strings.
  - intros Hno. rewrite Hm. unfold flatten_command_id.
    destruct (dict_get merged (key "command_id")) as [[]|] eqn:E;
      try reflexivity.
    exfalso. now apply (Hno l).
Qed.






(** ** The endpoint *)

(** C1 (what the code does): when the three attempts of the reasoning call
    fail with a rate limit or a service error, [process_alert] raises
    nothing and returns status pending_human with the resolution of issue
    "LLM unavailable", confidence 0.0 and executed false; the audit table
    is left as it was: no audit write is made on this path, where the claim
    has exactly one. *)
Theorem llm_unavailable_returned_without_audit :
  forall (E : env) (alert : Alert) (w : world) (e1 e2 e3 : exn),
    kickoff E alert (calls w) = Raise e1 ->
    kickoff E alert (S (calls w)) = Raise e2 ->
    kickoff E alert (S (S (calls w))) = Raise e3 ->
    transient e1 -> transient e2 -> transient e3 ->
    exists w',
      process_alert E alert w = (Ok (llm_unavailable (incident_of E alert)), w')
      /\ py_getitem (llm_unavailable (incident_of E alert)) "status"
         = Ok (PStr "pending_human")
      /\ (resolution <- py_getitem (llm_unavailable (incident_of E alert)) "resolution" ;;
          issue <- py_getitem resolution "issue" ;;
          confidence <- py_getitem resolution "confidence" ;;
          executed <- py_getitem resolution "executed" ;;
          Ok (issue, confidence, executed))%res
         = Ok (PStr "LLM unavailable", PFloat 0, PBool false)
      /\ calls w' = (calls w + 3)%nat
      /\ audit_items w' = audit_items w.
Proof.
  intros E alert w e1 e2 e3 H1 H2 H3 T1 T2 T3.
  eexists. split.
  - unfold process_alert.
    rewrite (retry_default_exhausted (kickoff E alert) w e1 e2 e3 H1 H2 H3 T1 T2 T3).
    assert (isinstance e3 [RateLimitError; APIError] = true) as ->
        by (apply (transient_allowed e3 T3)).
    reflexivity.
  - repeat split; reflexivity.
Qed.

Lemma llm_unavailable_returned_without_audit_witness :
  transient rate_limited
  /\ exists w',
       process_alert env_rate_limited alert0 world0
       = (Ok (llm_unavailable "generated-uuid"), w')
       /\ py_getitem (llm_unavailable "generated-uuid") "status"
          = Ok (PStr "pending_human")
       /\ (resolution <- py_getitem (llm_unavailable "generated-uuid") "resolution" ;;
           issue <- py_getitem resolution "issue" ;;
           confidence <- py_getitem resolution "confidence" ;;
           executed <- py_getitem resolution "executed" ;;
           Ok (issue, confidence, executed))%res
          = Ok (PStr "LLM unavailable", PFloat 0, PBool false)
       /\ calls w' = 3%nat
       /\ audit_items w' = [].
Proof.
  split; [left; reflexivity|].
  exact (llm_unavailable_returned_without_audit env_rate_limited alert0 world0
           rate_limited rate_limited rate_limited eq_refl eq_refl eq_refl
           (or_introl eq_refl) (or_introl eq_refl) (or_introl eq_refl)).
Defined.

(** The same run on the path that succeeds writes its audit item: the path
    of the exhausted retries is the one that misses it. *)
Lemma audit_written_on_success :
  audit_items (snd (process_alert (env_of "{}" "{}") alert0 world0))
  = [audit_item "generated-uuid" "2024-01-01T00:00:00" default_resolution
                (crew_of "{}" "{}") "pending_human"].
Proof. vm_compute; reflexivity. Qed.

(** The run of the repository's test of a low confidence: [kickoff] is
    patched to return a text, which has no [tasks_output]; the resolution is
    the default one, the status pending_human, and one audit item is
    written. *)
Example test_process_alert_low_confidence :
  let E := mkEnv (fun _ _ => Ok (mkCrew [] (quoted "{'confidence': 0.7}")))
                 "generated-uuid" "2024-01-01T00:00:00" (fun _ => Ok tt) in
  exists item,
    process_alert E alert0 world0
    = (Ok (response "pending_human" "generated-uuid" default_resolution),
       mkWorld 1 [] [item]).
Proof. eexists. vm_compute. reflexivity. Qed.

(** C3 (what the code does): for a valid alert and collaborators that work,
    [process_alert] raises to its caller on raw texts of the stages.  With
    the Analyze text [{"confidence": "high"}] the conversion of the
    confidence raises a ValueError; with the Execute-decision text
    [{"executed": true, "command_id": ["cmd-1", 7]}] the join raises a
    TypeError.  Neither is a validation or an authentication error, and no
    audit item is written. *)
Theorem process_alert_raises_on_stage_text :
  process_alert (env_of (quoted "{'confidence': 'high'}") "{}") alert0 world0
  = (Raise (mkExn ValueError "could not convert string to float"),
     mkWorld 1 [] [])
  /\ process_alert
       (env_of "{}" (quoted "{'executed': true, 'command_id': ['cmd-1', 7]}"))
       alert0 world0
     = (Raise (mkExn TypeError "sequence item: expected str instance"),
        mkWorld 1 [] []).
Proof.
  split; vm_compute; reflexivity.
Qed.

Lemma unit_confidence_float (v : pyval) :
  unit_confidence v ->
  exists c, py_float v = Ok c
            /\ (0 <=? c)%float = true /\ (c <=? 1)%float = true.
Proof.
  destruct v; simpl; try contradiction.
  - intros H. assert (z = 0 \/ z = 1) as [-> | ->] by lia;
      eexists; split; try reflexivity; split; reflexivity.
  - intros [H0 H1]. exists f. now repeat split.
Qed.

Lemma py_max_unit (c : float) :
  (0 <=? c)%float = true -> (c <=? 1)%float = true ->
  (0 <=? py_max c 0.95)%float = true /\ (py_max c 0.95 <=? 1)%float = true.
Proof.
  intros H0 H1. unfold py_max. destruct (c <? 0.95)%float; split;
    try assumption; reflexivity.
Qed.

(** Confidence and executed of a merge of well typed mappings, which
    succeeds. *)
Lemma merge_well_typed (a e : dict) :
  well_typed_fields a -> well_typed_fields e ->
  exists merged,
    merge_resolution (PDict a) (PDict e) = Ok merged
    /\ (exists v, dict_get merged (key "confidence") = Some v /\ unit_confidence v)
    /\ (exists b, dict_get merged (key "executed") = Some (PBool b)).
Proof.
  intros (Na & Ca & Xa & La) (Ne & Ce & Xe & Le).
  pose proof (merge_of_mappings a e Na Ne) as (Hget & Hlist & Hnolist).
  set (merged := overlay (overlay default_resolution a) e) in *.
  assert (Hc : exists v, dict_get merged (key "confidence") = Some v
                         /\ unit_confidence v).
  { rewrite Hget.
    destruct (dict_get e (key "confidence")) as [v|] eqn:E1; [eauto|].
    destruct (dict_get a (key "confidence")) as [v|] eqn:E2; [eauto|].
    eexists. split; [reflexivity|]. split; reflexivity. }
  assert (Hx : exists b, dict_get merged (key "executed") = Some (PBool b)).
  { rewrite Hget.
    destruct (dict_get e (key "executed")) as [v|] eqn:E1.
    { destruct (Xe v eq_refl) as [b ->]. eauto. }
    destruct (dict_get a (key "executed")) as [v|] eqn:E2.
    { destruct (Xa v eq_refl) as [b ->]. eauto. }
    eexists. reflexivity. }
  destruct (dict_get merged (key "command_id")) as [v|] eqn:Ecmd.
  - assert (Hv : (exists ids, v = PList (map PStr ids))
                 \/ (forall l, v <> PList l)).
    { destruct v; try (right; intros l0; discriminate).
      left. rewrite Hget in Ecmd.
      destruct (dict_get e (key "command_id")) as [v'|] eqn:E1.
      - injection Ecmd as ->. destruct (Le l eq_refl) as [ids ->]. eauto.
      - destruct (dict_get a (key "command_id")) as [v'|] eqn:E2.
        + injection Ecmd as ->. destruct (La l eq_refl) as [ids ->]. eauto.
        + discriminate Ecmd. }
    destruct Hv as [[ids ->] | Hv].
    + eexists. split; [exact (Hlist ids eq_refl)|].
      rewrite !dict_get_put_other by discriminate. now split.
    + exists merged. split; [|now split].
      apply Hnolist. intros l Hl. injection Hl as Hl. now apply (Hv l).
  - exists merged. split; [|now split].
    apply Hnolist. intros l Hl. discriminate Hl.
Qed.

(** C9, as amended: for every alert, [process_alert] returns a resolution
    whose confidence is a number from 0 to 1 and whose executed field is a
    boolean on both of these runs: when the reasoning call returns, the
    audit table accepts the item, and the mappings recovered from the
    Analyze and Execute-decision stages carry a confidence, if any, that is
    a number from 0 to 1, an executed field, if any, that is a boolean, and
    a command_id that is not a list with an element other than a string; and
    when the retries are exhausted on a rate limit or a service error. *)
Theorem resolution_fields_in_range :
  forall (E : env) (alert : Alert) (w : world),
    (forall (w1 : world) (result : crew_output) (analyzer executor : dict),
        retry_default (call (kickoff E alert)) w = (Ok result, w1) ->
        extract_outputs result = (PDict analyzer, PDict executor) ->
        well_typed_fields analyzer ->
        well_typed_fields executor ->
        (forall item, table_put E item = Ok tt) ->
        returns_in_range E alert w)
    /\ (forall (w1 : world) (e : exn),
           retry_default (call (kickoff E alert)) w = (Raise e, w1) ->
           isinstance e [RateLimitError; APIError] = true ->
           returns_in_range E alert w).
Proof.
  intros E alert w. split.
  - intros w1 result a e Hr Hx Ha He Hput.
    destruct (merge_well_typed a e Ha He)
      as (merged & Hm & (v & Hv & Hu) & (b & Hb)).
    destruct (unit_confidence_float v Hu) as (c & Hc & H0 & H1).
    assert (Hconf : py_float (confidence_of merged) = Ok c).
    { unfold confidence_of. now rewrite Hv. }
    assert (Hd : exists status resolution,
               final_decision merged = Ok (status, resolution)
               /\ (exists v, dict_get resolution (key "confidence") = Some v
                             /\ unit_confidence v)
               /\ (exists b, dict_get resolution (key "executed") = Some (PBool b))).
    { destruct b.
      - do 2 eexists. split.
        + apply (final_decision_executed merged c Hconf).
          unfold executed_of. now rewrite Hb.
        + split.
          * eexists. split; [apply dict_get_put_same|]. now apply py_max_unit.
          * exists true. now rewrite dict_get_put_other by discriminate.
      - do 2 eexists. split.
        + rewrite final_decision_not_executed
            by (unfold executed_of; now rewrite Hb).
          rewrite Hconf. reflexivity.
        + split; eauto. }
    destruct Hd as (status & resolution & Hd & (v' & Hv' & Hu') & (b' & Hb')).
    unfold returns_in_range.
    exists (response status (incident_of E alert) resolution).
    eexists. exists resolution, v', b'.
    split; [|now repeat split].
    apply (process_alert_decided E alert w w1 result merged resolution status Hr).
    + now rewrite Hx.
    + exact Hd.
    + apply Hput.
  - intros w1 e Hr Ht. unfold returns_in_range.
    exists (llm_unavailable (incident_of E alert)), w1.
    eexists. exists (PFloat 0), false.
    split; [unfold process_alert; now rewrite Hr, Ht|].
    split; [reflexivity|]. split; [reflexivity|].
    split; [split; reflexivity | reflexivity].
Qed.

Lemma well_typed_empty : well_typed_fields [].
Proof.
  split; [constructor|]. repeat split; intros ? H; discriminate H.
Defined.

Lemma well_typed_analysis : well_typed_fields [(key "confidence", PFloat 0.9)].
Proof.
  split; [repeat constructor; intros []|]. repeat split.
  - intros v H. injection H as <-. split; reflexivity.
  - intros v H. discriminate H.
  - intros l H. discriminate H.
Defined.

Lemma resolution_fields_in_range_witness :
  retry_default (call (kickoff (env_of (quoted "{'confidence': 0.9}") "{}") alert0))
                world0
  = (Ok (crew_of (quoted "{'confidence': 0.9}") "{}"), mkWorld 1 [] [])
  /\ extract_outputs (crew_of (quoted "{'confidence': 0.9}") "{}")
     = (PDict [(key "confidence", PFloat 0.9)], PDict [])
  /\ returns_in_range (env_of (quoted "{'confidence': 0.9}") "{}") alert0 world0.
Proof.
  assert (H1 : retry_default
                 (call (kickoff (env_of (quoted "{'confidence': 0.9}") "{}") alert0))
                 world0
               = (Ok (crew_of (quoted "{'confidence': 0.9}") "{}"), mkWorld 1 [] []))
    by reflexivity.
  assert (H2 : extract_outputs (crew_of (quoted "{'confidence': 0.9}") "{}")
               = (PDict [(key "confidence", PFloat 0.9)], PDict []))
    by (vm_compute; reflexivity).
  split; [exact H1|]. split; [exact H2|].
  exact (proj1 (resolution_fields_in_range
                  (env_of (quoted "{'confidence': 0.9}") "{}") alert0 world0)
           _ _ _ _ H1 H2 well_typed_analysis well_typed_empty (fun _ => eq_refl)).
Defined.

(** C9 as stated fails: nothing brings a recovered confidence into the
    interval or makes a recovered executed field a boolean.  With the
    Analyze text [{"confidence": 5}] and the Execute-decision text
    [{"executed": "yes"}] the endpoint returns status resolved with
    confidence 5 and executed "yes". *)
Lemma resolution_fields_in_range_counterexample :
  (exists resolution w',
      process_alert (env_of (quoted "{'confidence': 5}") (quoted "{'executed': 'yes'}"))
                    alert0 world0
      = (Ok (response "resolved" "generated-uuid" resolution), w')
      /\ dict_get resolution (key "confidence") = Some (PInt 5)
      /\ dict_get resolution (key "executed") = Some (PStr "yes")
      /\ ~ unit_confidence (PInt 5)
      /\ ~ is_boolean (PStr "yes"))
  /\ ~ returns_in_range
        (env_of (quoted "{'confidence': 5}") (quoted "{'executed': 'yes'}"))
        alert0 world0.
Proof.
  split.
  - do 2 eexists. split; [vm_compute; reflexivity|].
    split; [reflexivity|]. split; [reflexivity|]. split.
    + simpl. lia.
    + intros [b Hb]. discriminate Hb.
  - intros (resp & w' & resolution & v & b & Hp & Hr & Hv & Hu & Hb).
    vm_compute in Hp. injection Hp as <- <-.
    vm_compute in Hr. injection Hr as <-.
    vm_compute in Hv. injection Hv as <-.
    simpl in Hu. lia.
Qed.

(** ** Retrieval *)

Lemma run_body_stages (R : rag_env) (query : string) :
  _run_body R query
  = (query_embedding <- embedding R query ;;
     if negb (py_truthy query_embedding) then Ok []
     else
       docs <- candidates R query_embedding ;;
       match docs with
       | [] => Ok []
       | _ :: _ =>
           scores <- predict R (map (fun doc => (query, doc)) docs) ;;
           Ok (map fst (firstn 3 (sorted_desc (combine docs scores))))
       end)%res.
Proof.
  unfold _run_body, embedding, candidates.
  destruct (get_opensearch_client R); [|reflexivity]. cbn [rbind].
  destruct (invoke_model R query); [|reflexivity]. cbn [rbind].
  destruct (json_loads a0); [|reflexivity]. cbn [rbind].
  destruct (py_get a1 "embedding" (PList [])) as [emb|]; [|reflexivity]. cbn [rbind].
  destruct (negb (py_truthy emb)); [reflexivity|].
  destruct (client_search R "runbooks" (query_body emb)); [|reflexivity]. cbn [rbind].
  destruct (py_getitem a2 "hits"); [|reflexivity]. cbn [rbind].
  destruct (py_getitem a3 "hits"); [|reflexivity]. cbn [rbind].
  destruct (py_iter a4); [|reflexivity]. cbn [rbind].
  destruct (hit_contents a5); reflexivity.
Qed.

Lemma insert_desc_perm (x : pyval * float) (l : list (pyval * float)) :
  Permutation (insert_desc x l) (x :: l).
Proof.
  induction l as [|y l IH]; [apply Permutation_refl|].
  simpl. destruct (snd x <? snd y)%float.
  - apply Permutation_trans with (y :: x :: l).
    + now constructor.
    + apply perm_swap.
  - apply Permutation_refl.
Qed.

Lemma sorted_desc_perm (l : list (pyval * float)) :
  Permutation (sorted_desc l) l.
Proof.
  induction l as [|x l IH]; [constructor|].
  simpl. apply Permutation_trans with (x :: sorted_desc l).
  - apply insert_desc_perm.
  - now constructor.
Qed.

Lemma insert_desc_sorted (x : pyval * float) (l : list (pyval * float)) :
  number (snd x) -> Forall (fun p => number (snd p)) l ->
  StronglySorted score_ge l -> StronglySorted score_ge (insert_desc x l).
Proof.
  intros Hx. induction l as [|y l IH]; intros Hl Hs.
  - simpl. constructor; constructor.
  - inversion Hl as [|? ? Hy Hl']; subst.
    inversion Hs as [|? ? Hs' Hall]; subst.
    simpl. destruct (snd x <? snd y)%float eqn:E.
    + constructor; [now apply IH|].
      apply (Permutation_Forall (Permutation_sym (insert_desc_perm x l))).
      constructor; [|assumption].
      unfold score_ge. now apply ltb_leb.
    + constructor; [assumption|].
      assert (Hyx : score_ge x y) by (now apply not_ltb_leb).
      constructor; [assumption|].
      eapply Forall_impl; [|exact Hall].
      intros p Hp. unfold score_ge in *. now apply leb_trans with (snd y).
Qed.

Lemma sorted_desc_sorted (l : list (pyval * float)) :
  Forall (fun p => number (snd p)) l -> StronglySorted score_ge (sorted_desc l).
Proof.
  induction l as [|x l IH]; intros H; [constructor|].
  inversion H as [|? ? Hx Hl]; subst. simpl.
  apply insert_desc_sorted; [assumption| |now apply IH].
  apply (Permutation_Forall (Permutation_sym (sorted_desc_perm l))). assumption.
Qed.

Lemma strongly_sorted_app_inv (l1 l2 : list (pyval * float)) :
  StronglySorted score_ge (l1 ++ l2) ->
  forall a b, In a l1 -> In b l2 -> score_ge a b.
Proof.
  induction l1 as [|x l1 IH]; intros Hs a b Ha Hb; [contradiction|].
  simpl in Hs. inversion Hs as [|? ? Hs' Hall]; subst.
  destruct Ha as [<- | Ha].
  - rewrite Forall_forall in Hall. apply Hall. apply in_or_app. now right.
  - now apply IH.
Qed.

Lemma combine_numbers (docs : list pyval) (scores : list float) :
  Forall number scores ->
  Forall (fun p => number (snd p)) (combine docs scores).
Proof.
  intros H. apply Forall_forall. intros [d s] Hin.
  apply in_combine_r in Hin. rewrite Forall_forall in H. now apply H.
Qed.

Lemma run_at_most_three (R : rag_env) (query : string) :
  exists docs, _run R query = Ok docs /\ (List.length docs <= 3)%nat.
Proof.
  unfold _run. rewrite run_body_stages.
  destruct (embedding R query) as [emb|]; cbn [rbind];
    [|exists []; split; [reflexivity | simpl; lia]].
  destruct (negb (py_truthy emb)); [exists []; split; [reflexivity | simpl; lia]|].
  destruct (candidates R emb) as [[|d docs]|]; cbn [rbind];
    try (exists []; split; [reflexivity | simpl; lia]).
  destruct (predict R _) as [scores|]; cbn [rbind];
    [|exists []; split; [reflexivity | simpl; lia]].
  eexists. split; [reflexivity|].
  rewrite length_map. apply firstn_le_length.
Qed.

(** C8, as amended: for every query the retrieval returns a list of three
    documents at most and never raises; an exception anywhere in its body,
    an empty embedding and a search without hits all give the empty list;
    the search is asked for the 10 nearest neighbours of the embedding of
    the query (size 10, k 10, the embedding as the vector); and otherwise,
    when the scores of the reranker are numbers (none is NaN), the list
    returned is the contents of the first three candidates in descending
    order of the scores, so that every candidate left out scores no more
    than every candidate kept. *)
Theorem retrieval_top3_by_score :
  forall (R : rag_env) (query : string),
    (exists docs, _run R query = Ok docs /\ (List.length docs <= 3)%nat)
    /\ (forall e, _run_body R query = Raise e -> _run R query = Ok [])
    /\ (forall emb, embedding R query = Ok emb -> py_truthy emb = false ->
                    _run R query = Ok [])
    /\ (forall emb, embedding R query = Ok emb -> candidates R emb = Ok [] ->
                    _run R query = Ok [])
    /\ (forall emb, py_getitem (query_body emb) "size" = Ok (PInt 10)
                    /\ (q <- py_getitem (query_body emb) "query" ;;
                        knn <- py_getitem q "knn" ;;
                        field <- py_getitem knn "vector_field" ;;
                        py_getitem field "k")%res = Ok (PInt 10)
                    /\ (q <- py_getitem (query_body emb) "query" ;;
                        knn <- py_getitem q "knn" ;;
                        field <- py_getitem knn "vector_field" ;;
                        py_getitem field "vector")%res = Ok emb)
    /\ (forall emb docs scores,
           embedding R query = Ok emb -> py_truthy emb = true ->
           candidates R emb = Ok docs -> docs <> [] ->
           predict R (map (fun doc => (query, doc)) docs) = Ok scores ->
           Forall number scores ->
           let ranked := sorted_desc (combine docs scores) in
           _run R query = Ok (map fst (firstn 3 ranked))
           /\ Permutation ranked (combine docs scores)
           /\ StronglySorted score_ge ranked
           /\ (forall kept left_out,
                  In kept (firstn 3 ranked) -> In left_out (skipn 3 ranked) ->
                  (snd left_out <=? snd kept)%float = true)).
Proof.
  intros R query.
  split; [apply run_at_most_three|].
  split. { intros e He. unfold _run. now rewrite He. }
  split. { intros emb He Hf. unfold _run. rewrite run_body_stages, He. cbn [rbind].
           now rewrite Hf. }
  split. { intros emb He Hc. unfold _run. rewrite run_body_stages, He. cbn [rbind].
           destruct (negb (py_truthy emb)); [reflexivity|]. now rewrite Hc. }
  split. { intros emb. repeat split; reflexivity. }
  intros emb docs scores He Ht Hc Hne Hp Hn ranked.
  assert (Hs : StronglySorted score_ge ranked)
    by (apply sorted_desc_sorted; now apply combine_numbers).
  split.
  { unfold _run. rewrite run_body_stages, He. cbn [rbind]. rewrite Ht. cbn [negb].
    rewrite Hc. cbn [rbind]. destruct docs as [|d docs]; [congruence|].
    now rewrite Hp. }
  split; [apply sorted_desc_perm|].
  split; [exact Hs|].
  intros kept left_out Hk Hl.
  rewrite <- (firstn_skipn 3 ranked) in Hs.
  exact (strongly_sorted_app_inv _ _ Hs kept left_out Hk Hl).
Qed.

Lemma retrieval_top3_by_score_witness :
  embedding rag_fixture "DB timeout"
  = Ok (PList [PFloat 0.1; PFloat 0.2; PFloat 0.3])
  /\ candidates rag_fixture (PList [PFloat 0.1; PFloat 0.2; PFloat 0.3])
     = Ok [PStr "runbook-other"; PStr "runbook-db-timeout"]
  /\ Forall number [0.1; 0.9]%float
  /\ _run rag_fixture "DB timeout"
     = Ok [PStr "runbook-db-timeout"; PStr "runbook-other"].
Proof.
  assert (H1 : embedding rag_fixture "DB timeout"
               = Ok (PList [PFloat 0.1; PFloat 0.2; PFloat 0.3]))
    by (vm_compute; reflexivity).
  assert (H2 : candidates rag_fixture (PList [PFloat 0.1; PFloat 0.2; PFloat 0.3])
               = Ok [PStr "runbook-other"; PStr "runbook-db-timeout"])
    by reflexivity.
  assert (H3 : Forall number [0.1; 0.9]%float) by (repeat constructor).
  split; [exact H1|]. split; [exact H2|]. split; [exact H3|].
  exact (proj1 (proj2 (proj2 (proj2 (proj2 (proj2
           (retrieval_top3_by_score rag_fixture "DB timeout")))))
           (PList [PFloat 0.1; PFloat 0.2; PFloat 0.3])
           [PStr "runbook-other"; PStr "runbook-db-timeout"]
           [0.1; 0.9]%float
           H1 eq_refl H2 ltac:(discriminate) eq_refl H3)).
Defined.

(** C8 as stated fails when a score is NaN: no comparison with NaN holds,
    and the sort leaves the candidates where they stand.  With the scores
    0.2, NaN, 0.9 and 0.5 of the candidates a, b, c and d (the reversed list
    d, c, b, a is one ascending run for Python's sort, which leaves it, and
    reversing it again gives a, b, c, d) the retrieval returns a, b and c:
    d, which scores 0.5, is left out while a, which scores 0.2, is kept, and
    the list is not in descending order of the scores. *)
Lemma retrieval_top3_by_score_counterexample :
  let emb := PList [PFloat 0.1; PFloat 0.2; PFloat 0.3] in
  let docs := [PStr "a"; PStr "b"; PStr "c"; PStr "d"] in
  let scores := [0.2; nan; 0.9; 0.5]%float in
  embedding rag_nan_scores "DB timeout" = Ok emb
  /\ candidates rag_nan_scores emb = Ok docs
  /\ predict rag_nan_scores (map (fun doc => ("DB timeout", doc)) docs) = Ok scores
  /\ ~ Forall number scores
  /\ _run rag_nan_scores "DB timeout" = Ok [PStr "a"; PStr "b"; PStr "c"]
  /\ In (PStr "a", 0.2%float) (firstn 3 (sorted_desc (combine docs scores)))
  /\ In (PStr "d", 0.5%float) (skipn 3 (sorted_desc (combine docs scores)))
  /\ (0.5 <=? 0.2)%float = false
  /\ ~ StronglySorted score_ge (sorted_desc (combine docs scores)).
Proof.
  intros emb docs scores.
  split; [vm_compute; reflexivity|].
  split; [reflexivity|].
  split; [reflexivity|].
  split.
  { intros H. inversion H as [|? ? _ H1]; subst.
    inversion H1 as [|? ? Hn _]; subst. discriminate Hn. }
  split; [vm_compute; reflexivity|].
  split; [left; reflexivity|].
  split; [left; reflexivity|].
  split; [reflexivity|].
  intros H. change (sorted_desc (combine docs scores))
    with [(PStr "a", 0.2%float); (PStr "b", nan); (PStr "c", 0.9%float);
          (PStr "d", 0.5%float)] in H.
  inversion H as [|? ? _ Hall]; subst.
  inversion Hall as [|? ? Hb _]; subst.
  discriminate Hb.
Qed.

(** The runs of the repository's retrieval tests: two hits scored 0.9 and
    0.1 come back in that order; a search without hits gives the empty
    list. *)
Example test_rag_retrieve_success :
  let R := mkRag (Ok tt)
                 (fun _ => Ok (quoted "{'embedding': [0.1, 0.2, 0.3]}"))
                 (fun _ _ =>
                    Ok (PDict [(key "hits",
                                PDict [(key "hits",
                                        PList [hit "runbook-db-timeout";
                                               hit "runbook-other"])])]))
                 (fun _ => Ok [0.9; 0.1]%float) in
  _run R "DB timeout" = Ok [PStr "runbook-db-timeout"; PStr "runbook-other"].
Proof. vm_compute. reflexivity. Qed.

Example test_rag_retrieve_empty :
  let R := mkRag (Ok tt)
                 (fun _ => Ok (quoted "{'embedding': [0.1, 0.2, 0.3]}"))
                 (fun _ _ => Ok (PDict [(key "hits", PDict [(key "hits", PList [])])]))
                 (fun _ => Raise (mkExn OtherError "not called")) in
  _run R "Unknown issue" = Ok [].
Proof. vm_compute. reflexivity. Qed.

(** ** More on the retry wrapper *)

Lemma retry_loop_returns {A} (o : nat -> result A) allowed b m n attempt last
    (w : world) (a : A) :
  o (calls w) = Ok a ->
  retry_loop (call o) allowed b m (S n) attempt last w
  = (Ok a, mkWorld (S (calls w)) (slept w) (audit_items w)).
Proof.
  intros Ho. cbn [retry_loop call]. now rewrite Ho.
Qed.

Lemma retry_loop_stops {A} (o : nat -> result A) allowed b m n attempt last
    (w : world) (e : exn) :
  o (calls w) = Raise e ->
  isinstance e allowed = false ->
  retry_loop (call o) allowed b m (S n) attempt last w
  = (Raise e, mkWorld (S (calls w)) (slept w) (audit_items w)).
Proof.
  intros Ho Ha. cbn [retry_loop call]. rewrite Ho, Ha.
  destruct (isinstance e [AuthenticationError]); reflexivity.
Qed.


(** How a call of the wrapper with the defaults ends: after [n] calls, of
    which all but the last failed with an allowed error, with the outcome of
    the last call, having slept the first [j] of the waits 1, 2, 4. *)
Lemma retry_default_shape {A} (o : nat -> result A) (w : world) :
  exists n j : nat,
    (1 <= n <= 3)%nat
    /\ retry_default (call o) w
       = (o (calls w + n - 1)%nat,
          mkWorld (calls w + n) (slept w ++ firstn j default_waits) (audit_items w))
    /\ (forall i, (i < n - 1)%nat ->
                  exists e, o (calls w + i)%nat = Raise e
                            /\ isinstance e default_allowed_exceptions = true)
    /\ ((j = (n - 1)%nat
         /\ forall e, o (calls w + n - 1)%nat = Raise e ->
                      isinstance e default_allowed_exceptions = false)
        \/ (j = 3%nat /\ n = 3%nat
            /\ exists e, o (calls w + 2)%nat = Raise e
                         /\ isinstance e default_allowed_exceptions = true)).
Proof.
  unfold retry_default, exponential_backoff_retry. change (Z.to_nat 3) with 3%nat.
  destruct (o (calls w)) as [a1|e1] eqn:H1.
  { exists 1%nat, 0%nat. split; [lia|].
    rewrite (retry_loop_returns o _ _ _ _ _ _ w a1 H1).
    replace (calls w + 1 - 1)%nat with (calls w) by lia.
    rewrite H1, app_nil_r, Nat.add_1_r.
    split; [reflexivity|]. split; [intros i Hi; lia|].
    left. split; [reflexivity|]. intros e He. congruence. }
  destruct (isinstance e1 default_allowed_exceptions) eqn:T1.
  2:{ exists 1%nat, 0%nat. split; [lia|].
      rewrite (retry_loop_stops o _ _ _ _ _ _ w e1 H1 T1).
      replace (calls w + 1 - 1)%nat with (calls w) by lia.
      rewrite H1, app_nil_r, Nat.add_1_r.
      split; [reflexivity|]. split; [intros i Hi; lia|].
      left. split; [reflexivity|]. intros e He. congruence. }
  rewrite (retry_loop_turn o default_allowed_exceptions 1 10 2 1 None w
             (mkWorld (S (calls w)) (slept w ++ [1%float]) (audit_items w))
             e1 1%float H1 T1 eq_refl eq_refl).
  set (w1 := mkWorld (S (calls w)) (slept w ++ [1%float]) (audit_items w)).
  assert (P0 : forall i, (i < 1)%nat ->
              exists e, o (calls w + i)%nat = Raise e
                        /\ isinstance e default_allowed_exceptions = true).
  { intros i Hi. assert (i = 0)%nat as -> by lia. rewrite Nat.add_0_r.
    exists e1. now split. }
  destruct (o (S (calls w))) as [a2|e2] eqn:H2.
  { exists 2%nat, 1%nat. split; [lia|].
    rewrite (retry_loop_returns o _ _ _ _ _ _ w1 a2 H2).
    replace (calls w + 2 - 1)%nat with (S (calls w)) by lia.
    rewrite H2. replace (calls w + 2)%nat with (S (S (calls w))) by lia.
    split; [reflexivity|]. split; [exact P0|].
    left. split; [reflexivity|]. intros e He. congruence. }
  destruct (isinstance e2 default_allowed_exceptions) eqn:T2.
  2:{ exists 2%nat, 1%nat. split; [lia|].
      rewrite (retry_loop_stops o _ _ _ _ _ _ w1 e2 H2 T2).
      replace (calls w + 2 - 1)%nat with (S (calls w)) by lia.
      rewrite H2. replace (calls w + 2)%nat with (S (S (calls w))) by lia.
      split; [reflexivity|]. split; [exact P0|].
      left. split; [reflexivity|]. intros e He. congruence. }
  rewrite (retry_loop_turn o default_allowed_exceptions 1 10 1 (1 + 1) (Some e1) w1
             (mkWorld (S (S (calls w))) ((slept w ++ [1%float]) ++ [2%float])
                      (audit_items w))
             e2 2%float H2 T2 eq_refl eq_refl).
  set (w2 := mkWorld (S (S (calls w))) ((slept w ++ [1%float]) ++ [2%float])
                     (audit_items w)).
  assert (P1 : forall i, (i < 2)%nat ->
              exists e, o (calls w + i)%nat = Raise e
                        /\ isinstance e default_allowed_exceptions = true).
  { intros i Hi. assert (i = 0 \/ i = 1)%nat as [-> | ->] by lia.
    - rewrite Nat.add_0_r. exists e1. now split.
    - rewrite Nat.add_1_r. exists e2. now split. }
  assert (Hs2 : (slept w ++ [1%float]) ++ [2%float]
                = slept w ++ firstn 2 default_waits)
    by (now rewrite <- app_assoc).
  destruct (o (S (S (calls w)))) as [a3|e3] eqn:H3.
  { exists 3%nat, 2%nat. split; [lia|].
    rewrite (retry_loop_returns o _ _ _ _ _ _ w2 a3 H3).
    replace (calls w + 3 - 1)%nat with (S (S (calls w))) by lia.
    rewrite H3. replace (calls w + 3)%nat with (S (S (S (calls w)))) by lia.
    unfold w2. cbn [calls slept audit_items]. rewrite Hs2.
    split; [reflexivity|]. split; [exact P1|].
    left. split; [reflexivity|]. intros e He. congruence. }
  destruct (isinstance e3 default_allowed_exceptions) eqn:T3.
  2:{ exists 3%nat, 2%nat. split; [lia|].
      rewrite (retry_loop_stops o _ _ _ _ _ _ w2 e3 H3 T3).
      replace (calls w + 3 - 1)%nat with (S (S (calls w))) by lia.
      rewrite H3. replace (calls w + 3)%nat with (S (S (S (calls w)))) by lia.
      unfold w2. cbn [calls slept audit_items]. rewrite Hs2.
      split; [reflexivity|]. split; [exact P1|].
      left. split; [reflexivity|]. intros e He. congruence. }
  exists 3%nat, 3%nat. split; [lia|].
  rewrite (retry_loop_turn o default_allowed_exceptions 1 10 0 (1 + 1 + 1) (Some e2) w2
             (mkWorld (S (S (S (calls w))))
                      (((slept w ++ [1%float]) ++ [2%float]) ++ [4%float])
                      (audit_items w))
             e3 4%float H3 T3 eq_refl eq_refl).
  cbn [retry_loop raise].
  replace (calls w + 3 - 1)%nat with (S (S (calls w))) by lia.
  rewrite H3. replace (calls w + 3)%nat with (S (S (S (calls w)))) by lia.
  rewrite <- !app_assoc.
  split; [reflexivity|]. split; [exact P1|].
  right. split; [reflexivity|]. split; [reflexivity|].
  exists e3. replace (calls w + 2)%nat with (S (S (calls w))) by lia. now split.
Qed.

Lemma time_sleep_inv (secs : float) (w w' : world) (r : result unit) :
  time_sleep secs w = (r, w') ->
  (r = Ok tt
   /\ w' = mkWorld (calls w) (slept w ++ [secs]) (audit_items w)
   /\ number secs /\ (secs <? 0)%float = false)
  \/ ((exists e, r = Raise e) /\ w' = w).
Proof.
  unfold time_sleep.
  destruct (is_nan secs) eqn:En.
  { intros H. injection H as <- <-. right. split; [eexists; reflexivity | reflexivity]. }
  destruct (negb _).
  { intros H. injection H as <- <-. right. split; [eexists; reflexivity | reflexivity]. }
  destruct (secs <? 0)%float eqn:El.
  { intros H. injection H as <- <-. right. split; [eexists; reflexivity | reflexivity]. }
  intros H. injection H as <- <-. left. now repeat split.
Qed.

Lemma py_min_le (a x : float) :
  number (py_min a x) -> (py_min a x <=? a)%float = true.
Proof.
  unfold py_min. destruct (x <? a)%float eqn:E; intros Hn.
  - now apply ltb_leb.
  - now apply leb_refl.
Qed.

Lemma backoff_wait_capped (b m : float) (attempt : Z) (wait : float) :
  backoff_wait b m attempt = Ok wait -> number wait -> (wait <=? m)%float = true.
Proof.
  unfold backoff_wait. destruct (float_of_int _) as [p|]; [|discriminate].
  cbn [rbind]. intros H. injection H as <-. apply py_min_le.
Qed.


(** The loop, for any parameters: what it adds to the waits slept is one
    wait at most for each call made, each within the cap; it leaves the
    audit items alone. *)
Lemma retry_loop_waits {A} (o : nat -> result A) allowed b m :
  forall n attempt last w,
  exists added,
    slept (snd (retry_loop (call o) allowed b m n attempt last w))
    = slept w ++ added
    /\ (calls w + List.length added
        <= calls (snd (retry_loop (call o) allowed b m n attempt last w)))%nat
    /\ Forall (within m) added.
Proof.
  induction n as [|n IH]; intros attempt last w.
  - exists []. simpl. destruct last; simpl; rewrite app_nil_r; repeat split; auto; lia.
  - cbn [retry_loop call].
    destruct (o (calls w)) as [a|e].
    { exists []. simpl. rewrite app_nil_r. repeat split; auto; lia. }
    destruct (isinstance e allowed).
    2:{ exists []. destruct (isinstance e [AuthenticationError]); simpl;
          rewrite app_nil_r; repeat split; auto; lia. }
    destruct (backoff_wait b m attempt) as [wait|e'] eqn:Eb.
    2:{ exists []. simpl. rewrite app_nil_r. repeat split; auto; lia. }
    set (w1 := mkWorld (S (calls w)) (slept w) (audit_items w)).
    destruct (time_sleep wait w1) as [r w2] eqn:Es.
    destruct (time_sleep_inv _ _ _ _ Es) as [(-> & -> & Hn & Hl) | ([e' ->] & ->)].
    + destruct (IH (attempt + 1) (Some e)
                   (mkWorld (calls w1) (slept w1 ++ [wait]) (audit_items w1)))
        as (added & Hs & Hlen & Hall).
      subst w1. cbn [slept calls audit_items] in *.
      exists (wait :: added). rewrite Hs.
      rewrite <- app_assoc. split; [reflexivity|]. split.
      * simpl. lia.
      * constructor; [|assumption]. split.
        -- apply not_ltb_leb; [assumption | reflexivity | assumption].
        -- now apply (backoff_wait_capped b m attempt).
    + exists []. simpl. rewrite app_nil_r. repeat split; auto; lia.
Qed.


(** X1: with the default parameters the wrapper makes one, two or three
    calls; what it gives back is the outcome of the last call it made; every
    call before the last failed with a rate limit or a service error; the
    waits it slept are the first of 1, 2 and 4 seconds, one for each failed
    call before the last, and a third wait of 4 seconds only when the third
    call also failed with such an error. *)
Theorem retry_default_gives_last_outcome :
  forall (A : Type) (o : nat -> result A) (w : world),
  exists n j : nat,
    (1 <= n <= 3)%nat
    /\ retry_default (call o) w
       = (o (calls w + n - 1)%nat,
          mkWorld (calls w + n) (slept w ++ firstn j default_waits) (audit_items w))
    /\ (forall i, (i < n - 1)%nat ->
          exists e, o (calls w + i)%nat = Raise e
                    /\ isinstance e default_allowed_exceptions = true)
    /\ ((j = (n - 1)%nat
         /\ forall e, o (calls w + n - 1)%nat = Raise e ->
                      isinstance e default_allowed_exceptions = false)
        \/ (j = 3%nat /\ n = 3%nat
            /\ exists e, o (calls w + 2)%nat = Raise e
                         /\ isinstance e default_allowed_exceptions = true)).
Proof.
  intros A o w. apply retry_default_shape.
Qed.

(** X2: whatever the parameters, the wrapper calls the function [retries]
    times at most, leaves the audit items alone, sleeps one wait at most for
    each call it made, and every wait it sleeps is neither negative nor above
    [max_interval]. *)
Theorem retry_bounds_for_any_parameters :
  forall (A : Type) (o : nat -> result A) (retries : Z)
         (base_interval max_interval : float) (allowed : list exn_class)
         (w : world),
    let w' := snd (exponential_backoff_retry (call o) retries base_interval
                     max_interval allowed w) in
    (calls w' <= calls w + Z.to_nat retries)%nat
    /\ audit_items w' = audit_items w
    /\ exists added,
         slept w' = slept w ++ added
         /\ (calls w + List.length added <= calls w')%nat
         /\ Forall (within max_interval) added.
Proof.
  intros A o retries b m allowed w w'. subst w'.
  unfold exponential_backoff_retry.
  destruct (retry_loop_calls_le o allowed b m (Z.to_nat retries) 1 None w) as [Hc Ha].
  split; [exact Hc|]. split; [exact Ha|].
  apply retry_loop_waits.
Qed.

(** X3: with [retries] at zero or below the loop has no turn: the function
    is not called, nothing is slept, and the [raise last_exc] after the loop
    raises a TypeError, [last_exc] being [None]. *)
Theorem retry_without_attempts :
  forall (A : Type) (fn : M A) (retries : Z) (base_interval max_interval : float)
         (allowed : list exn_class) (w : world),
    retries <= 0 ->
    exponential_backoff_retry fn retries base_interval max_interval allowed w
    = (Raise (mkExn TypeError "exceptions must derive from BaseException"), w).
Proof.
  intros A fn retries b m allowed w H.
  unfold exponential_backoff_retry.
  replace (Z.to_nat retries) with 0%nat by lia. reflexivity.
Qed.

Lemma retry_without_attempts_witness :
  0 <= 0
  /\ exponential_backoff_retry (call (always_rate_limited unit)) 0 1 10
       default_allowed_exceptions world0
     = (Raise (mkExn TypeError "exceptions must derive from BaseException"), world0).
Proof.
  split; [lia|].
  apply (retry_without_attempts unit (call (always_rate_limited unit)) 0 1 10
           default_allowed_exceptions world0). lia.
Defined.

(** The waits of the attempts 5 to 1024 with the default intervals. *)
Lemma backoff_wait_default_capped (k : nat) :
  (k < 1020)%nat -> backoff_wait 1 10 (Z.of_nat k + 5) = Ok 10%float.
Proof.
  intros Hk.
  assert (H : map (fun k => backoff_wait 1 10 (Z.of_nat k + 5)) (seq 0 1020)
              = repeat (Ok 10%float) 1020) by (vm_compute; reflexivity).
  apply (f_equal (fun l => nth k l (Ok 10%float))) in H.
  rewrite nth_repeat in H.
  rewrite (nth_indep _ _ (backoff_wait 1 10 (Z.of_nat 0 + 5))) in H
    by (rewrite length_map, length_seq; exact Hk).
  rewrite (map_nth (fun k => backoff_wait 1 10 (Z.of_nat k + 5))) in H.
  rewrite seq_nth in H by exact Hk. exact H.
Qed.

(** The nearest float of a power of two: mantissa [2^52]. *)
Lemma round_ratio_pow2 (k : Z) :
  52 <= k -> round_ratio (2 ^ k) 1 = (2 ^ 52, k - 52).
Proof.
  intros Hk. unfold round_ratio. cbv zeta.
  rewrite Z.log2_pow2 by lia. change (Z.log2 1) with 0.
  replace (k - 0) with k by lia.
  replace (0 <=? k) with true by (symmetry; apply Z.leb_le; lia).
  replace (1 * 2 ^ k <=? 2 ^ k) with true by (symmetry; apply Z.leb_le; lia).
  replace (Z.max (k - 52) (-1074)) with (k - 52) by lia.
  replace (Z.max (- (k - 52)) 0) with 0 by lia.
  replace (Z.max (k - 52) 0) with (k - 52) by lia.
  change (2 ^ 0) with 1. rewrite Z.mul_1_r, Z.mul_1_l.
  assert (Hp : 0 < 2 ^ (k - 52)) by (apply Z.pow_pos_nonneg; lia).
  assert (Hd : 2 ^ k = 2 ^ 52 * 2 ^ (k - 52)).
  { rewrite <- Z.pow_add_r by lia. f_equal. lia. }
  assert (Hq : 2 ^ k / 2 ^ (k - 52) = 2 ^ 52) by (rewrite Hd; apply Z.div_mul; lia).
  assert (Hr : 2 ^ k mod 2 ^ (k - 52) = 0) by (rewrite Hd; apply Z.mod_mul; lia).
  rewrite Hq, Hr.
  change (2 * 0) with 0.
  replace (2 ^ (k - 52) <? 0) with false by (symmetry; apply Z.ltb_ge; lia).
  replace (2 ^ (k - 52) =? 0) with false by (symmetry; apply Z.eqb_neq; lia).
  reflexivity.
Qed.

(** The power of two of attempt 1025 and of every later attempt has no
    float. *)
Lemma float_of_int_pow2_overflow (k : Z) :
  1024 <= k ->
  float_of_int (2 ^ k)
  = Raise (mkExn OverflowError "int too large to convert to float").
Proof.
  intros Hk. unfold float_of_int, nearest_float.
  assert (Hp : 0 < 2 ^ k) by (apply Z.pow_pos_nonneg; lia).
  rewrite Z.abs_eq by lia.
  replace (2 ^ k =? 0) with false by (symmetry; apply Z.eqb_neq; lia).
  rewrite round_ratio_pow2 by lia.
  change (Z.log2 (2 ^ 52)) with 52.
  replace (1024 <=? 52 + (k - 52)) with true by (symmetry; apply Z.leb_le; lia).
  reflexivity.
Qed.

(** X4: the wait computed at line 100 along the attempts, with the default
    intervals: 1, 2, 4 and 8 seconds at the attempts 1 to 4, then the cap of
    10 seconds at every attempt up to the 1024th; from attempt 1025 on, and
    whatever the intervals, the power of two is too large for the product
    with a float and an OverflowError is raised in place of a wait. *)
Theorem backoff_wait_schedule :
  forall (attempt : Z),
    1 <= attempt ->
    (attempt <= 4 ->
       backoff_wait 1 10 attempt = float_of_int (2 ^ (attempt - 1)))
    /\ (5 <= attempt <= 1024 -> backoff_wait 1 10 attempt = Ok 10%float)
    /\ (1025 <= attempt ->
        forall base_interval max_interval,
          backoff_wait base_interval max_interval attempt
          = Raise (mkExn OverflowError "int too large to convert to float")).
Proof.
  intros attempt H1. split; [|split].
  - intros H4.
    assert (attempt = 1 \/ attempt = 2 \/ attempt = 3 \/ attempt = 4)
      as [-> | [-> | [-> | ->]]] by lia; reflexivity.
  - intros H.
    replace attempt with (Z.of_nat (Z.to_nat (attempt - 5)) + 5) by lia.
    apply backoff_wait_default_capped. lia.
  - intros H b m. unfold backoff_wait.
    rewrite float_of_int_pow2_overflow by lia. reflexivity.
Qed.

Lemma backoff_wait_schedule_witness :
  1 <= 4
  /\ backoff_wait 1 10 4 = Ok 8%float
  /\ backoff_wait 1 10 5 = Ok 10%float
  /\ backoff_wait 1 10 1025
     = Raise (mkExn OverflowError "int too large to convert to float").
Proof.
  split; [lia|].
  pose proof (backoff_wait_schedule 4 ltac:(lia)) as H4.
  pose proof (backoff_wait_schedule 5 ltac:(lia)) as H5.
  pose proof (backoff_wait_schedule 1025 ltac:(lia)) as H6.
  split; [exact (proj1 H4 ltac:(lia))|].
  split; [exact (proj1 (proj2 H5) ltac:(lia))|].
  exact (proj2 (proj2 H6) ltac:(lia) 1%float 10%float).
Defined.

Lemma not_transient_not_allowed (e : exn) :
  ~ transient e -> isinstance e default_allowed_exceptions = false.
Proof.
  unfold transient, isinstance, default_allowed_exceptions. intros H.
  destruct (exn_cls e); simpl; try reflexivity; exfalso; apply H; auto.
Qed.

(** With the defaults, the first call that is not a failure with an allowed
    error, when it is one of the three: its outcome is given back, after one
    wait for each call before it. *)
Lemma retry_default_first_stop {A} (o : nat -> result A) (w : world) (k : nat) :
  (k <= 2)%nat ->
  (forall i, (i < k)%nat ->
     exists e, o (calls w + i)%nat = Raise e
               /\ isinstance e default_allowed_exceptions = true) ->
  (forall e, o (calls w + k)%nat = Raise e ->
             isinstance e default_allowed_exceptions = false) ->
  retry_default (call o) w
  = (o (calls w + k)%nat,
     mkWorld (calls w + k + 1) (slept w ++ firstn k default_waits) (audit_items w)).
Proof.
  intros Hk Hbefore Hstop.
  destruct (retry_default_shape o w) as (n & j & Hn & Hr & Hfail & Hlast).
  assert (n = S k) as ->.
  { destruct (Nat.lt_total n (S k)) as [Hlt | [Heq | Hgt]]; [|exact Heq|].
    - exfalso. destruct (Hbefore (n - 1)%nat ltac:(lia)) as (e & He & Ha).
      destruct Hlast as [(_ & Hno) | (_ & -> & _)]; [|lia].
      replace (calls w + n - 1)%nat with (calls w + (n - 1))%nat in Hno by lia.
      rewrite (Hno e He) in Ha. discriminate.
    - exfalso. destruct (Hfail k ltac:(lia)) as (e & He & Ha).
      rewrite (Hstop e He) in Ha. discriminate. }
  rewrite Hr. replace (calls w + S k - 1)%nat with (calls w + k)%nat by lia.
  replace (calls w + S k)%nat with (calls w + k + 1)%nat by lia.
  destruct Hlast as [(-> & _) | (_ & Hk3 & e & He & Ha)].
  - replace (S k - 1)%nat with k by lia. reflexivity.
  - exfalso. assert (k = 2)%nat as -> by lia.
    rewrite (Hstop e He) in Ha. discriminate.
Qed.

(** ** More on the endpoint *)

(** What a run of the endpoint is made of: the outcome of the retried
    reasoning call, and on a result the merge, the decision and the audit
    write. *)
Lemma process_alert_returns_inv (E : env) (alert : Alert) (w w' : world)
    (resp : pyval) :
  process_alert E alert w = (Ok resp, w') ->
  (exists e,
      retry_default (call (kickoff E alert)) w = (Raise e, w')
      /\ isinstance e default_allowed_exceptions = true
      /\ resp = llm_unavailable (incident_of E alert))
  \/ (exists result w1 merged status resolution,
        retry_default (call (kickoff E alert)) w = (Ok result, w1)
        /\ merge_resolution (fst (extract_outputs result))
                            (snd (extract_outputs result)) = Ok merged
        /\ final_decision merged = Ok (status, resolution)
        /\ resp = response status (incident_of E alert) resolution
        /\ w' = mkWorld (calls w1) (slept w1)
                  (audit_items w1
                   ++ [audit_item (incident_of E alert) (now_isoformat E)
                                  resolution result status])).
Proof.
  unfold process_alert.
  destruct (retry_default (call (kickoff E alert)) w) as [[result|e] w1] eqn:Er.
  - destruct (extract_outputs result) as [pa pe] eqn:Ex.
    destruct (merge_resolution pa pe) as [merged|e] eqn:Em; [|discriminate].
    destruct (final_decision merged) as [[status resolution]|e] eqn:Ed; [|discriminate].
    unfold put_item. destruct (table_put E _) as [u|e]; [|discriminate].
    intros H. injection H as <- <-. right.
    exists result, w1, merged, status, resolution. rewrite Ex.
    repeat split; assumption.
  - change [RateLimitError; APIError] with default_allowed_exceptions.
    destruct (isinstance e default_allowed_exceptions) eqn:Ei; [|discriminate].
    intros H. injection H as <- <-. left. exists e. now repeat split.
Qed.

Lemma process_alert_raises_inv (E : env) (alert : Alert) (w w' : world) (e : exn) :
  process_alert E alert w = (Raise e, w') ->
  exists r, retry_default (call (kickoff E alert)) w = (r, w').
Proof.
  unfold process_alert.
  destruct (retry_default (call (kickoff E alert)) w) as [[result|e0] w1] eqn:Er.
  - destruct (extract_outputs result) as [pa pe].
    destruct (merge_resolution pa pe) as [merged|e1];
      [|intros H; injection H as <- <-; eexists; reflexivity].
    destruct (final_decision merged) as [[status resolution]|e1];
      [|intros H; injection H as <- <-; eexists; reflexivity].
    unfold put_item. destruct (table_put E _) as [u|e1]; [discriminate|].
    intros H; injection H as <- <-; eexists; reflexivity.
  - destruct (isinstance e0 _); [discriminate|].
    intros H; injection H as <- <-; eexists; reflexivity.
Qed.

Lemma retry_default_audit {A} (o : nat -> result A) (w : world) :
  audit_items (snd (retry_default (call o) w)) = audit_items w.
Proof.
  unfold retry_default, exponential_backoff_retry.
  apply retry_loop_calls_le.
Qed.

Lemma final_decision_status (merged resolution : dict) (status : string) :
  final_decision merged = Ok (status, resolution) ->
  status = "resolved" \/ status = "pending_human".
Proof.
  unfold final_decision. destruct (py_float _) as [c|e]; [|discriminate].
  cbn [rbind]. destruct (is_True _).
  - intros H. injection H as <- _. now left.
  - destruct (c <? 0.8)%float; intros H; injection H as <- _; [now right | now left].
Qed.

Lemma process_alert_world (E : env) (alert : Alert) (w : world) :
  calls (snd (process_alert E alert w))
  = calls (snd (retry_default (call (kickoff E alert)) w))
  /\ slept (snd (process_alert E alert w))
     = slept (snd (retry_default (call (kickoff E alert)) w)).
Proof.
  unfold process_alert.
  destruct (retry_default (call (kickoff E alert)) w) as [[result|e0] w1].
  - destruct (extract_outputs result) as [pa pe].
    destruct (merge_resolution pa pe) as [merged|e1]; [|now split].
    destruct (final_decision merged) as [[status resolution]|e1]; [|now split].
    unfold put_item. destruct (table_put E _) as [u|e1]; now split.
  - destruct (isinstance e0 _); now split.
Qed.

(** X5: a run of the endpoint writes one audit item at most.  A run that
    raises writes none; a run that returns either gives the response of the
    unavailable reasoning service and writes none, or gives a response with
    status resolved or pending_human and writes the one item made of the
    resolution and the status of that response. *)
Theorem process_alert_writes_at_most_one_item :
  forall (E : env) (alert : Alert) (w : world),
    let out := process_alert E alert w in
    match fst out with
    | Raise _ => audit_items (snd out) = audit_items w
    | Ok resp =>
        (resp = llm_unavailable (incident_of E alert)
         /\ audit_items (snd out) = audit_items w)
        \/ exists status resolution result,
             resp = response status (incident_of E alert) resolution
             /\ (status = "resolved" \/ status = "pending_human")
             /\ audit_items (snd out)
                = audit_items w
                  ++ [audit_item (incident_of E alert) (now_isoformat E)
                                 resolution result status]
    end.
Proof.
  intros E alert w out. subst out.
  pose proof (retry_default_audit (kickoff E alert) w) as Ha.
  destruct (process_alert E alert w) as [[resp|e] w'] eqn:Ep; cbn [fst snd].
  - destruct (process_alert_returns_inv E alert w w' resp Ep)
      as [(e & Hr & _ & ->) | (result & w1 & merged & status & resolution
                               & Hr & _ & Hd & -> & ->)];
      rewrite Hr in Ha; cbn [snd] in Ha.
    + left. now split.
    + right. exists status, resolution, result. cbn [audit_items]. rewrite Ha.
      split; [reflexivity|]. split; [|reflexivity].
      exact (final_decision_status merged resolution status Hd).
  - destruct (process_alert_raises_inv E alert w w' e Ep) as [r Hr].
    rewrite Hr in Ha. exact Ha.
Qed.

(** X6: whatever the collaborators do, a run of the endpoint makes one, two
    or three reasoning calls and sleeps, between them, the first waits of 1,
    2 and 4 seconds. *)
Theorem process_alert_calls_and_waits :
  forall (E : env) (alert : Alert) (w : world),
    let w' := snd (process_alert E alert w) in
    (calls w < calls w' <= calls w + 3)%nat
    /\ exists j, slept w' = slept w ++ firstn j default_waits.
Proof.
  intros E alert w w'. subst w'.
  destruct (process_alert_world E alert w) as [-> ->].
  destruct (retry_default_shape (kickoff E alert) w) as (n & j & Hn & -> & _).
  cbn [snd calls slept]. split; [lia|]. now exists j.
Qed.

(** X7: an error of the reasoning call that is neither a rate limit nor a
    service error, whatever its class, is raised by the endpoint to its
    caller as it is, at the first attempt or after transient failures; no
    audit item is written for the incident. *)
Theorem process_alert_hard_failure :
  forall (E : env) (alert : Alert) (w : world) (k : nat) (e : exn),
    (k <= 2)%nat ->
    (forall i, (i < k)%nat ->
       exists e', kickoff E alert (calls w + i)%nat = Raise e' /\ transient e') ->
    kickoff E alert (calls w + k)%nat = Raise e ->
    ~ transient e ->
    process_alert E alert w
    = (Raise e,
       mkWorld (calls w + k + 1) (slept w ++ firstn k default_waits)
               (audit_items w)).
Proof.
  intros E alert w k e Hk Hbefore He Hnt.
  pose proof (not_transient_not_allowed e Hnt) as Hna.
  unfold process_alert.
  rewrite (retry_default_first_stop (kickoff E alert) w k Hk).
  - rewrite He. change [RateLimitError; APIError] with default_allowed_exceptions.
    now rewrite Hna.
  - intros i Hi. destruct (Hbefore i Hi) as (e' & He' & Ht).
    exists e'. split; [exact He' | now apply transient_allowed].
  - intros e' He'. rewrite He in He'. injection He' as <-. exact Hna.
Qed.

Lemma process_alert_hard_failure_witness :
  ~ transient auth_failed
  /\ process_alert
       (mkEnv (fun _ => auth_fails_at crew_output 1)
              "generated-uuid" "2024-01-01T00:00:00" (fun _ => Ok tt))
       alert0 world0
     = (Raise auth_failed, mkWorld 2 [1%float] []).
Proof.
  assert (Hnt : ~ transient auth_failed)
    by (intros [H | H]; discriminate H).
  split; [exact Hnt|].
  refine (process_alert_hard_failure
            (mkEnv (fun _ => auth_fails_at crew_output 1)
                   "generated-uuid" "2024-01-01T00:00:00" (fun _ => Ok tt))
            alert0 world0 1 auth_failed ltac:(lia) _ eq_refl Hnt).
  intros i Hi. assert (i = 0)%nat as -> by lia.
  exists rate_limited. split; [reflexivity | left; reflexivity].
Defined.

(** X8: transient failures before a result leave no trace in the response:
    when the reasoning call returns a result after one or two failures with
    a rate limit or a service error, the endpoint gives the response and
    writes the audit items it gives and writes when that result comes at the
    first attempt; only the calls made and the waits slept differ. *)
Theorem process_alert_retry_transparent :
  forall (E : env) (alert : Alert) (w : world) (k : nat) (result : crew_output),
    (k <= 2)%nat ->
    (forall i, (i < k)%nat ->
       exists e, kickoff E alert (calls w + i)%nat = Raise e /\ transient e) ->
    kickoff E alert (calls w + k)%nat = Ok result ->
    let out := process_alert E alert w in
    let out1 := process_alert (with_result E result) alert w in
    fst out = fst out1
    /\ audit_items (snd out) = audit_items (snd out1)
    /\ calls (snd out) = (calls w + k + 1)%nat
    /\ slept (snd out) = slept w ++ firstn k default_waits.
Proof.
  intros E alert w k result Hk Hbefore Hres out out1. subst out out1.
  assert (Hr : retry_default (call (kickoff E alert)) w
               = (Ok result,
                  mkWorld (calls w + k + 1) (slept w ++ firstn k default_waits)
                          (audit_items w))).
  { rewrite (retry_default_first_stop (kickoff E alert) w k Hk).
    - now rewrite Hres.
    - intros i Hi. destruct (Hbefore i Hi) as (e' & He' & Ht).
      exists e'. split; [exact He' | now apply transient_allowed].
    - intros e' He'. rewrite Hres in He'. discriminate. }
  assert (Hr1 : retry_default (call (kickoff (with_result E result) alert)) w
                = (Ok result,
                   mkWorld (calls w + 0 + 1) (slept w ++ firstn 0 default_waits)
                           (audit_items w))).
  { rewrite (retry_default_first_stop (kickoff (with_result E result) alert) w 0).
    - reflexivity.
    - lia.
    - intros i Hi. lia.
    - intros e' He'. discriminate. }
  unfold process_alert. rewrite Hr, Hr1.
  change (incident_of (with_result E result) alert) with (incident_of E alert).
  change (now_isoformat (with_result E result)) with (now_isoformat E).
  destruct (extract_outputs result) as [pa pe].
  destruct (merge_resolution pa pe) as [merged|e1]; [|now repeat split].
  destruct (final_decision merged) as [[status resolution]|e1]; [|now repeat split].
  unfold put_item. change (table_put (with_result E result)) with (table_put E).
  destruct (table_put E _) as [u|e1]; now repeat split.
Qed.

Lemma process_alert_retry_transparent_witness :
  let E := mkEnv (fun _ i => if Nat.eqb i 2 then Ok (crew_of "{}" "{}")
                             else Raise rate_limited)
                 "generated-uuid" "2024-01-01T00:00:00" (fun _ => Ok tt) in
  fst (process_alert E alert0 world0)
  = fst (process_alert (with_result E (crew_of "{}" "{}")) alert0 world0)
  /\ audit_items (snd (process_alert E alert0 world0))
     = audit_items (snd (process_alert (with_result E (crew_of "{}" "{}"))
                                       alert0 world0))
  /\ calls (snd (process_alert E alert0 world0)) = 3%nat
  /\ slept (snd (process_alert E alert0 world0)) = [1; 2]%float.
Proof.
  intros E.
  refine (process_alert_retry_transparent E alert0 world0 2 (crew_of "{}" "{}")
            ltac:(lia) _ eq_refl).
  intros i Hi. exists rate_limited.
  assert (i = 0 \/ i = 1)%nat as [-> | ->] by lia;
    (split; [reflexivity | left; reflexivity]).
Defined.

(** ** Keys that stay *)

Lemma dict_put_keeps (d : dict) (k v : pyval) (s : string) :
  dict_get d (PStr s) <> None -> dict_get (dict_put d k v) (PStr s) <> None.
Proof.
  intros H. rewrite dict_get_put. destruct (key_eqb k (PStr s)); [discriminate | exact H].
Qed.

Lemma overlay_keeps (o d : dict) (s : string) :
  dict_get d (PStr s) <> None -> dict_get (overlay d o) (PStr s) <> None.
Proof.
  revert d. induction o as [|[k v] o IH]; intros d H; [exact H|].
  unfold overlay in *. simpl. apply IH. now apply dict_put_keeps.
Qed.

Lemma dict_update_pairs_keeps (items : list pyval) (d d' : dict) (s : string) :
  dict_update_pairs d items = Ok d' ->
  dict_get d (PStr s) <> None -> dict_get d' (PStr s) <> None.
Proof.
  revert d. induction items as [|item items IH]; intros d Hu H.
  - simpl in Hu. injection Hu as <-. exact H.
  - simpl in Hu. destruct (py_iter item) as [[|k [|v [|x l]]]|e]; try discriminate.
    unfold dict_setitem in Hu. destruct (hashable k); [|discriminate].
    apply (IH _ Hu). now apply dict_put_keeps.
Qed.

Lemma dict_update_keeps (d d' : dict) (other : pyval) (s : string) :
  dict_update d other = Ok d' ->
  dict_get d (PStr s) <> None -> dict_get d' (PStr s) <> None.
Proof.
  unfold dict_update. intros Hu H.
  destruct other;
    try (destruct (py_iter _) as [items|e] eqn:Ei; [|discriminate];
         now apply (dict_update_pairs_keeps items d d' s Hu)).
  injection Hu as <-. now apply overlay_keeps.
Qed.

Lemma update_if_truthy_keeps (d d' : dict) (parsed : pyval) (s : string) :
  update_if_truthy d parsed = Ok d' ->
  dict_get d (PStr s) <> None -> dict_get d' (PStr s) <> None.
Proof.
  unfold update_if_truthy. destruct (py_truthy parsed).
  - apply dict_update_keeps.
  - intros Hu. injection Hu as <-. auto.
Qed.

Lemma flatten_command_id_keeps (d d' : dict) (s : string) :
  flatten_command_id d = Ok d' ->
  dict_get d (PStr s) <> None -> dict_get d' (PStr s) <> None.
Proof.
  unfold flatten_command_id.
  destruct (dict_get d (key "command_id")) as [[]|];
    try (intros Hu; injection Hu as <-; auto).
  destruct (str_join "," l) as [t|e]; [|discriminate].
  intros Hu; injection Hu as <-. apply dict_put_keeps.
Qed.

Lemma merge_resolution_keeps (pa pe : pyval) (merged : dict) (s : string) :
  merge_resolution pa pe = Ok merged ->
  dict_get default_resolution (PStr s) <> None -> dict_get merged (PStr s) <> None.
Proof.
  unfold merge_resolution.
  destruct (update_if_truthy default_resolution pa) as [r1|e] eqn:E1; [|discriminate].
  cbn [rbind].
  destruct (update_if_truthy r1 pe) as [r2|e] eqn:E2; [|discriminate].
  cbn [rbind]. intros Hf H.
  apply (flatten_command_id_keeps r2 merged s Hf).
  apply (update_if_truthy_keeps r1 r2 pe s E2).
  now apply (update_if_truthy_keeps default_resolution r1 pa s E1).
Qed.

Lemma final_decision_keeps (merged resolution : dict) (status s : string) :
  final_decision merged = Ok (status, resolution) ->
  dict_get merged (PStr s) <> None -> dict_get resolution (PStr s) <> None.
Proof.
  unfold final_decision. destruct (py_float _) as [c|e]; [|discriminate].
  cbn [rbind]. destruct (is_True _).
  - intros H. injection H as _ <-. apply dict_put_keeps.
  - destruct (c <? 0.8)%float; intros H; injection H as _ <-; auto.
Qed.

Lemma dict_get_same_keys (d1 d2 : dict) (k : pyval) :
  map fst d1 = map fst d2 -> dict_get d1 k = None -> dict_get d2 k = None.
Proof.
  revert d2. induction d1 as [|[k1 v1] d1 IH]; intros [|[k2 v2] d2] Hk;
    try discriminate; [reflexivity|].
  simpl in Hk. injection Hk as <- Hk. simpl.
  destruct (key_eqb k1 k); [discriminate|]. now apply IH.
Qed.

(** The resolution of every response has the fields of the defaults. *)
Lemma returned_resolution_has_defaults (E : env) (alert : Alert) (w w' : world)
    (resp : pyval) :
  process_alert E alert w = (Ok resp, w') ->
  exists resolution,
    py_getitem resp "resolution" = Ok (PDict resolution)
    /\ forall s, dict_get default_resolution (PStr s) <> None ->
                 dict_get resolution (PStr s) <> None.
Proof.
  intros Hp.
  destruct (process_alert_returns_inv E alert w w' resp Hp)
    as [(e & _ & _ & ->) | (result & w1 & merged & status & resolution
                            & _ & Hm & Hd & -> & _)].
  - eexists. split; [reflexivity|].
    intros s Hs Hn. apply Hs.
    revert Hn. apply dict_get_same_keys. reflexivity.
  - exists resolution. split; [reflexivity|].
    intros s Hs. apply (final_decision_keeps merged resolution status s Hd).
    now apply (merge_resolution_keeps _ _ merged s Hm).
Qed.

(** X9: the resolution of every response the endpoint returns has the six
    fields of the defaults (issue, root_cause, impact, resolution,
    confidence, executed), whatever the stages gave: the recovered fields can
    replace their values and add fields, never remove one. *)
Theorem returned_resolution_keeps_default_fields :
  forall (E : env) (alert : Alert) (w w' : world) (resp : pyval),
    process_alert E alert w = (Ok resp, w') ->
    exists resolution,
      py_getitem resp "resolution" = Ok (PDict resolution)
      /\ Forall (fun field => py_contains field (PDict resolution) = Ok true)
                ["issue"; "root_cause"; "impact"; "resolution"; "confidence";
                 "executed"].
Proof.
  intros E alert w w' resp Hp.
  destruct (returned_resolution_has_defaults E alert w w' resp Hp)
    as (resolution & Hr & Hk).
  exists resolution. split; [exact Hr|].
  assert (Hin : forall s, dict_get default_resolution (PStr s) <> None ->
                          py_contains s (PDict resolution) = Ok true).
  { intros s Hs. simpl. specialize (Hk s Hs).
    destruct (dict_get resolution (PStr s)); [reflexivity | contradiction]. }
  repeat constructor; apply Hin; discriminate.
Qed.

Lemma returned_resolution_keeps_default_fields_witness :
  let resp := response "pending_human" "generated-uuid" default_resolution in
  fst (process_alert (env_of "{}" "{}") alert0 world0) = Ok resp
  /\ exists resolution,
       py_getitem resp "resolution" = Ok (PDict resolution)
       /\ Forall (fun field => py_contains field (PDict resolution) = Ok true)
                 ["issue"; "root_cause"; "impact"; "resolution"; "confidence";
                  "executed"].
Proof.
  intros resp.
  assert (Hp : process_alert (env_of "{}" "{}") alert0 world0
               = (Ok resp, snd (process_alert (env_of "{}" "{}") alert0 world0)))
    by (vm_compute; reflexivity).
  split; [now rewrite Hp|].
  exact (returned_resolution_keeps_default_fields (env_of "{}" "{}") alert0 world0
           _ resp Hp).
Defined.

(** ** The command id of a response *)

Lemma flatten_command_id_no_list (d d' : dict) (l : list pyval) :
  flatten_command_id d = Ok d' ->
  dict_get d' (key "command_id") <> Some (PList l).
Proof.
  unfold flatten_command_id.
  destruct (dict_get d (key "command_id")) as [v|] eqn:E.
  - destruct v; try (intros H; injection H as <-; rewrite E; discriminate).
    destruct (str_join "," l0) as [t|e]; [|discriminate].
    intros H; injection H as <-. rewrite dict_get_put_same. discriminate.
  - intros H; injection H as <-. rewrite E. discriminate.
Qed.

Lemma final_decision_other_field (merged resolution : dict) (status s : string) :
  final_decision merged = Ok (status, resolution) ->
  s <> "confidence" ->
  dict_get resolution (key s) = dict_get merged (key s).
Proof.
  unfold final_decision. destruct (py_float _) as [c|e]; [|discriminate].
  cbn [rbind]. intros H Hs. destruct (is_True _).
  - injection H as _ <-. apply dict_get_put_other. congruence.
  - destruct (c <? 0.8)%float; injection H as _ <-; reflexivity.
Qed.

Lemma merge_resolution_no_list (pa pe : pyval) (merged : dict) (l : list pyval) :
  merge_resolution pa pe = Ok merged ->
  dict_get merged (key "command_id") <> Some (PList l).
Proof.
  unfold merge_resolution.
  destruct (update_if_truthy default_resolution pa) as [r1|e]; [|discriminate].
  cbn [rbind].
  destruct (update_if_truthy r1 pe) as [r2|e]; [|discriminate].
  cbn [rbind]. apply flatten_command_id_no_list.
Qed.

(** X10: the resolution of a response never has a list as its
    [command_id]: a list the stages gave is either joined into one text or
    makes the endpoint raise. *)
Theorem returned_command_id_is_no_list :
  forall (E : env) (alert : Alert) (w w' : world) (resp resolution : pyval)
         (l : list pyval),
    process_alert E alert w = (Ok resp, w') ->
    py_getitem resp "resolution" = Ok resolution ->
    py_getitem resolution "command_id" <> Ok (PList l).
Proof.
  intros E alert w w' resp resolution l Hp Hr.
  destruct (process_alert_returns_inv E alert w w' resp Hp)
    as [(e & _ & _ & ->) | (result & w1 & merged & status & res
                            & _ & Hm & Hd & -> & _)].
  - injection Hr as <-. discriminate.
  - injection Hr as <-. unfold py_getitem.
    rewrite (final_decision_other_field merged res status "command_id" Hd)
      by discriminate.
    pose proof (merge_resolution_no_list _ _ merged l Hm) as Hno.
    destruct (dict_get merged (key "command_id")); [|discriminate].
    intros H. injection H as ->. now apply Hno.
Qed.

Lemma returned_command_id_is_no_list_witness :
  let E := env_of "{}" (quoted "{'executed': true, 'command_id': ['cmd-1', 'cmd-2']}") in
  let resolution :=
    dict_put (dict_put (dict_put default_resolution (key "executed") (PBool true))
                       (key "command_id") (PStr "cmd-1,cmd-2"))
             (key "confidence") (PFloat 0.95) in
  fst (process_alert E alert0 world0)
  = Ok (response "resolved" "generated-uuid" resolution)
  /\ py_getitem (PDict resolution) "command_id"
     <> Ok (PList [PStr "cmd-1"; PStr "cmd-2"]).
Proof.
  intros E resolution.
  assert (Hp : process_alert E alert0 world0
               = (Ok (response "resolved" "generated-uuid" resolution),
                  snd (process_alert E alert0 world0)))
    by (vm_compute; reflexivity).
  split; [now rewrite Hp|].
  exact (returned_command_id_is_no_list E alert0 world0 _ _ (PDict resolution)
           [PStr "cmd-1"; PStr "cmd-2"] Hp eq_refl).
Defined.

(** ** The extraction of the stage outputs *)

Lemma parse_possible_json_returns (val : pyval) :
  exists v, _parse_possible_json val = Ok v.
Proof.
  unfold _parse_possible_json.
  destruct (negb (py_truthy val)); [eexists; reflexivity|].
  destruct val; try (eexists; reflexivity).
  destruct (json_loads s) as [v|e]; [eexists; reflexivity|].
  destruct (re_search_braces s) as [m|]; [|eexists; reflexivity].
  destruct (json_loads m); eexists; reflexivity.
Qed.

(** One turn of the loop on a task output whose agent name is a text. *)
Lemma extract_step_text (t : task_output) (st : pyval * pyval) (v : pyval) :
  agent_name_is_text t ->
  _parse_possible_json (raw_output_of t) = Ok v ->
  extract_step t st
  = ((if names "Resolution Generator" t then v else fst st,
      if names "Fix Executor" t then v else snd st), None).
Proof.
  intros [s Hs] Hv. unfold extract_step, names.
  fold (raw_output_of t). rewrite Hv, Hs. reflexivity.
Qed.

Lemma extract_loop_last (ts : list task_output) :
  Forall agent_name_is_text ts ->
  forall st,
    Ok (fst (extract_loop ts st))
    = match last_of "Resolution Generator" ts with
      | Some t => _parse_possible_json (raw_output_of t)
      | None => Ok (fst st)
      end
    /\ Ok (snd (extract_loop ts st))
       = match last_of "Fix Executor" ts with
         | Some t => _parse_possible_json (raw_output_of t)
         | None => Ok (snd st)
         end.
Proof.
  induction 1 as [|t ts Ht Hts IH]; intros st; [now split|].
  destruct (parse_possible_json_returns (raw_output_of t)) as [v Hv].
  cbn [extract_loop last_of]. rewrite (extract_step_text t st v Ht Hv).
  destruct (IH (if names "Resolution Generator" t then v else fst st,
                if names "Fix Executor" t then v else snd st)) as [IH1 IH2].
  rewrite IH1, IH2. cbn [fst snd]. split.
  - destruct (last_of "Resolution Generator" ts); [reflexivity|].
    destruct (names "Resolution Generator" t); [now rewrite Hv | reflexivity].
  - destruct (last_of "Fix Executor" ts); [reflexivity|].
    destruct (names "Fix Executor" t); [now rewrite Hv | reflexivity].
Qed.

(** X11: when the agent names of the task outputs are texts, the mapping
    kept for the Analyze stage is what the recovery makes of the output of
    the last task whose agent name has "Resolution Generator" in it, and the
    mapping kept for the Execute-decision stage that of the last task whose
    agent name has "Fix Executor" in it; a role that no task has leaves the
    empty mapping.  The output read is [raw], else [output], else the text of
    the task. *)
Theorem extract_outputs_keeps_last_of_each_role :
  forall (result : crew_output),
    Forall agent_name_is_text (tasks_output result) ->
    Ok (fst (extract_outputs result))
    = recovered_of "Resolution Generator" (tasks_output result)
    /\ Ok (snd (extract_outputs result))
       = recovered_of "Fix Executor" (tasks_output result).
Proof.
  intros result H. unfold extract_outputs, recovered_of.
  exact (extract_loop_last (tasks_output result) H (empty_dict, empty_dict)).
Qed.

Lemma extract_outputs_keeps_last_of_each_role_witness :
  let result :=
    mkCrew [stage "Resolution Generator" (quoted "{'confidence': 0.5}");
            stage "Fix Executor" (quoted "{'executed': false}");
            stage "Resolution Generator" (quoted "{'confidence': 0.9}")]
           "done" in
  Forall agent_name_is_text (tasks_output result)
  /\ Ok (fst (extract_outputs result))
     = _parse_possible_json (PStr (quoted "{'confidence': 0.9}"))
  /\ Ok (snd (extract_outputs result))
     = _parse_possible_json (PStr (quoted "{'executed': false}")).
Proof.
  intros result.
  assert (H : Forall agent_name_is_text (tasks_output result))
    by (repeat constructor; eexists; reflexivity).
  split; [exact H|].
  exact (extract_outputs_keeps_last_of_each_role result H).
Defined.

(** One turn of the loop on a task output that has neither role. *)
Lemma extract_step_no_role (t : task_output) (st : pyval * pyval) :
  names "Resolution Generator" t = false ->
  names "Fix Executor" t = false ->
  fst (extract_step t st) = st.
Proof.
  unfold extract_step, names. intros Ha He.
  destruct (_parse_possible_json _) as [v|e]; [|reflexivity].
  destruct (py_contains "Resolution Generator" _) as [a|e]; [|reflexivity].
  subst a.
  destruct (py_contains "Fix Executor" _) as [x|e].
  - subst x. now destruct st.
  - now destruct st.
Qed.

Lemma extract_loop_no_role (ts : list task_output) (st : pyval * pyval) :
  Forall (fun t => names "Resolution Generator" t = false
                   /\ names "Fix Executor" t = false) ts ->
  extract_loop ts st = st.
Proof.
  induction 1 as [|t ts [Ha He] Hts IH]; [reflexivity|].
  cbn [extract_loop].
  pose proof (extract_step_no_role t st Ha He) as Hs.
  destruct (extract_step t st) as [st' [e|]]; cbn [fst] in Hs; subst st'.
  - reflexivity.
  - exact IH.
Qed.

(** X12: when the reasoning call returns a result in which no task output
    has an agent name with "Resolution Generator" or "Fix Executor" in it
    (a result without task outputs is one), and the audit table accepts the
    item, the endpoint returns status pending_human with the default
    resolution, and writes the audit item of that resolution with the human
    intervention it asks for. *)
Theorem process_alert_defaults_without_stage_output :
  forall (E : env) (alert : Alert) (w : world) (result : crew_output),
    kickoff E alert (calls w) = Ok result ->
    Forall (fun t => names "Resolution Generator" t = false
                     /\ names "Fix Executor" t = false)
           (tasks_output result) ->
    table_put E (audit_item (incident_of E alert) (now_isoformat E)
                            default_resolution result "pending_human") = Ok tt ->
    process_alert E alert w
    = (Ok (response "pending_human" (incident_of E alert) default_resolution),
       mkWorld (S (calls w)) (slept w)
               (audit_items w
                ++ [audit_item (incident_of E alert) (now_isoformat E)
                               default_resolution result "pending_human"]))
    /\ py_getitem (audit_item (incident_of E alert) (now_isoformat E)
                              default_resolution result "pending_human")
                  "human_intervention" = Ok (PBool true).
Proof.
  intros E alert w result Hk Hno Hput. split; [|reflexivity].
  assert (Hr : retry_default (call (kickoff E alert)) w
               = (Ok result, mkWorld (S (calls w)) (slept w) (audit_items w))).
  { unfold retry_default, exponential_backoff_retry.
    change (Z.to_nat 3) with 3%nat. now apply retry_loop_returns. }
  rewrite (process_alert_decided E alert w _ result default_resolution
             default_resolution "pending_human" Hr).
  - reflexivity.
  - unfold extract_outputs. rewrite (extract_loop_no_role _ _ Hno). reflexivity.
  - vm_compute. reflexivity.
  - exact Hput.
Qed.

Lemma process_alert_defaults_without_stage_output_witness :
  let E := mkEnv (fun _ _ => Ok (mkCrew [stage "Incident Classifier" "database"]
                                        "database"))
                 "generated-uuid" "2024-01-01T00:00:00" (fun _ => Ok tt) in
  fst (process_alert E alert0 world0)
  = Ok (response "pending_human" "generated-uuid" default_resolution)
  /\ List.length (audit_items (snd (process_alert E alert0 world0))) = 1%nat.
Proof.
  intros E.
  pose proof (process_alert_defaults_without_stage_output E alert0 world0
                (mkCrew [stage "Incident Classifier" "database"] "database")
                eq_refl
                ltac:(repeat constructor) eq_refl) as [H _].
  rewrite H. split; reflexivity.
Defined.

Lemma extract_loop_app (ts rest : list task_output) :
  Forall agent_name_is_text ts ->
  forall st, extract_loop (ts ++ rest) st = extract_loop rest (extract_loop ts st).
Proof.
  induction 1 as [|t ts Ht Hts IH]; intros st; [reflexivity|].
  destruct (parse_possible_json_returns (raw_output_of t)) as [v Hv].
  cbn [app extract_loop]. rewrite (extract_step_text t st v Ht Hv). apply IH.
Qed.

Lemma extract_step_stops (t : task_output) (st : pyval * pyval) (e : exn) :
  py_contains "Resolution Generator" (py_or (agent t) (PStr EmptyString)) = Raise e ->
  extract_step t st = (st, Some e).
Proof.
  intros He. unfold extract_step.
  destruct (parse_possible_json_returns
              (if py_truthy (py_or (raw t) (output t))
               then py_or (raw t) (output t) else PStr (task_str t))) as [v ->].
  now rewrite He.
Qed.

(** X25: a task output whose agent name is no text and no container (the
    test of the role raises on it) ends the extraction without a word: the
    mappings kept are those of the task outputs before it, and the outputs
    after it are not read, those of the two roles among them. *)
Theorem extraction_ends_at_first_bad_agent_name :
  forall (before after : list task_output) (t : task_output) (e : exn)
         (text : string),
    Forall agent_name_is_text before ->
    py_contains "Resolution Generator" (py_or (agent t) (PStr EmptyString))
    = Raise e ->
    extract_outputs (mkCrew (before ++ t :: after) text)
    = extract_outputs (mkCrew before text).
Proof.
  intros before after t e text Hb He. unfold extract_outputs.
  cbn [tasks_output]. rewrite (extract_loop_app before (t :: after) Hb).
  cbn [extract_loop]. now rewrite (extract_step_stops t _ e He).
Qed.

Lemma extraction_ends_at_first_bad_agent_name_witness :
  extract_outputs
    (mkCrew ([stage "Resolution Generator" (quoted "{'confidence': 0.9}")]
             ++ mkTask (PInt 7) (PStr "{}") PNone "{}"
                :: [stage "Fix Executor" (quoted "{'executed': true}")])
            "done")
  = extract_outputs
      (mkCrew [stage "Resolution Generator" (quoted "{'confidence': 0.9}")] "done").
Proof.
  refine (extraction_ends_at_first_bad_agent_name
            [stage "Resolution Generator" (quoted "{'confidence': 0.9}")]
            [stage "Fix Executor" (quoted "{'executed': true}")]
            (mkTask (PInt 7) (PStr "{}") PNone "{}")
            (mkExn TypeError "argument is not iterable") "done" _ eq_refl).
  repeat constructor. eexists. reflexivity.
Defined.

(** ** The conversion of floats *)

(** Induction on a Python value, through the elements of a list and the
    values of a dict. *)
Lemma pyval_values_ind (P : pyval -> Prop) :
  P PNone ->
  (forall b, P (PBool b)) ->
  (forall z, P (PInt z)) ->
  (forall f, P (PFloat f)) ->
  (forall s, P (PStr s)) ->
  (forall l, Forall P l -> P (PList l)) ->
  (forall d, Forall (fun kv => P (snd kv)) d -> P (PDict d)) ->
  (forall f, P (PDecimal f)) ->
  forall v, P v.
Proof.
  intros HN HB HI HF HS HL HD HC.
  fix IH 1. intros [ | b | z | f | s | l | d | f ].
  - exact HN.
  - apply HB.
  - apply HI.
  - apply HF.
  - apply HS.
  - apply HL. induction l as [|x l IHl]; constructor; [apply IH | exact IHl].
  - apply HD. induction d as [|[k x] d IHd]; constructor; [apply IH | exact IHd].
  - apply HC.
Qed.

Lemma convert_floats_no_float (obj : pyval) : no_float (convert_floats obj) = true.
Proof.
  induction obj as [ | b | z | f | s | l Hl | d Hd | f ] using pyval_values_ind;
    try reflexivity.
  - simpl. rewrite forallb_forall. intros y Hy.
    apply in_map_iff in Hy as (x & <- & Hx).
    rewrite Forall_forall in Hl. now apply Hl.
  - simpl. rewrite forallb_forall. intros y Hy.
    apply in_map_iff in Hy as (x & <- & Hx).
    rewrite Forall_forall in Hd. simpl. now apply Hd.
Qed.





(** ** The audit item *)

Lemma audit_item_fields (incident now : string) (resolution : dict)
    (result : crew_output) (status : string) :
  py_getitem (audit_item incident now resolution result status) "incident_id"
  = Ok (PStr incident)
  /\ py_getitem (audit_item incident now resolution result status) "timestamp"
     = Ok (PStr now)
  /\ py_getitem (audit_item incident now resolution result status) "resolution"
     = Ok (convert_floats (PDict resolution))
  /\ py_getitem (audit_item incident now resolution result status) "actions"
     = Ok (PStr (crew_str result))
  /\ py_getitem (audit_item incident now resolution result status)
                "human_intervention"
     = Ok (PBool (String.eqb status "pending_human")).
Proof.
  repeat split; reflexivity.
Qed.

(** X14: the audit item a run writes mirrors the response it returns.  A
    run that returns is one of two.  Either every attempt of the reasoning
    call failed with a rate limit or a service error: the response is that
    of the unavailable reasoning service and nothing is written.  Or the
    reasoning call gave a result: one item is appended, which the table
    accepted, and it has the incident id of the response, the conversion of
    its resolution, the clock's reading as its timestamp, the text of the
    crew's result as its actions, and a human intervention flag that is
    true exactly when the status of the response is pending_human; no float
    is left among the values of the item. *)
Theorem audit_item_mirrors_response :
  forall (E : env) (alert : Alert) (w w' : world) (resp : pyval),
    process_alert E alert w = (Ok resp, w') ->
    ((exists e, retry_default (call (kickoff E alert)) w = (Raise e, w')
                /\ isinstance e default_allowed_exceptions = true)
     /\ resp = llm_unavailable (incident_of E alert)
     /\ audit_items w' = audit_items w)
    \/ (exists result w1 item status resolution,
          retry_default (call (kickoff E alert)) w = (Ok result, w1)
          /\ audit_items w' = audit_items w ++ [item]
          /\ table_put E item = Ok tt
          /\ py_getitem resp "status" = Ok (PStr status)
          /\ py_getitem resp "resolution" = Ok resolution
          /\ py_getitem item "incident_id" = py_getitem resp "incident_id"
          /\ py_getitem item "resolution" = Ok (convert_floats resolution)
          /\ py_getitem item "timestamp" = Ok (PStr (now_isoformat E))
          /\ py_getitem item "actions" = Ok (PStr (crew_str result))
          /\ py_getitem item "human_intervention"
             = Ok (PBool (String.eqb status "pending_human"))
          /\ no_float item = true).
Proof.
  intros E alert w w' resp Hp.
  pose proof (retry_default_audit (kickoff E alert) w) as Ha.
  unfold process_alert in Hp.
  destruct (retry_default (call (kickoff E alert)) w) as [[result|e] w1] eqn:Er;
    cbn [snd] in Ha.
  - right.
    destruct (extract_outputs result) as [pa pe].
    destruct (merge_resolution pa pe) as [merged|e]; [|discriminate].
    destruct (final_decision merged) as [[status resolution]|e]; [|discriminate].
    unfold put_item in Hp.
    destruct (table_put E _) as [[]|e] eqn:Et; [|discriminate].
    injection Hp as <- <-.
    exists result, w1,
           (audit_item (incident_of E alert) (now_isoformat E) resolution result
                       status), status, (PDict resolution).
    cbn [audit_items]. rewrite Ha.
    repeat split; try reflexivity; [exact Et|].
    apply convert_floats_no_float.
  - left.
    change [RateLimitError; APIError] with default_allowed_exceptions in Hp.
    destruct (isinstance e default_allowed_exceptions) eqn:Ei; [|discriminate].
    injection Hp as <- <-.
    split; [exists e; now split|]. now split.
Qed.

Lemma audit_item_mirrors_response_witness :
  let E := env_of (quoted "{'confidence': 0.9}") "{}" in
  let resolution := dict_put default_resolution (key "confidence") (PFloat 0.9) in
  let resp := response "resolved" "generated-uuid" resolution in
  let written :=
    audit_item "generated-uuid" "2024-01-01T00:00:00" resolution
               (crew_of (quoted "{'confidence': 0.9}") "{}") "resolved" in
  process_alert E alert0 world0 = (Ok resp, mkWorld 1 [] [written])
  /\ exists result w1 item status resolution,
       retry_default (call (kickoff E alert0)) world0 = (Ok result, w1)
       /\ [written] = [] ++ [item]
       /\ table_put E item = Ok tt
       /\ py_getitem resp "status" = Ok (PStr status)
       /\ py_getitem resp "resolution" = Ok resolution
       /\ py_getitem item "incident_id" = py_getitem resp "incident_id"
       /\ py_getitem item "resolution" = Ok (convert_floats resolution)
       /\ py_getitem item "timestamp" = Ok (PStr "2024-01-01T00:00:00")
       /\ py_getitem item "actions" = Ok (PStr (crew_str result))
       /\ py_getitem item "human_intervention"
          = Ok (PBool (String.eqb status "pending_human"))
       /\ no_float item = true.
Proof.
  intros E resolution resp written.
  assert (Hp : process_alert E alert0 world0 = (Ok resp, mkWorld 1 [] [written]))
    by (vm_compute; reflexivity).
  split; [exact Hp|].
  destruct (audit_item_mirrors_response E alert0 world0 (mkWorld 1 [] [written])
              resp Hp) as [((e & He & _) & _) | H].
  - exfalso. vm_compute in He. discriminate He.
  - exact H.
Defined.

(** ** What the recovery can give *)

Lemma from_first_open_head (s t : list ascii) :
  from_first_open s = Some t -> exists r, t = "{"%char :: r.
Proof.
  induction s as [|c s IH]; [discriminate|].
  simpl. destruct (Ascii.eqb c "{"%char) eqn:E; [|exact IH].
  intros H. injection H as <-. apply Ascii.eqb_eq in E. subst c. now exists s.
Qed.

Lemma re_search_braces_head (val m : string) :
  re_search_braces val = Some m -> exists r, chars m = "{"%char :: r.
Proof.
  unfold re_search_braces.
  destruct (from_first_open (chars val)) as [[|c r]|] eqn:E; try discriminate.
  destruct (upto_last_close r) as [p|]; [|discriminate].
  intros H. injection H as <-.
  apply from_first_open_head in E as [r' E]. injection E as -> _.
  exists p. unfold chars.
  exact (list_ascii_of_string_of_list_ascii ("{"%char :: p)).
Qed.

(** A text that starts with an opening brace decodes to a mapping or not at
    all. *)
Lemma json_loads_open_brace (m : string) (r : list ascii) (v : pyval) :
  chars m = "{"%char :: r -> json_loads m = Ok v -> exists d, v = PDict d.
Proof.
  intros Hm. unfold json_loads. rewrite Hm.
  destruct (strip_prefix _ _); [discriminate|].
  change (skip_ws ("{"%char :: r)) with ("{"%char :: r).
  destruct (scan_once _ _) as [v' rest| |] eqn:E; try discriminate.
  destruct (skip_ws rest); [|discriminate].
  intros H. injection H as ->.
  destruct (scan_fuel ("{"%char :: r)) as [|f]; [discriminate|].
  cbn [scan_once] in E. change (Ascii.eqb "{" "034")%char with false in E.
  change (Ascii.eqb "{" "{")%char with true in E. cbv iota in E.
  destruct (skip_ws r) as [|c1 r1]; [discriminate|].
  destruct (Ascii.eqb c1 "}"%char).
  { injection E as <- _. now exists []. }
  destruct (Ascii.eqb c1 "034"%char); [|discriminate].
  apply object_loop_nodup in E as (d & -> & _); [now exists d | constructor].
Qed.

Lemma parse_possible_json_mapping_or_document (val : pyval) :
  exists v,
    _parse_possible_json val = Ok v
    /\ ((exists d, v = PDict d)
        \/ (exists s, val = PStr s /\ json_loads s = Ok v)).
Proof.
  unfold _parse_possible_json.
  destruct (negb (py_truthy val));
    [exists empty_dict; split; [reflexivity | left; now exists []]|].
  destruct val;
    try (exists empty_dict; split; [reflexivity | left; now exists []]).
  - destruct (json_loads s) as [v|e] eqn:E1.
    { exists v. split; [reflexivity|]. right. now exists s. }
    destruct (re_search_braces s) as [m|] eqn:Em;
      [|exists empty_dict; split; [reflexivity | left; now exists []]].
    destruct (json_loads m) as [v|e'] eqn:E2;
      [|exists empty_dict; split; [reflexivity | left; now exists []]].
    exists v. split; [reflexivity|]. left.
    destruct (re_search_braces_head s m Em) as [r Hr].
    exact (json_loads_open_brace m r v Hr E2).
  - exists (PDict d). split; [reflexivity|]. left. now exists d.
Qed.

(** X15: the recovery returns, and what it returns is a mapping, unless the
    whole text is itself a JSON document of another kind (a number, a text,
    a list, a constant), which is then returned as it is: the brace span of
    the fallback can only give a mapping. *)
Theorem recovery_gives_mapping_or_whole_document :
  forall (val : pyval),
  exists v,
    _parse_possible_json val = Ok v
    /\ ((exists d, v = PDict d)
        \/ (exists s, val = PStr s /\ json_loads s = Ok v)).
Proof.
  exact parse_possible_json_mapping_or_document.
Qed.

(** ** More on the retrieval *)

Lemma leb_not_ltb (a b : float) :
  (b <=? a)%float = true -> (a <? b)%float = false.
Proof.
  rewrite ltb_spec, leb_spec. unfold SFltb, SFleb.
  rewrite (SFcompare_antisym (Prim2SF a) (Prim2SF b)).
  destruct (SFcompare (Prim2SF a) (Prim2SF b)) as [[| |]|]; simpl; congruence.
Qed.

Lemma map_fst_combine (docs : list pyval) (scores : list float) :
  map fst (combine docs scores) = firstn (List.length scores) docs.
Proof.
  revert scores. induction docs as [|d docs IH]; intros [|s scores];
    try reflexivity.
  simpl. now rewrite IH.
Qed.

(** The run on candidates that got their scores. *)
Lemma run_ranked (R : rag_env) (query : string) (emb : pyval)
    (docs : list pyval) (scores : list float) :
  embedding R query = Ok emb -> py_truthy emb = true ->
  candidates R emb = Ok docs ->
  predict R (map (fun doc => (query, doc)) docs) = Ok scores ->
  _run R query = Ok (map fst (firstn 3 (sorted_desc (combine docs scores)))).
Proof.
  intros He Ht Hc Hp. unfold _run. rewrite run_body_stages, He. cbn [rbind].
  rewrite Ht. cbn [negb]. rewrite Hc. cbn [rbind].
  destruct docs as [|d docs]; [reflexivity|]. now rewrite Hp.
Qed.

(** X16: what the retrieval returns is taken from the candidates that got
    a score: the documents kept and the documents left out are, together, a
    rearrangement of those candidates, none is made up and none is returned
    twice over its occurrences; the number kept is three, or the number of
    candidates or of scores when one is smaller. *)
Theorem retrieval_keeps_scored_candidates :
  forall (R : rag_env) (query : string) (emb : pyval) (docs : list pyval)
         (scores : list float),
    embedding R query = Ok emb -> py_truthy emb = true ->
    candidates R emb = Ok docs ->
    predict R (map (fun doc => (query, doc)) docs) = Ok scores ->
    exists kept left_out,
      _run R query = Ok kept
      /\ Permutation (kept ++ left_out) (firstn (List.length scores) docs)
      /\ List.length kept
         = Nat.min 3 (Nat.min (List.length docs) (List.length scores))
      /\ forall doc, In doc kept -> In doc docs.
Proof.
  intros R query emb docs scores He Ht Hc Hp.
  set (ranked := sorted_desc (combine docs scores)).
  assert (Hperm : Permutation (map fst (firstn 3 ranked) ++ map fst (skipn 3 ranked))
                              (firstn (List.length scores) docs)).
  { rewrite <- map_app, firstn_skipn, <- map_fst_combine.
    apply Permutation_map, sorted_desc_perm. }
  exists (map fst (firstn 3 ranked)), (map fst (skipn 3 ranked)).
  split; [now apply (run_ranked R query emb)|].
  split; [exact Hperm|]. split.
  - rewrite length_map, length_firstn. unfold ranked.
    rewrite (Permutation_length (sorted_desc_perm (combine docs scores))).
    now rewrite length_combine.
  - intros doc Hin.
    assert (Hin' : In doc (firstn (List.length scores) docs)).
    { apply (Permutation_in doc Hperm). apply in_or_app. now left. }
    rewrite <- (firstn_skipn (List.length scores) docs).
    apply in_or_app. now left.
Qed.

Lemma retrieval_keeps_scored_candidates_witness :
  exists kept left_out,
    _run rag_fixture "DB timeout" = Ok kept
    /\ Permutation (kept ++ left_out)
                   (firstn 2 [PStr "runbook-other"; PStr "runbook-db-timeout"])
    /\ List.length kept = Nat.min 3 (Nat.min 2 2)
    /\ forall doc, In doc kept ->
                   In doc [PStr "runbook-other"; PStr "runbook-db-timeout"].
Proof.
  exact (retrieval_keeps_scored_candidates rag_fixture "DB timeout"
           (PList [PFloat 0.1; PFloat 0.2; PFloat 0.3])
           [PStr "runbook-other"; PStr "runbook-db-timeout"] [0.1; 0.9]%float
           ltac:(vm_compute; reflexivity) eq_refl eq_refl eq_refl).
Defined.

Lemma sorted_desc_descending (scores : list float) :
  descending scores = true ->
  forall docs, sorted_desc (combine docs scores) = combine docs scores.
Proof.
  induction scores as [|a scores IH]; intros Hd docs.
  - now destruct docs.
  - destruct docs as [|d docs]; [reflexivity|].
    cbn [combine]. unfold sorted_desc. cbn [fold_right].
    fold (sorted_desc (combine docs scores)).
    destruct scores as [|b scores].
    + destruct docs; reflexivity.
    + cbn [descending] in Hd. apply andb_prop in Hd as [Hba Hd].
      rewrite (IH Hd docs).
      destruct docs as [|d' docs]; [reflexivity|].
      cbn [combine insert_desc snd]. now rewrite (leb_not_ltb a b Hba).
Qed.

(** X17: the ranking is stable: when the scores come in descending order,
    ties among them, the documents returned are the first three candidates
    in the order of the search. *)
Theorem retrieval_keeps_search_order_on_descending_scores :
  forall (R : rag_env) (query : string) (emb : pyval) (docs : list pyval)
         (scores : list float),
    embedding R query = Ok emb -> py_truthy emb = true ->
    candidates R emb = Ok docs ->
    predict R (map (fun doc => (query, doc)) docs) = Ok scores ->
    List.length scores = List.length docs ->
    descending scores = true ->
    _run R query = Ok (firstn 3 docs).
Proof.
  intros R query emb docs scores He Ht Hc Hp Hlen Hd.
  rewrite (run_ranked R query emb docs scores He Ht Hc Hp).
  rewrite (sorted_desc_descending scores Hd docs).
  rewrite <- firstn_map, map_fst_combine, Hlen, firstn_all. reflexivity.
Qed.

Lemma retrieval_keeps_search_order_on_descending_scores_witness :
  let R := mkRag (Ok tt)
                 (fun _ => Ok (quoted "{'embedding': [0.1, 0.2, 0.3]}"))
                 (fun _ _ =>
                    Ok (PDict [(key "hits",
                                PDict [(key "hits",
                                        PList [hit "a"; hit "b"; hit "c"; hit "d"])])]))
                 (fun _ => Ok [0.5; 0.5; 0.5; 0.2]%float) in
  descending [0.5; 0.5; 0.5; 0.2]%float = true
  /\ _run R "DB timeout" = Ok [PStr "a"; PStr "b"; PStr "c"].
Proof.
  intros R. split; [reflexivity|].
  exact (retrieval_keeps_search_order_on_descending_scores R "DB timeout"
           (PList [PFloat 0.1; PFloat 0.2; PFloat 0.3])
           [PStr "a"; PStr "b"; PStr "c"; PStr "d"] [0.5; 0.5; 0.5; 0.2]%float
           ltac:(vm_compute; reflexivity) eq_refl eq_refl eq_refl eq_refl eq_refl).
Defined.

(** ** The execution tool *)

Lemma isinstance_one (e : exn) (c : exn_class) :
  isinstance e [c] = true <-> exn_cls e = c.
Proof.
  unfold isinstance. simpl. rewrite orb_false_r.
  destruct (exn_cls e), c; simpl; split; intros H; try reflexivity;
    try discriminate.
Qed.


(** ** The check of the credentials *)

(** X19: the check of the credentials when the module is loaded lets the
    loading go on when the STS calls raise a ClientError (turned into a
    RuntimeError by [assert_aws_credentials]) and also when they raise a
    RuntimeError themselves; every other error of theirs is raised and stops
    the loading.  [assert_aws_credentials] itself never raises a
    ClientError. *)
Theorem startup_check_lets_client_errors_pass :
  forall (T : sts_env),
    startup_check T
    = match caller_identity T with
      | Ok u => Ok u
      | Raise e =>
          if isinstance e [ClientError; RuntimeError] then Ok tt else Raise e
      end
    /\ match assert_aws_credentials T with
       | Ok _ => caller_identity T = Ok tt
       | Raise e =>
           exn_cls e <> ClientError
           /\ exists e0, caller_identity T = Raise e0
       end.
Proof.
  intros T. unfold startup_check, assert_aws_credentials.
  destruct (caller_identity T) as [[]|e] eqn:Ec.
  - now split.
  - destruct (isinstance e [ClientError]) eqn:Ei.
    + apply isinstance_one in Ei. split.
      * unfold isinstance. rewrite Ei. reflexivity.
      * split; [discriminate | now exists e].
    + split.
      * unfold isinstance in *. simpl in *.
        destruct (exn_class_eqb (exn_cls e) ClientError); [discriminate|].
        simpl. now destruct (exn_class_eqb (exn_cls e) RuntimeError).
      * split; [|now exists e].
        intros Hc. apply isinstance_one in Hc. congruence.
Qed.

(** ** The validators *)

Lemma utf8_split_nonempty (s : list ascii) :
  Forall (fun g => g <> []) (utf8_split s).
Proof.
  induction s as [|c s IH]; [constructor|].
  simpl. destruct (utf8_split s) as [|g gs].
  - repeat constructor. discriminate.
  - destruct s as [|c' s']; [repeat constructor; discriminate|].
    inversion IH as [|? ? Hg Hgs]; subst.
    destruct (is_continuation c'); constructor; try discriminate;
      [assumption | now constructor].
Qed.

Lemma lstrip_spaces_all (s : list (list ascii)) :
  forallb isspace s = true -> lstrip_spaces s = [].
Proof.
  induction s as [|g s IH]; [reflexivity|].
  simpl. destruct (isspace g); [exact IH | discriminate].
Qed.

Lemma lstrip_spaces_some (s : list (list ascii)) :
  forallb isspace s = false ->
  exists g r, lstrip_spaces s = g :: r /\ isspace g = false
              /\ forall x, In x (g :: r) -> In x s.
Proof.
  induction s as [|g s IH]; [discriminate|].
  simpl. destruct (isspace g) eqn:Eg.
  - intros H. destruct (IH H) as (g' & r & -> & Hg' & Hin).
    exists g', r. repeat split; auto.
  - intros _. exists g, s. repeat split; auto.
Qed.

Lemma str_strip_blank (v : string) :
  py_truthy (PStr (str_strip v)) = negb (blank v).
Proof.
  unfold blank, str_strip.
  pose proof (utf8_split_nonempty (chars v)) as Hne.
  destruct (forallb isspace (utf8_split (chars v))) eqn:Eb.
  - now rewrite (lstrip_spaces_all _ Eb).
  - destruct (lstrip_spaces_some _ Eb) as (g & r & -> & Hg & Hin).
    assert (Eb' : forallb isspace (rev (g :: r)) = false).
    { simpl. rewrite forallb_app. simpl. rewrite Hg.
      now rewrite andb_false_r. }
    destruct (lstrip_spaces_some _ Eb') as (g' & r' & -> & _ & Hin').
    assert (Hg' : g' <> []).
    { rewrite Forall_forall in Hne. apply Hne, Hin.
      apply in_rev, Hin'. now left. }
    assert (In g' (rev (g' :: r'))) as Hlast by (apply in_rev; rewrite rev_involutive; now left).
    destruct (rev (g' :: r')) as [|h t] eqn:Er.
    { contradiction. }
    assert (Hh : h <> []).
    { rewrite Forall_forall in Hne. apply Hne, Hin. apply in_rev, Hin'.
      apply in_rev. rewrite Er. now left. }
    destruct h as [|c h]; [contradiction|]. reflexivity.
Qed.

(** X20: the validators of the description, that of the endpoint's alert
    and that of [models.py], accept the same texts: those with a character
    that is not white space, which they return as they are, the white space
    around them kept; a text that is white space from end to end, the empty
    one among them, is refused with a ValueError. *)
Theorem description_validators_refuse_blank_only :
  forall (v : string),
    description_not_blank v
    = (if blank v then Raise (mkExn ValueError "Description must not be blank")
       else Ok v)
    /\ models.desc_not_empty v
       = (if blank v then Raise (mkExn ValueError "Description cannot be empty")
          else Ok v).
Proof.
  intros v. unfold description_not_blank, models.desc_not_empty.
  rewrite str_strip_blank, negb_involutive. now split.
Qed.

(** X21: the severities that [models.py] accepts are the values of the
    members of [SeverityEnum], the severities of the endpoint's alert, and
    no other text. *)
Theorem severity_valid_accepts_enum_values :
  forall (v : string),
    (exists s : SeverityEnum, SeverityEnum_value s = v)
    <-> models.severity_valid v = Ok v.
Proof.
  intros v. unfold models.severity_valid. simpl. split.
  - intros [[] <-]; reflexivity.
  - destruct (String.eqb_spec v "low") as [-> | _]; [intros _; now exists low|].
    destruct (String.eqb_spec v "medium") as [-> | _]; [intros _; now exists medium|].
    destruct (String.eqb_spec v "high") as [-> | _]; [intros _; now exists high|].
    discriminate.
Qed.

(** ** The embedding at indexing and at retrieval *)

(** X22: the embedding of a text is read in the same way when a runbook is
    indexed and when a query is answered, as long as the response of the
    model has a non-empty [embedding]: [embed_text] then returns the
    embedding the retrieval searches with.  When the response has none, the
    retrieval returns no document, while [embed_text] falls back on the first
    of [embeddings] and raises when there is no such field. *)
Theorem embed_text_agrees_with_retrieval :
  forall (R : rag_env) (text : string) (emb : pyval),
    embedding R text = Ok emb ->
    (py_truthy emb = true -> embed_text (invoke_model R) text = Ok emb)
    /\ (py_truthy emb = false ->
        _run R text = Ok []
        /\ embed_text (invoke_model R) text
           = (body <- invoke_model R text ;;
              resp_body <- json_loads body ;;
              second <- py_get resp_body "embeddings" (PList []) ;;
              py_first second)%res
        /\ forall body resp_body,
             invoke_model R text = Ok body -> json_loads body = Ok resp_body ->
             py_contains "embeddings" resp_body = Ok false ->
             embed_text (invoke_model R) text
             = Raise (mkExn OtherError "list index out of range")).
Proof.
  intros R text emb He.
  assert (Hrun : py_truthy emb = false -> _run R text = Ok []).
  { intros Hf. unfold _run. rewrite run_body_stages, He. cbn [rbind].
    now rewrite Hf. }
  unfold embedding in He. unfold embed_text.
  destruct (get_opensearch_client R); [|discriminate]. cbn [rbind] in He.
  destruct (invoke_model R text) as [body|]; [|discriminate]. cbn [rbind] in *.
  destruct (json_loads body) as [resp_body|] eqn:Ej; [|discriminate].
  cbn [rbind] in *.
  destruct resp_body; try discriminate.
  unfold py_get in *. injection He as He. cbn [rbind].
  destruct (dict_get d (key "embedding")) as [v|] eqn:Ed; subst emb.
  - split.
    + intros Ht. now rewrite Ht.
    + intros Hf. rewrite Hf. split; [now apply Hrun|]. split; [reflexivity|].
      intros body' resp' Hb Hr Hc. injection Hb as <-.
      rewrite Ej in Hr. injection Hr as <-. simpl in Hc. unfold key.
      destruct (dict_get d (PStr "embeddings")); [discriminate | reflexivity].
  - split; [discriminate|].
    intros _. cbn [py_truthy]. split; [now apply Hrun|]. split; [reflexivity|].
    intros body' resp' Hb Hr Hc. injection Hb as <-.
    rewrite Ej in Hr. injection Hr as <-. simpl in Hc. unfold key.
    destruct (dict_get d (PStr "embeddings")); [discriminate | reflexivity].
Qed.

Lemma embed_text_agrees_with_retrieval_witness :
  embedding rag_fixture "DB timeout"
  = Ok (PList [PFloat 0.1; PFloat 0.2; PFloat 0.3])
  /\ embed_text (invoke_model rag_fixture) "DB timeout"
     = Ok (PList [PFloat 0.1; PFloat 0.2; PFloat 0.3]).
Proof.
  assert (H : embedding rag_fixture "DB timeout"
              = Ok (PList [PFloat 0.1; PFloat 0.2; PFloat 0.3]))
    by (vm_compute; reflexivity).
  split; [exact H|].
  exact (proj1 (embed_text_agrees_with_retrieval rag_fixture "DB timeout" _ H)
           eq_refl).
Defined.

(** X23: without the variable OPENSEARCH_URL, unset or empty, the client
    is not made and a RuntimeError is raised, which the retrieval turns into
    an empty list: no model is asked and nothing is searched. *)
Theorem retrieval_without_url_returns_nothing :
  forall (url : option string) (connect : result unit)
         (invoke : string -> result string)
         (search : string -> pyval -> result pyval)
         (score : list (string * pyval) -> result (list float)) (query : string),
    url = None \/ url = Some EmptyString ->
    get_opensearch_client_of url connect
    = Raise (mkExn RuntimeError "OPENSEARCH_URL not set in .env")
    /\ _run (mkRag (get_opensearch_client_of url connect) invoke search score) query
       = Ok [].
Proof.
  intros url connect invoke search score query [-> | ->]; split; reflexivity.
Qed.

Lemma retrieval_without_url_returns_nothing_witness :
  _run (mkRag (get_opensearch_client_of None (Ok tt))
              (invoke_model rag_fixture) (client_search rag_fixture)
              (predict rag_fixture))
       "DB timeout"
  = Ok [].
Proof.
  exact (proj2 (retrieval_without_url_returns_nothing None (Ok tt)
                  (invoke_model rag_fixture) (client_search rag_fixture)
                  (predict rag_fixture) "DB timeout" (or_introl eq_refl))).
Defined.

(** ** The errors of the endpoint *)

Lemma dict_update_pairs_raises (items : list pyval) (d : dict) (e : exn) :
  dict_update_pairs d items = Raise e ->
  exn_cls e = TypeError \/ exn_cls e = ValueError.
Proof.
  revert d. induction items as [|item items IH]; intros d; [discriminate|].
  simpl. destruct (py_iter item) as [[|k [|v [|x l]]]|e'];
    try (intros H; injection H as <-; auto).
  unfold dict_setitem. destruct (hashable k).
  - apply IH.
  - intros H; injection H as <-; auto.
Qed.

Lemma py_iter_raises (v : pyval) (e : exn) :
  py_iter v = Raise e -> exn_cls e = TypeError.
Proof.
  destruct v; simpl; try discriminate; intros H; injection H as <-; reflexivity.
Qed.

Lemma update_if_truthy_raises (d : dict) (parsed : pyval) (e : exn) :
  update_if_truthy d parsed = Raise e ->
  exn_cls e = TypeError \/ exn_cls e = ValueError.
Proof.
  unfold update_if_truthy. destruct (py_truthy parsed); [|discriminate].
  unfold dict_update.
  destruct parsed; try discriminate;
    (destruct (py_iter _) as [items|e'] eqn:Ei;
     [apply dict_update_pairs_raises
     |intros H; injection H as <-; left; now apply (py_iter_raises _ _ Ei)]).
Qed.

Lemma str_join_raises (sep : string) (items : list pyval) (e : exn) :
  str_join sep items = Raise e -> exn_cls e = TypeError.
Proof.
  induction items as [|x items IH]; [discriminate|].
  destruct x; try (simpl; intros H; injection H as <-; reflexivity).
  destruct items as [|y items]; [discriminate|].
  change (str_join sep (PStr s :: y :: items))
    with (match str_join sep (y :: items) with
          | Ok t => Ok (s ++ sep ++ t)%string
          | Raise e => Raise e
          end).
  destruct (str_join sep (y :: items)); [discriminate|].
  intros H; injection H as <-. now apply IH.
Qed.

Lemma merge_resolution_raises (pa pe : pyval) (e : exn) :
  merge_resolution pa pe = Raise e ->
  exn_cls e = TypeError \/ exn_cls e = ValueError.
Proof.
  unfold merge_resolution.
  destruct (update_if_truthy default_resolution pa) as [r1|e1] eqn:E1.
  2:{ cbn [rbind]. intros H; injection H as <-.
      now apply (update_if_truthy_raises _ _ _ E1). }
  cbn [rbind].
  destruct (update_if_truthy r1 pe) as [r2|e2] eqn:E2.
  2:{ cbn [rbind]. intros H; injection H as <-.
      now apply (update_if_truthy_raises _ _ _ E2). }
  cbn [rbind]. unfold flatten_command_id.
  destruct (dict_get r2 (key "command_id")) as [[]|]; try discriminate.
  destruct (str_join "," l) as [t|e3] eqn:E3; [discriminate|].
  intros H; injection H as <-. left. now apply (str_join_raises _ _ _ E3).
Qed.

Lemma float_of_str_raises (s : string) (e : exn) :
  float_of_str s = Raise e -> exn_cls e = ValueError.
Proof.
  unfold float_of_str.
  destruct (take_sign _) as [neg body].
  destruct (_ || _)%bool; [discriminate|].
  destruct (String.eqb _ "nan"); [discriminate|].
  destruct (drop_underscores false body) as [b|];
    [|intros H; injection H as <-; reflexivity].
  destruct (span_digits b) as [i r1].
  destruct (match r1 with
            | [] => ([], r1)
            | c :: r => if Ascii.eqb c "."%char then span_digits r else ([], r1)
            end) as [f r2].
  destruct i, f, r2; try discriminate;
    try (intros H; injection H as <-; reflexivity);
    try (destruct (match_exp _) as [[ex [|? ?]]|]; try discriminate;
         intros H; injection H as <-; reflexivity).
Qed.

Lemma py_float_raises (x : pyval) (e : exn) :
  py_float x = Raise e ->
  exn_cls e = TypeError \/ exn_cls e = ValueError \/ exn_cls e = OverflowError.
Proof.
  destruct x; simpl; try discriminate;
    try (intros H; injection H as <-; auto).
  - unfold float_of_int. destruct (nearest_float _ _); [discriminate|].
    intros H; injection H as <-; auto.
  - intros H. right. left. now apply (float_of_str_raises s).
Qed.

Lemma final_decision_raises (merged : dict) (e : exn) :
  final_decision merged = Raise e ->
  exn_cls e = TypeError \/ exn_cls e = ValueError \/ exn_cls e = OverflowError.
Proof.
  unfold final_decision.
  destruct (py_float _) as [c|e'] eqn:Ef.
  - cbn [rbind]. destruct (is_True _); [discriminate|].
    destruct (c <? 0.8)%float; discriminate.
  - cbn [rbind]. intros H; injection H as <-. now apply (py_float_raises _ _ Ef).
Qed.

(** X24: where the errors of the endpoint come from.  When a run raises,
    no audit item is written, and the error is an error of a reasoning call
    that is neither a rate limit nor a service error, or a TypeError, a
    ValueError or an OverflowError met when the recovered fields are merged
    and the confidence converted, or the error of the audit table on the
    item of the run. *)
Theorem process_alert_error_sources :
  forall (E : env) (alert : Alert) (w w' : world) (e : exn),
    process_alert E alert w = (Raise e, w') ->
    audit_items w' = audit_items w
    /\ ((exists i, kickoff E alert i = Raise e /\ ~ transient e)
        \/ (exn_cls e = TypeError \/ exn_cls e = ValueError
            \/ exn_cls e = OverflowError)
        \/ (exists item, table_put E item = Raise e)).
Proof.
  intros E alert w w' e Hp. split.
  { destruct (process_alert_raises_inv E alert w w' e Hp) as [r Hr].
    pose proof (retry_default_audit (kickoff E alert) w) as Ha.
    now rewrite Hr in Ha. }
  unfold process_alert in Hp.
  destruct (retry_default_shape (kickoff E alert) w) as (n & j & _ & Hr & _).
  rewrite Hr in Hp.
  destruct (kickoff E alert (calls w + n - 1)) as [result|e0] eqn:Ek.
  - destruct (extract_outputs result) as [pa pe].
    destruct (merge_resolution pa pe) as [merged|e1] eqn:Em.
    2:{ injection Hp as <- _. right. left.
        destruct (merge_resolution_raises _ _ _ Em); auto. }
    destruct (final_decision merged) as [[status resolution]|e1] eqn:Ed.
    2:{ injection Hp as <- _. right. left.
        now apply (final_decision_raises _ _ Ed). }
    unfold put_item in Hp.
    destruct (table_put E _) as [u|e1] eqn:Et; [discriminate|].
    injection Hp as <- _. right. right. eexists. exact Et.
  - destruct (isinstance e0 [RateLimitError; APIError]) eqn:Ei; [discriminate|].
    injection Hp as <- _. left. exists (calls w + n - 1)%nat.
    split; [exact Ek|].
    intros Ht. apply transient_allowed in Ht.
    unfold default_allowed_exceptions in Ht. congruence.
Qed.

Lemma process_alert_error_sources_witness :
  let E := env_of (quoted "{'confidence': 'high'}") "{}" in
  let e := mkExn ValueError "could not convert string to float" in
  process_alert E alert0 world0 = (Raise e, mkWorld 1 [] [])
  /\ audit_items (mkWorld 1 [] []) = audit_items world0
  /\ ((exists i, kickoff E alert0 i = Raise e /\ ~ transient e)
      \/ (exn_cls e = TypeError \/ exn_cls e = ValueError
          \/ exn_cls e = OverflowError)
      \/ (exists item, table_put E item = Raise e)).
Proof.
  intros E e.
  assert (Hp : process_alert E alert0 world0 = (Raise e, mkWorld 1 [] []))
    by (vm_compute; reflexivity).
  split; [exact Hp|].
  exact (process_alert_error_sources E alert0 world0 (mkWorld 1 [] []) e Hp).
Defined.

(** ** A confidence that is no number *)

Lemma is_nan_spec (c : float) : is_nan c = true -> Prim2SF c = S754_nan.
Proof.
  unfold is_nan. rewrite eqb_spec. unfold SFeqb. intros H.
  destruct (Prim2SF c) as [s|s| |s m e] eqn:E; [| |reflexivity|];
    rewrite SFcompare_refl in H by discriminate; discriminate.
Qed.

Lemma ltb_nan (c x : float) : is_nan c = true -> (c <? x)%float = false.
Proof.
  intros H. rewrite ltb_spec. unfold SFltb. now rewrite (is_nan_spec c H).
Qed.

(** X26: a confidence that converts to NaN (the text "nan" does) is never
    sent to a human: no comparison with NaN holds, so the status is resolved
    whether the fix was executed or not, and when it was executed the
    confidence written back is still NaN, not 0.95. *)
Theorem nan_confidence_is_resolved :
  forall (resolution : dict) (c : float),
    py_float (confidence_of resolution) = Ok c ->
    is_nan c = true ->
    final_decision resolution
    = Ok ("resolved",
          if is_True (executed_of resolution)
          then dict_put resolution (key "confidence") (PFloat c)
          else resolution).
Proof.
  intros resolution c Hc Hn.
  destruct (is_True (executed_of resolution)) eqn:Ee.
  - rewrite (final_decision_executed resolution c Hc Ee).
    unfold py_max. now rewrite (ltb_nan c 0.95 Hn).
  - rewrite (final_decision_not_executed resolution Ee), Hc. cbn [rbind].
    unfold threshold_status. now rewrite (ltb_nan c 0.8 Hn).
Qed.

Lemma nan_confidence_is_resolved_witness :
  let resolution := [(key "confidence", PStr "nan"); (key "executed", PBool false)] in
  py_float (confidence_of resolution) = Ok nan
  /\ is_nan nan = true
  /\ final_decision resolution = Ok ("resolved", resolution).
Proof.
  intros resolution.
  assert (Hc : py_float (confidence_of resolution) = Ok nan)
    by (vm_compute; reflexivity).
  split; [exact Hc|]. split; [reflexivity|].
  exact (nan_confidence_is_resolved resolution nan Hc eq_refl).
Defined.
